(** * TeNPy symmetry algebra and matrix operations: a shallow embedding

    Sources embedded here:
    - [tenpy/linalg/symmetries/groups.py]: the [Symmetry] class hierarchy
      (sector validity, fusion outcomes, dual sectors, products);
    - [tenpy/linalg/matrix_operations.py]: [leg_bipartition], [svd],
      [exp], [log] and their helpers.

    Python raises exceptions; here every fallible function returns a
    [result], and the exception class is kept so that a [try ... except
    TypeError] of the source can be written out. *)

From Stdlib Require Import ZArith List String Ascii Bool Lia.
From Stdlib Require Import DecimalString Sorted Permutation.
Import ListNotations.

Open Scope list_scope.
Open Scope Z_scope.

Set Warnings "-register-all".

(* ================================================================== *)
(** ** Exceptions and the error monad *)

Inductive PyExc : Type :=
| TypeError
| ValueError
| NameError
| KeyError
| IndexError
| ZeroDivisionError
| AssertionError
| AttributeError
| NotImplementedError.

Inductive result (A : Type) : Type :=
| Ok (a : A)
| Raise (e : PyExc).

Arguments Ok {A} a.
Arguments Raise {A} e.

Definition bind {A B : Type} (r : result A) (k : A -> result B) : result B :=
  match r with
  | Ok a => k a
  | Raise e => Raise e
  end.

Notation "x <- c ;; k" := (bind c (fun x => k))
  (at level 61, c at next level, right associativity).
Notation "' p <- c ;; k" := (bind c (fun p => k))
  (at level 61, p pattern, c at next level, right associativity).

(** [mapM f l]: evaluate [f] on the elements of [l] from left to right and
    stop at the first exception, as a list comprehension or a generator that
    is consumed to its end does. *)
Fixpoint mapM {A B : Type} (f : A -> result B) (l : list A) : result (list B) :=
  match l with
  | [] => Ok []
  | x :: l' => y <- f x ;; ys <- mapM f l' ;; Ok (y :: ys)
  end.

(** [raises r]: the call ends in an exception. *)
Definition raises {A : Type} (r : result A) : Prop := exists e, r = Raise e.

(* ================================================================== *)
(** ** Python values that occur as sectors

    Sectors of the symmetries of [groups.py] are [None] (NoSymmetry), [int]
    (ZN, U(1), SU(2), FermionParity) and sequences of sectors
    (ProductSymmetry): the code builds lists, and its [len] and [zip] take a
    tuple from the caller as well. [PyVal] is this universe: [None],
    integers, lists and tuples. A value of one kind handed to a symmetry
    that expects another is the "malformed input" of the sector predicates.
    Strings, floats and other objects are outside of it; no statement
    below speaks about them. *)

Inductive PyVal : Type :=
| VNone
| VInt (z : Z)
| VList (l : list PyVal)
| VTuple (l : list PyVal).

(** Python's [==] on these values: structural; a list never equals a
    tuple. *)
Fixpoint py_eq (a b : PyVal) {struct a} : bool :=
  match a, b with
  | VNone, VNone => true
  | VInt x, VInt y => Z.eqb x y
  | VList l, VList m =>
      (fix eq_list (l m : list PyVal) {struct l} : bool :=
         match l, m with
         | [], [] => true
         | x :: l', y :: m' => py_eq x y && eq_list l' m'
         | _, _ => false
         end) l m
  | VTuple l, VTuple m =>
      (fix eq_list (l m : list PyVal) {struct l} : bool :=
         match l, m with
         | [], [] => true
         | x :: l', y :: m' => py_eq x y && eq_list l' m'
         | _, _ => false
         end) l m
  | _, _ => false
  end.

(** [a is None] *)
Definition py_is_none (a : PyVal) : bool :=
  match a with VNone => true | _ => false end.

(** [isinstance(a, int)] *)
Definition isinstance_int (a : PyVal) : bool :=
  match a with VInt _ => true | _ => false end.

(** [len(a)]: a list and a tuple have a length, [None] and [int] raise
    TypeError. *)
Definition py_len (a : PyVal) : result Z :=
  match a with
  | VList l => Ok (Z.of_nat (List.length l))
  | VTuple l => Ok (Z.of_nat (List.length l))
  | _ => Raise TypeError
  end.

(** [iter(a)], as [zip] and [itertools.product] call it on an argument. *)
Definition py_iter (a : PyVal) : result (list PyVal) :=
  match a with
  | VList l => Ok l
  | VTuple l => Ok l
  | _ => Raise TypeError
  end.

(** [a + b]: integer addition, concatenation of two lists or of two tuples,
    TypeError otherwise. *)
Definition py_add (a b : PyVal) : result PyVal :=
  match a, b with
  | VInt x, VInt y => Ok (VInt (x + y))
  | VList l, VList m => Ok (VList (l ++ m))
  | VTuple l, VTuple m => Ok (VTuple (l ++ m))
  | _, _ => Raise TypeError
  end.

(** [a - b] *)
Definition py_sub (a b : PyVal) : result PyVal :=
  match a, b with
  | VInt x, VInt y => Ok (VInt (x - y))
  | _, _ => Raise TypeError
  end.

(** [-a] *)
Definition py_neg (a : PyVal) : result PyVal :=
  match a with
  | VInt x => Ok (VInt (- x))
  | _ => Raise TypeError
  end.

(** [abs(a)] *)
Definition py_abs (a : PyVal) : result PyVal :=
  match a with
  | VInt x => Ok (VInt (Z.abs x))
  | _ => Raise TypeError
  end.

(** [a % b]: Python's modulo takes the sign of the divisor, as [Z.modulo]
    does; a zero divisor raises. *)
Definition py_mod (a b : PyVal) : result PyVal :=
  match a, b with
  | VInt x, VInt y =>
      if y =? 0 then Raise ZeroDivisionError else Ok (VInt (x mod y))
  | _, _ => Raise TypeError
  end.

(** [range(start, stop, step)] on integers. *)
Definition range_len (start stop step : Z) : Z :=
  if 0 <? step then Z.max 0 ((stop - start + step - 1) / step)
  else Z.max 0 ((start - stop - step - 1) / (- step)).

Definition range3 (start stop step : Z) : list Z :=
  map (fun i => start + Z.of_nat i * step)
      (seq 0 (Z.to_nat (range_len start stop step))).

(** [range(n)] *)
Definition range1 (n : Z) : list Z := range3 0 n 1.

(** [list(range(start, stop, step))] with dynamically typed arguments. *)
Definition py_range (start stop step : PyVal) : result PyVal :=
  match start, stop, step with
  | VInt a, VInt b, VInt s =>
      if s =? 0 then Raise ValueError
      else Ok (VList (map VInt (range3 a b s)))
  | _, _, _ => Raise TypeError
  end.

(** [itertools.product] applied to the unpacked [pools]: the last pool
    varies fastest; no pool gives the one empty combination. *)
Fixpoint product {A : Type} (pools : list (list A)) : list (list A) :=
  match pools with
  | [] => [[]]
  | p :: rest =>
      flat_map (fun x => map (fun c => x :: c) (product rest)) p
  end.

(** [max(xs, key=key)]: the first element of largest key; ValueError on an
    empty sequence. *)
Fixpoint max_from {A : Type} (key : A -> Z) (best : A) (l : list A) : A :=
  match l with
  | [] => best
  | x :: l' => max_from key (if key best <? key x then x else best) l'
  end.

Definition py_max {A : Type} (key : A -> Z) (l : list A) : result A :=
  match l with
  | [] => Raise ValueError
  | x :: l' => Ok (max_from key x l')
  end.

(** [sep.join(parts)] *)
Fixpoint join (sep : string) (parts : list string) : string :=
  match parts with
  | [] => ""%string
  | [p] => p
  | p :: rest => (p ++ sep ++ join sep rest)%string
  end.

(** [str(n)] for an [int]. *)
Definition str_of_int (n : Z) : string := NilZero.string_of_int (Z.to_int n).

(** [len(s)] for a [str]. Python counts characters; the strings here hold
    the bytes of the UTF-8 encoding, in which a character is one byte that
    is no continuation byte (10xxxxxx) followed by its continuation
    bytes. *)
Definition is_continuation_byte (c : ascii) : bool :=
  let n := nat_of_ascii c in
  (Nat.leb 128 n && Nat.ltb n 192)%bool.

Fixpoint py_str_len (s : string) : nat :=
  match s with
  | EmptyString => 0%nat
  | String c s' =>
      if is_continuation_byte c then py_str_len s' else S (py_str_len s')
  end.

Fixpoint chars (s : string) : list ascii :=
  match s with
  | EmptyString => []
  | String c s' => c :: chars s'
  end.

(** Helpers for the comprehensions over [zip(...)] of the source. [zip]
    stops at the shortest argument. *)
Section Zips.
Context {A B C D : Type}.

(** [[f(x, y) for x, y in zip(xs, ys)]] *)
Definition zipM2 (f : A -> B -> result D) : list A -> list B -> result (list D) :=
  fix go (xs : list A) (ys : list B) {struct xs} : result (list D) :=
    match xs, ys with
    | x :: xs', y :: ys' => r <- f x y ;; rs <- go xs' ys' ;; Ok (r :: rs)
    | _, _ => Ok []
    end.

(** [[f(x, y, z) for x, y, z in zip(xs, ys, zs)]] *)
Definition zipM3 (f : A -> B -> C -> result D)
  : list A -> list B -> list C -> result (list D) :=
  fix go (xs : list A) (ys : list B) (zs : list C) {struct xs} : result (list D) :=
    match xs, ys, zs with
    | x :: xs', y :: ys', z :: zs' =>
        r <- f x y z ;; rs <- go xs' ys' zs' ;; Ok (r :: rs)
    | _, _, _ => Ok []
    end.

(** [all(p(x, y) for x, y in zip(xs, ys))]: stops at the first [False]. *)
Definition allM2 (p : A -> B -> result bool) : list A -> list B -> result bool :=
  fix go (xs : list A) (ys : list B) {struct xs} : result bool :=
    match xs, ys with
    | x :: xs', y :: ys' => r <- p x y ;; if r then go xs' ys' else Ok false
    | _, _ => Ok true
    end.
End Zips.

(* ================================================================== *)
(** ** groups.py: fusion and braiding styles *)

Inductive FusionStyle : Type :=
| single
| multiple_unique
| general.

Definition FusionStyle_value (s : FusionStyle) : Z :=
  match s with
  | single => 0
  | multiple_unique => 10
  | general => 20
  end.

Inductive BraidingStyle : Type :=
| bosonic
| fermionic
| anyonic
| no_braiding.

Definition BraidingStyle_value (s : BraidingStyle) : Z :=
  match s with
  | bosonic => 0
  | fermionic => 10
  | anyonic => 20
  | no_braiding => 30
  end.

(* ================================================================== *)
(** ** groups.py: symmetry objects

    [Symmetry.__init__] stores five attributes; [Symmetry_init] is that
    constructor. An object is its class together with the attributes the
    class's [__init__] chain has set: the five of the base class, [qmod] for
    a [QmodGroup], [N] for a [ZNSymmetry], [factors] for a
    [ProductSymmetry]. *)

Record SymmetryAttrs : Type := Symmetry_init {
  attr_fusion_style : FusionStyle;
  attr_braiding_style : BraidingStyle;
  attr_trivial_sector : PyVal;
  attr_group_name : string;
  attr_descriptive_name : option string
}.

Inductive Symmetry : Type :=
| NoSymmetry_obj (base : SymmetryAttrs)
| ProductSymmetry_obj (base : SymmetryAttrs) (factors : list Symmetry)
| ZNSymmetry_obj (base : SymmetryAttrs) (qmod : Z) (N : Z)
| U1Symmetry_obj (base : SymmetryAttrs) (qmod : Z)
| SU2Symmetry_obj (base : SymmetryAttrs)
| FermionParity_obj (base : SymmetryAttrs).

Definition base_attrs (s : Symmetry) : SymmetryAttrs :=
  match s with
  | NoSymmetry_obj base
  | ProductSymmetry_obj base _
  | ZNSymmetry_obj base _ _
  | U1Symmetry_obj base _
  | SU2Symmetry_obj base
  | FermionParity_obj base => base
  end.

Definition fusion_style (s : Symmetry) : FusionStyle :=
  attr_fusion_style (base_attrs s).
Definition braiding_style (s : Symmetry) : BraidingStyle :=
  attr_braiding_style (base_attrs s).
Definition trivial_sector (s : Symmetry) : PyVal :=
  attr_trivial_sector (base_attrs s).
Definition group_name (s : Symmetry) : string :=
  attr_group_name (base_attrs s).
Definition descriptive_name (s : Symmetry) : option string :=
  attr_descriptive_name (base_attrs s).

(** [isinstance(s, ProductSymmetry)] *)
Definition is_ProductSymmetry (s : Symmetry) : bool :=
  match s with ProductSymmetry_obj _ _ => true | _ => false end.

(** *** Constructors, following the [__init__] chain of each class *)

Definition Group_init (fusion_style : FusionStyle) (trivial_sector : PyVal)
    (group_name : string) (descriptive_name : option string) : SymmetryAttrs :=
  Symmetry_init fusion_style bosonic trivial_sector group_name descriptive_name.

Definition AbelianGroup_init (trivial_sector : PyVal) (group_name : string)
    (descriptive_name : option string) : SymmetryAttrs :=
  Group_init single trivial_sector group_name descriptive_name.

(** [QmodGroup.__init__] sets [self.qmod] and initialises the base class. *)
Definition QmodGroup_init (qmod : Z) (group_name : string)
    (descriptive_name : option string) : Z * SymmetryAttrs :=
  (qmod, AbelianGroup_init (VInt 0) group_name descriptive_name).

Definition NoSymmetry : Symmetry :=
  NoSymmetry_obj (Symmetry_init single bosonic VNone "NoSymmetry" None).

Definition all_described (factors : list Symmetry) : bool :=
  forallb (fun f => match descriptive_name f with Some _ => true | None => false end)
          factors.

Definition described_names (factors : list Symmetry) : list string :=
  map (fun f => match descriptive_name f with Some d => d | None => ""%string end)
      factors.

Definition ProductSymmetry (factors : list Symmetry) : result Symmetry :=
  let descriptive_name :=
    if all_described factors
    then Some ("[" ++ join ", " (described_names factors) ++ "]")%string
    else None in
  fs <- py_max FusionStyle_value (map fusion_style factors) ;;
  bs <- py_max BraidingStyle_value (map braiding_style factors) ;;
  Ok (ProductSymmetry_obj
        (Symmetry_init fs bs (VList (map trivial_sector factors))
           (join " ⨉ " (map group_name factors)) descriptive_name)
        factors).

(** The [subscript_map] of [ZNSymmetry.__init__]; a character that is not a
    key raises KeyError. *)
Definition subscript_map (c : ascii) : result string :=
  if Ascii.eqb c "0" then Ok "₀"%string
  else if Ascii.eqb c "1" then Ok "₁"%string
  else if Ascii.eqb c "2" then Ok "₂"%string
  else if Ascii.eqb c "3" then Ok "₃"%string
  else if Ascii.eqb c "4" then Ok "₄"%string
  else if Ascii.eqb c "5" then Ok "⨉⨉⨉⨉"%string
  else if Ascii.eqb c "6" then Ok "₆"%string
  else if Ascii.eqb c "7" then Ok "₇"%string
  else if Ascii.eqb c "8" then Ok "₈"%string
  else if Ascii.eqb c "9" then Ok "₉"%string
  else Raise KeyError.

Definition ZNSymmetry (N : Z) (descriptive_name : option string) : result Symmetry :=
  subs <- mapM subscript_map (chars (str_of_int N)) ;;
  let subscript_N := join "" subs in
  let '(qmod, base) := QmodGroup_init N ("ℤ" ++ subscript_N)%string descriptive_name in
  Ok (ZNSymmetry_obj base qmod N).

Definition U1Symmetry (descriptive_name : option string) : Symmetry :=
  let '(qmod, base) := QmodGroup_init 1 "U(1)" descriptive_name in
  U1Symmetry_obj base qmod.

Definition SU2Symmetry (descriptive_name : option string) : Symmetry :=
  SU2Symmetry_obj (Group_init multiple_unique (VInt 0) "SU(2)" descriptive_name).

Definition FermionParity : Symmetry :=
  FermionParity_obj (Symmetry_init single fermionic (VInt 0) "FermionParity" None).

(** *** Methods of the leaf classes *)

Definition NoSymmetry_is_valid_sector (a : PyVal) : result bool :=
  Ok (py_is_none a).

Definition NoSymmetry_fusion_outcomes (a b : PyVal) : result PyVal :=
  Ok (VList [VNone]).

Definition NoSymmetry_dual_sector (a : PyVal) : result PyVal :=
  Ok VNone.

(** [isinstance(a, int) and (self.qmod == 1 or 0 <= a < self.qmod)] *)
Definition QmodGroup_is_valid_sector (qmod : Z) (a : PyVal) : result bool :=
  match a with
  | VInt x => Ok ((qmod =? 1) || ((0 <=? x) && (x <? qmod)))
  | _ => Ok false
  end.

(** [[(a + b) % self.qmod]] *)
Definition QmodGroup_fusion_outcomes (qmod : Z) (a b : PyVal) : result PyVal :=
  s <- py_add a b ;;
  r <- py_mod s (VInt qmod) ;;
  Ok (VList [r]).

(** [(-a) % self.qmod] *)
Definition QmodGroup_dual_sector (qmod : Z) (a : PyVal) : result PyVal :=
  m <- py_neg a ;;
  py_mod m (VInt qmod).

(** [isinstance(a, int) and a >= 0] *)
Definition SU2Symmetry_is_valid_sector (a : PyVal) : result bool :=
  match a with
  | VInt x => Ok (0 <=? x)
  | _ => Ok false
  end.

(** [list(range(abs(a - b), a + b + 2, 2))] *)
Definition SU2Symmetry_fusion_outcomes (a b : PyVal) : result PyVal :=
  d <- py_sub a b ;;
  lo <- py_abs d ;;
  s <- py_add a b ;;
  hi <- py_add s (VInt 2) ;;
  py_range lo hi (VInt 2).

Definition SU2Symmetry_dual_sector (a : PyVal) : result PyVal := Ok a.

(** [a in [0, 1]] *)
Definition FermionParity_is_valid_sector (a : PyVal) : result bool :=
  Ok (existsb (py_eq a) [VInt 0; VInt 1]).

(** [int(a != b)]: a bare integer, not a list. *)
Definition FermionParity_fusion_outcomes (a b : PyVal) : result PyVal :=
  Ok (VInt (if negb (py_eq a b) then 1 else 0)).

Definition FermionParity_dual_sector (a : PyVal) : result PyVal := Ok a.

(** *** Methods, dispatched on the class of [self] *)

Fixpoint is_valid_sector (self : Symmetry) (a : PyVal) {struct self} : result bool :=
  match self with
  | NoSymmetry_obj _ => NoSymmetry_is_valid_sector a
  | ProductSymmetry_obj _ factors =>
      n <- py_len a ;;
      if negb (n =? Z.of_nat (List.length factors)) then Ok false
      else
        (* try: ... except TypeError: return False *)
        match (items <- py_iter a ;; allM2 is_valid_sector factors items) with
        | Raise TypeError => Ok false
        | r => r
        end
  | ZNSymmetry_obj _ qmod _ => QmodGroup_is_valid_sector qmod a
  | U1Symmetry_obj _ qmod => QmodGroup_is_valid_sector qmod a
  | SU2Symmetry_obj _ => SU2Symmetry_is_valid_sector a
  | FermionParity_obj _ => FermionParity_is_valid_sector a
  end.

Fixpoint fusion_outcomes (self : Symmetry) (a b : PyVal) {struct self} : result PyVal :=
  match self with
  | NoSymmetry_obj _ => NoSymmetry_fusion_outcomes a b
  | ProductSymmetry_obj _ factors =>
      items_a <- py_iter a ;;
      items_b <- py_iter b ;;
      all_outcomes <- zipM3 fusion_outcomes factors items_a items_b ;;
      pools <- mapM py_iter all_outcomes ;;
      Ok (VList (map VList (product pools)))
  | ZNSymmetry_obj _ qmod _ => QmodGroup_fusion_outcomes qmod a b
  | U1Symmetry_obj _ qmod => QmodGroup_fusion_outcomes qmod a b
  | SU2Symmetry_obj _ => SU2Symmetry_fusion_outcomes a b
  | FermionParity_obj _ => FermionParity_fusion_outcomes a b
  end.

Fixpoint dual_sector (self : Symmetry) (a : PyVal) {struct self} : result PyVal :=
  match self with
  | NoSymmetry_obj _ => NoSymmetry_dual_sector a
  | ProductSymmetry_obj _ factors =>
      items <- py_iter a ;;
      duals <- zipM2 dual_sector factors items ;;
      Ok (VList duals)
  | ZNSymmetry_obj _ qmod _ => QmodGroup_dual_sector qmod a
  | U1Symmetry_obj _ qmod => QmodGroup_dual_sector qmod a
  | SU2Symmetry_obj _ => SU2Symmetry_dual_sector a
  | FermionParity_obj _ => FermionParity_dual_sector a
  end.

(** [sector_dim]: the classes other than [SU2Symmetry] and
    [ProductSymmetry] return 1 without looking at the sector. [a + 1] is an
    integer for an integer sector and raises TypeError on [None], a list or
    a tuple;
    [math.prod] multiplies the factors' dimensions from left to right,
    starting from 1. *)
Definition NoSymmetry_sector_dim (a : PyVal) : result Z := Ok 1.

Definition AbelianGroup_sector_dim (a : PyVal) : result Z := Ok 1.

Definition SU2Symmetry_sector_dim (a : PyVal) : result Z :=
  match a with
  | VInt x => Ok (x + 1)
  | _ => Raise TypeError
  end.

Definition FermionParity_sector_dim (a : PyVal) : result Z := Ok 1.

Definition math_prod (xs : list Z) : Z := fold_left Z.mul xs 1.

Fixpoint sector_dim (self : Symmetry) (a : PyVal) {struct self} : result Z :=
  match self with
  | NoSymmetry_obj _ => NoSymmetry_sector_dim a
  | ProductSymmetry_obj _ factors =>
      items <- py_iter a ;;
      dims <- zipM2 sector_dim factors items ;;
      Ok (math_prod dims)
  | ZNSymmetry_obj _ _ _ => AbelianGroup_sector_dim a
  | U1Symmetry_obj _ _ => AbelianGroup_sector_dim a
  | SU2Symmetry_obj _ => SU2Symmetry_sector_dim a
  | FermionParity_obj _ => FermionParity_sector_dim a
  end.

(** [Symmetry.__mul__] for two symmetry operands (the [NotImplemented]
    branches concern operands that are no [Symmetry]). *)
Definition operand_factors (s : Symmetry) : list Symmetry :=
  match s with
  | ProductSymmetry_obj _ factors => factors
  | _ => [s]
  end.

Definition Symmetry_mul (self other : Symmetry) : result Symmetry :=
  let factors := operand_factors self in
  let factors := factors ++ operand_factors other in
  ProductSymmetry factors.

(** The module-level instances. *)
Definition no_symmetry : Symmetry := NoSymmetry.
Definition z2_symmetry : result Symmetry := ZNSymmetry 2 None.
Definition z3_symmetry : result Symmetry := ZNSymmetry 3 None.
Definition u1_symmetry : Symmetry := U1Symmetry None.
Definition su2_symmetry : Symmetry := SU2Symmetry None.
Definition fermion_parity : Symmetry := FermionParity.

(* ================================================================== *)
(** ** matrix_operations.py *)

(** [l[i]] on a Python list: a negative index counts from the end, an index
    out of range raises IndexError. *)
Definition py_index {A : Type} (l : list A) (i : Z) : result A :=
  let n := Z.of_nat (List.length l) in
  let j := if i <? 0 then i + n else i in
  if (0 <=? j) && (j <? n)
  then match nth_error l (Z.to_nat j) with
       | Some x => Ok x
       | None => Raise IndexError
       end
  else Raise IndexError.

(** [n in idcs] for a list of integers. *)
Definition py_in (n : Z) (idcs : list Z) : bool := existsb (Z.eqb n) idcs.

(** [assert c] *)
Definition py_assert (c : bool) : result unit :=
  if c then Ok tt else Raise AssertionError.

(** A leg selection of the callers: a position or a label ([int | str]). *)
Inductive LegSel : Type :=
| LegIdx (i : Z)
| LegLabel (s : string).

(** The names bound in the module [matrix_operations]: its imports and its
    definitions. A name that is neither a local of the running function nor
    bound here nor a builtin raises NameError when it is loaded; no builtin
    is called [v_idcs]. *)
Definition module_globals : list string :=
  [ "annotations"; "math"; "DiagonalTensor"; "AbstractTensor"; "Tensor";
    "get_same_backend"; "__all__"; "svd"; "truncate_svd"; "svd_split";
    "_svd_new_labels"; "leg_bipartition"; "exp"; "log" ]%string.

Inductive GlobalRef : Type :=
| Global (name : string).

Definition load_global (name : string) : result GlobalRef :=
  if existsb (String.eqb name) module_globals then Ok (Global name)
  else Raise NameError.

(** [_svd_new_labels]: [new_labels] is [None] or a sequence of labels. *)
Definition _svd_new_labels (new_labels : option (list string))
  : result (option string * option string * option string * option string) :=
  match new_labels with
  | None => Ok (None, None, None, None)
  | Some ls =>
      let num_labels := Z.of_nat (List.length ls) in
      if num_labels =? 2 then
        l0 <- py_index ls 0 ;;
        l1 <- py_index ls 1 ;;
        (* l_u = l_sv = new_labels[0]; l_su = l_vh = new_labels[1] *)
        Ok (Some l0, Some l1, Some l0, Some l1)
      else if num_labels =? 4 then
        match ls with
        | [l_u; l_su; l_sv; l_vh] => Ok (Some l_u, Some l_su, Some l_sv, Some l_vh)
        | _ => Raise ValueError
        end
      else Raise ValueError
  end.

(** [l[start:stop]] on a Python list; [None] stands for an omitted bound. A
    negative bound counts from the end, and bounds are clamped to the list. *)
Definition slice_bound (n : Z) (i : Z) : Z :=
  if i <? 0 then Z.max (i + n) 0 else Z.min i n.

Definition py_slice {A : Type} (l : list A) (start stop : option Z) : list A :=
  let n := Z.of_nat (List.length l) in
  let lo := match start with Some i => slice_bound n i | None => 0 end in
  let hi := match stop with Some i => slice_bound n i | None => n end in
  firstn (Z.to_nat (hi - lo)) (skipn (Z.to_nat lo) l).

Section MatrixOperations.

(** The numeric payload, the backend handle, the leg spaces and the
    scalars are opaque to this module. *)
Variables Data Backend Leg Scalar : Type.

(** Modelled from the spec: [tenpy/linalg/tensors.py] is not part of the
    sources at hand. A tensor owns a list of leg spaces, an optional label
    per leg, an opaque data handle and a reference to its backend;
    [num_legs] is its number of legs. *)
Record Tensor : Type := Tensor_init {
  data : Data;
  backend : Backend;
  legs : list Leg;
  labels : list (option string)
}.

Record DiagonalTensor : Type := DiagonalTensor_init {
  diag_data : Data;
  diag_backend : Backend;
  diag_legs : list Leg;
  diag_labels : list (option string)
}.

Definition num_legs (a : Tensor) : Z := Z.of_nat (List.length (legs a)).

(** What the functions of this module receive as [a] or [t]: a plain
    number, a [Tensor], or another [AbstractTensor]. *)
Inductive TensorLike : Type :=
| IsScalar (x : Scalar)
| IsTensor (t : Tensor)
| IsDiagonalTensor (d : DiagonalTensor).

(** Methods of [Tensor] and of the leg spaces, and the backend's
    primitives: code outside the sources at hand, taken as parameters. *)
Variable get_leg_idcs : Tensor -> list LegSel -> result (list Z).
Variable combine_legs : Tensor -> list Z -> GlobalRef -> list Z -> result Tensor.
Variable transpose : Tensor -> list Z -> result Tensor.
Variable split_leg : Tensor -> Z -> result Tensor.
Variable is_dual_of : Leg -> Leg -> bool.
Variable leg_dual : Leg -> Leg.
Variable backend_svd : Backend -> Tensor -> bool -> result (Data * Data * Data * Leg).
Variable backend_exp : Backend -> Tensor -> list Z -> list Z -> result Data.
Variable backend_log : Backend -> Tensor -> list Z -> list Z -> result Data.
Variable math_exp : Scalar -> result Scalar.
Variable math_log : Scalar -> result Scalar.

Definition leg_bipartition (a : Tensor) (legs1 legs2 : option (list LegSel))
  : result (list Z * list Z) :=
  match legs1, legs2 with
  | None, None =>
      if negb (num_legs a =? 2) then Raise ValueError
      else Ok ([0], [1])
  | None, Some legs2 =>
      idcs2 <- get_leg_idcs a legs2 ;;
      let idcs1 := filter (fun n => negb (py_in n idcs2)) (range1 (num_legs a)) in
      Ok (idcs1, idcs2)
  | Some legs1, None =>
      idcs1 <- get_leg_idcs a legs1 ;;
      let idcs2 := filter (fun n => negb (py_in n idcs1)) (range1 (num_legs a)) in
      Ok (idcs1, idcs2)
  | Some legs1, Some legs2 =>
      idcs1 <- get_leg_idcs a legs1 ;;
      idcs2 <- get_leg_idcs a legs2 ;;
      let in_both_lists := filter (fun l => py_in l idcs2) idcs1 in
      match in_both_lists with
      | _ :: _ => Raise ValueError
      | [] =>
          let missing :=
            filter (fun n => negb (py_in n idcs1) && negb (py_in n idcs2))
                   (range1 (num_legs a)) in
          match missing with
          | _ :: _ => Raise ValueError
          | [] => Ok (idcs1, idcs2)
          end
      end
  end.

(** A call [leg_bipartition(...)] with positional arguments. Python binds
    them to the three parameters [a], [legs1], [legs2] before the body
    runs: with fewer or more than three the call raises TypeError. The
    body reads [a.num_legs] or [a.get_leg_idcs] on every path; an argument
    of another kind than its parameter has not the attributes the body
    uses (no call of this module passes such arguments). *)
Inductive Arg : Type :=
| ArgTensor (t : Tensor)
| ArgLegs (l : option (list LegSel)).

Definition bind_positional (params : nat) (args : list Arg) : result (list Arg) :=
  if Nat.eqb (List.length args) params then Ok args else Raise TypeError.

Definition call_leg_bipartition (args : list Arg) : result (list Z * list Z) :=
  bound <- bind_positional 3 args ;;
  match bound with
  | [ArgTensor a; ArgLegs legs1; ArgLegs legs2] => leg_bipartition a legs1 legs2
  | _ => Raise AttributeError
  end.

Definition svd (a : TensorLike) (u_legs vh_legs : option (list LegSel))
    (new_labels : option (list string)) (new_vh_leg_dual : bool)
  : result (Tensor * DiagonalTensor * Tensor) :=
  match a with
  | IsTensor a =>
      '(u_idcs, vh_idcs) <-
        call_leg_bipartition [ArgTensor a; ArgLegs u_legs; ArgLegs vh_legs] ;;
      '(l_u, l_su, l_sv, l_vh) <- _svd_new_labels new_labels ;;
      let need_combine :=
        negb (Z.of_nat (List.length u_idcs) =? 1)
        || negb (Z.of_nat (List.length vh_idcs) =? 1) in
      a <- (if need_combine then
              v_idcs <- load_global "v_idcs" ;;
              combine_legs a u_idcs v_idcs [0; 1]
            else
              u0 <- py_index u_idcs 0 ;;
              if u0 =? 1 then transpose a [1; 0] else Ok a) ;;
      '(u_data, s_data, vh_data, new_leg) <-
        backend_svd (backend a) a new_vh_leg_dual ;;
      leg0 <- py_index (legs a) 0 ;;
      u_labels <- mapM (py_index (labels a)) u_idcs ;;
      let U := Tensor_init u_data (backend a) [leg0; leg_dual new_leg]
                 (u_labels ++ [l_u]) in
      let S := DiagonalTensor_init s_data (backend a)
                 [new_leg; leg_dual new_leg] [l_su; l_sv] in
      leg1 <- py_index (legs a) 1 ;;
      vh_labels <- mapM (py_index (labels a)) vh_idcs ;;
      let Vh := Tensor_init vh_data (backend a) [new_leg; leg1]
                  ([l_vh] ++ vh_labels) in
      if need_combine then
        U <- split_leg U 0 ;;
        Vh <- split_leg Vh 1 ;;
        Ok (U, S, Vh)
      else Ok (U, S, Vh)
  | _ => Raise NotImplementedError
  end.

Definition exp (t : TensorLike) (legs1 legs2 : option (list LegSel))
  : result TensorLike :=
  match t with
  | IsScalar x => r <- math_exp x ;; Ok (IsScalar r)
  | IsDiagonalTensor _ => Raise NotImplementedError
  | IsTensor t =>
      '(idcs1, idcs2) <- call_leg_bipartition [ArgLegs legs1; ArgLegs legs2] ;;
      _ <- py_assert (Z.of_nat (List.length idcs1) =? Z.of_nat (List.length idcs2)) ;;
      duals <- allM2 (fun i1 i2 =>
                        l1 <- py_index (legs t) i1 ;;
                        l2 <- py_index (legs t) i2 ;;
                        Ok (is_dual_of l1 l2)) idcs1 idcs2 ;;
      _ <- py_assert duals ;;
      res_data <- backend_exp (backend t) t idcs1 idcs2 ;;
      Ok (IsTensor (Tensor_init res_data (backend t) (legs t) (labels t)))
  end.

Definition log (t : TensorLike) (legs1 legs2 : option (list LegSel))
  : result TensorLike :=
  match t with
  | IsScalar x => r <- math_log x ;; Ok (IsScalar r)
  | IsDiagonalTensor _ => Raise NotImplementedError
  | IsTensor t =>
      '(idcs1, idcs2) <- call_leg_bipartition [ArgLegs legs1; ArgLegs legs2] ;;
      _ <- py_assert (Z.of_nat (List.length idcs1) =? Z.of_nat (List.length idcs2)) ;;
      duals <- allM2 (fun i1 i2 =>
                        l1 <- py_index (legs t) i1 ;;
                        l2 <- py_index (legs t) i2 ;;
                        Ok (is_dual_of l1 l2)) idcs1 idcs2 ;;
      _ <- py_assert duals ;;
      res_data <- backend_log (backend t) t idcs1 idcs2 ;;
      Ok (IsTensor (Tensor_init res_data (backend t) (legs t) (labels t)))
  end.

(** [truncate_svd]: the truncation options are opaque; [get_same_backend]
    (of [tensors.py]) and the backend's [truncate_svd] are taken as
    parameters. *)
Variable Options : Type.
Variable get_same_backend : Tensor -> DiagonalTensor -> Tensor -> result Backend.
Variable backend_truncate_svd :
  Backend -> Tensor -> DiagonalTensor -> Tensor -> Options
  -> result (Data * Data * Data * Leg * Scalar).

Definition truncate_svd (U : TensorLike) (S : DiagonalTensor) (Vh : TensorLike)
    (options : Options) : result (Tensor * DiagonalTensor * Tensor * Scalar) :=
  match U, Vh with
  | IsTensor U, IsTensor Vh =>
      backend <- get_same_backend U S Vh ;;
      '(u_data, s_data, vh_data, new_leg, trunc_err) <-
        backend_truncate_svd backend U S Vh options ;;
      let U' := Tensor_init u_data backend
                  (py_slice (legs U) None (Some (-1)) ++ [new_leg]) (labels U) in
      let S' := DiagonalTensor_init s_data backend
                  [leg_dual new_leg; new_leg] (diag_labels S) in
      let Vh' := Tensor_init vh_data backend
                   ([leg_dual new_leg] ++ py_slice (legs Vh) (Some 1) None)
                   (labels Vh) in
      Ok (U', S', Vh', trunc_err)
  | _, _ => Raise NotImplementedError
  end.

(** [svd_split] is not implemented. *)
Definition svd_split (a : TensorLike) (legs1 legs2 : option (list LegSel))
    (new_labels : option (list string)) : result (Tensor * Tensor) :=
  Raise NotImplementedError.

End MatrixOperations.

Arguments Tensor_init {Data Backend Leg} data backend legs labels.
Arguments data {Data Backend Leg} t.
Arguments backend {Data Backend Leg} t.
Arguments legs {Data Backend Leg} t.
Arguments labels {Data Backend Leg} t.
Arguments DiagonalTensor_init {Data Backend Leg} diag_data diag_backend diag_legs diag_labels.
Arguments num_legs {Data Backend Leg} a.
Arguments IsScalar {Data Backend Leg Scalar} x.
Arguments IsTensor {Data Backend Leg Scalar} t.
Arguments IsDiagonalTensor {Data Backend Leg Scalar} d.
Arguments ArgTensor {Data Backend Leg} t.
Arguments ArgLegs {Data Backend Leg} l.
Arguments leg_bipartition {Data Backend Leg} get_leg_idcs a legs1 legs2.
Arguments call_leg_bipartition {Data Backend Leg} get_leg_idcs args.
Arguments svd {Data Backend Leg Scalar} get_leg_idcs combine_legs transpose split_leg
  leg_dual backend_svd a u_legs vh_legs new_labels new_vh_leg_dual.
Arguments exp {Data Backend Leg Scalar} get_leg_idcs is_dual_of backend_exp math_exp
  t legs1 legs2.
Arguments log {Data Backend Leg Scalar} get_leg_idcs is_dual_of backend_log math_log
  t legs1 legs2.

Arguments truncate_svd {Data Backend Leg Scalar} leg_dual {Options}
  get_same_backend backend_truncate_svd U S Vh options.
Arguments diag_legs {Data Backend Leg} d.
Arguments diag_labels {Data Backend Leg} d.
Arguments diag_data {Data Backend Leg} d.
Arguments diag_backend {Data Backend Leg} d.

(* ================================================================== *)
(** ** backends/torch.py

    Blocks are torch tensors: opaque here. What the module asks of [torch]
    and [numpy] are parameters; what it computes itself (index lists,
    shapes, the choice of lines and of the algorithm) is written out. *)

(** A call with positional arguments to a function of [params] required
    parameters: any other number of arguments raises TypeError. *)
Definition bind_args {A : Type} (params : nat) (args : list A) : result (list A) :=
  if Nat.eqb (List.length args) params then Ok args else Raise TypeError.

(** [TorchBlockBackend.svd_algorithms] *)
Definition svd_algorithms : list string := ["gesvdj"; "gesvd"]%string.

Section TorchBackend.

Variables Block Backend Leg : Type.

(** [a.shape], [torch.permute], [torch.reshape], [torch.linalg.svd(a,
    full_matrices=False, driver=...)], [len(s)], the lines of [repr(a)]
    under a given line width, [a.diagonal(offset=0, dim1=-1,
    dim2=-2).sum(-1)], [numpy.prod] and [VectorSpace.non_symmetric]. *)
Variable block_shape_of : Block -> list Z.
Variable torch_permute : Block -> list Z -> result Block.
Variable torch_reshape : Block -> list Z -> result Block.
Variable torch_linalg_svd : Block -> string -> result (Block * Block * Block).
Variable block_len : Block -> Z.
Variable repr_lines : Z -> Block -> list string.
Variable torch_diagonal_sum : Block -> result Block.
Variable numpy_prod : list Z -> Z.
Variable non_symmetric : Z -> bool -> bool -> Leg.

Definition block_shape (a : Block) : list Z := block_shape_of a.

(** [_block_repr_lines]: the lines of [repr(a)], printed with a line width
    of [max_width - len(indent)], indented, and cut down around an ellipsis
    line when they are more than [max_lines]. *)
Definition _block_repr_lines (a : Block) (indent : string) (max_width max_lines : Z)
  : list string :=
  let linewidth := max_width - Z.of_nat (py_str_len indent) in
  let lines := map (fun line => (indent ++ line)%string) (repr_lines linewidth a) in
  if max_lines <? Z.of_nat (List.length lines) then
    let first := (max_lines - 1) / 2 in
    let last := max_lines - 1 - first in
    py_slice lines None (Some first) ++ [(indent ++ "...")%string]
      ++ py_slice lines (Some (- last)) None
  else lines.

Definition matrix_svd (a : Block) (algorithm : option string)
  : result (Block * Block * Block) :=
  let algorithm := match algorithm with None => "gesvd"%string | Some alg => alg end in
  _ <- py_assert (existsb (String.eqb algorithm) svd_algorithms) ;;
  torch_linalg_svd a algorithm.

Definition block_combine_legs (a : Block) (legs : list Z) : result Block :=
  legs_0 <- py_index legs 0 ;;
  let legs_before_new_leg := filter (fun n => negb (py_in n legs)) (range1 legs_0) in
  let legs_after_new_leg :=
    filter (fun n => negb (py_in n legs))
           (range3 (legs_0 + 1) (Z.of_nat (List.length (block_shape a))) 1) in
  let permutation := legs_before_new_leg ++ legs ++ legs_after_new_leg in
  dims_before <- mapM (py_index (block_shape a)) legs_before_new_leg ;;
  dims_legs <- mapM (py_index (block_shape a)) legs ;;
  dims_after <- mapM (py_index (block_shape a)) legs_after_new_leg ;;
  let new_shape := dims_before ++ [numpy_prod dims_legs] ++ dims_after in
  a <- torch_permute a permutation ;;
  torch_reshape a new_shape.

Definition block_trace (a : Block) (idcs1 idcs2 : list Z) : result Block :=
  let other_idcs :=
    filter (fun n => negb (py_in n idcs1) && negb (py_in n idcs2))
           (range1 (Z.of_nat (List.length (block_shape a)))) in
  a <- torch_permute a (other_idcs ++ idcs1 ++ idcs2) ;;
  let num_other := Z.of_nat (List.length other_idcs) in
  let num_trace := Z.of_nat (List.length idcs1) in
  let trace_dim :=
    numpy_prod (py_slice (block_shape a) (Some num_other)
                  (Some (num_other + num_trace))) in
  a <- torch_reshape a (py_slice (block_shape a) None (Some num_other)
                          ++ [trace_dim; trace_dim]) ;;
  torch_diagonal_sum a.

(** Arguments of a call of [matrix_svd] and of the backend's [svd]. *)
Inductive MatrixSvdArg : Type :=
| MBlock (a : Block)
| MAlgorithm (algorithm : option string).

Definition call_matrix_svd (args : list MatrixSvdArg)
  : result (Block * Block * Block) :=
  bound <- bind_args 2 args ;;
  match bound with
  | [MBlock a; MAlgorithm algorithm] => matrix_svd a algorithm
  | _ => Raise AttributeError
  end.

(** [NoSymmetryTorchBackend.svd] *)
Definition NoSymmetryTorchBackend_svd (a : Tensor Block Backend Leg)
    (axs1 axs2 : list Z) (new_leg : option Leg)
  : result (Block * Block * Block * Leg) :=
  a <- torch_permute (data a) (axs1 ++ axs2) ;;
  let k := Z.of_nat (List.length axs1) in
  let a_shape1 := py_slice (block_shape a) None (Some k) in
  let a_shape2 := py_slice (block_shape a) (Some k) None in
  a <- torch_reshape a [numpy_prod a_shape1; numpy_prod a_shape2] ;;
  '(u, s, vh) <- call_matrix_svd [MBlock a] ;;
  u <- torch_reshape u (a_shape1 ++ [block_len s]) ;;
  vh <- torch_reshape vh ([block_len s] ++ a_shape2) ;;
  let new_leg :=
    match new_leg with
    | None => non_symmetric (block_len s) false false
    | Some leg => leg
    end in
  Ok (u, s, vh, new_leg).

Inductive BackendSvdArg : Type :=
| BTensor (a : Tensor Block Backend Leg)
| BAxes (axs : list Z)
| BLeg (new_leg : option Leg)
| BBool (b : bool).

Definition call_NoSymmetryTorchBackend_svd (args : list BackendSvdArg)
  : result (Block * Block * Block * Leg) :=
  bound <- bind_args 4 args ;;
  match bound with
  | [BTensor a; BAxes axs1; BAxes axs2; BLeg new_leg] =>
      NoSymmetryTorchBackend_svd a axs1 axs2 new_leg
  | _ => Raise AttributeError
  end.

(** The call [a.backend.svd(a, new_vh_leg_dual)] of [matrix_operations.svd]
    when the backend of [a] is a [NoSymmetryTorchBackend]. *)
Definition torch_backend_svd (self : Backend) (a : Tensor Block Backend Leg)
    (new_vh_leg_dual : bool) : result (Block * Block * Block * Leg) :=
  call_NoSymmetryTorchBackend_svd [BTensor a; BBool new_vh_leg_dual].

End TorchBackend.

Arguments _block_repr_lines {Block} repr_lines a indent max_width max_lines.
Arguments matrix_svd {Block} torch_linalg_svd a algorithm.
Arguments block_combine_legs {Block} block_shape_of torch_permute torch_reshape
  numpy_prod a legs.
Arguments block_trace {Block} block_shape_of torch_permute torch_reshape
  torch_diagonal_sum numpy_prod a idcs1 idcs2.
Arguments MBlock {Block} a.
Arguments MAlgorithm {Block} algorithm.
Arguments call_matrix_svd {Block} torch_linalg_svd args.
Arguments NoSymmetryTorchBackend_svd {Block Backend Leg} block_shape_of torch_permute
  torch_reshape torch_linalg_svd block_len numpy_prod non_symmetric a axs1 axs2 new_leg.
Arguments BTensor {Block Backend Leg} a.
Arguments BAxes {Block Backend Leg} axs.
Arguments BLeg {Block Backend Leg} new_leg.
Arguments BBool {Block Backend Leg} b.
Arguments call_NoSymmetryTorchBackend_svd {Block Backend Leg} block_shape_of
  torch_permute torch_reshape torch_linalg_svd block_len numpy_prod non_symmetric args.
Arguments torch_backend_svd {Block Backend Leg} block_shape_of torch_permute
  torch_reshape torch_linalg_svd block_len numpy_prod non_symmetric
  self a new_vh_leg_dual.

(** Modelled from the spec: [Tensor.get_leg_idcs] is defined in
    [tenpy/linalg/tensors.py], which is not part of the sources at hand. The
    spec (section 9) has a leg selection be an index or a label, resolved
    once into plain integer indices. Here an index is taken as it is and a
    label resolves to the first position that carries it; a label that no
    leg carries is an error. The theorems on [leg_bipartition] hold for
    every resolver; this one instantiates them. *)
Fixpoint find_label (lbl : string) (ls : list (option string)) (i : Z) : result Z :=
  match ls with
  | [] => Raise ValueError
  | Some l :: ls' => if String.eqb l lbl then Ok i else find_label lbl ls' (i + 1)
  | None :: ls' => find_label lbl ls' (i + 1)
  end.

Definition resolve_leg_idcs {Data Backend Leg : Type}
    (a : Tensor Data Backend Leg) (which_legs : list LegSel) : result (list Z) :=
  mapM (fun sel => match sel with
                   | LegIdx i => Ok i
                   | LegLabel l => find_label l (labels a) 0
                   end) which_legs.

(* ================================================================== *)
(** * Vocabulary of the statements *)

(** ** Symmetries *)

(** [a] is a valid sector of [s]: the predicate returns [True]. *)
Definition valid (s : Symmetry) (a : PyVal) : Prop := is_valid_sector s a = Ok true.

(** The round trip [dual_sector(dual_sector(a))]. *)
Definition dual_twice (s : Symmetry) (a : PyVal) : result PyVal :=
  d <- dual_sector s a ;; dual_sector s d.

(** No [QmodGroup] with [qmod = 1] occurs in [s]. *)
Fixpoint no_qmod_1 (s : Symmetry) : bool :=
  match s with
  | ProductSymmetry_obj _ factors => forallb no_qmod_1 factors
  | ZNSymmetry_obj _ qmod _ => negb (qmod =? 1)
  | U1Symmetry_obj _ qmod => negb (qmod =? 1)
  | _ => true
  end.

Definition is_FermionParity (s : Symmetry) : bool :=
  match s with FermionParity_obj _ => true | _ => false end.

(** No product inside [s] (or [s] itself) has a [FermionParity] factor. *)
Fixpoint no_parity_factor (s : Symmetry) : bool :=
  match s with
  | ProductSymmetry_obj _ factors =>
      forallb (fun f => negb (is_FermionParity f) && no_parity_factor f) factors
  | _ => true
  end.

(** The call returns a list. *)
Definition returns_list (r : result PyVal) : Prop := exists l, r = Ok (VList l).

(** [m] is a maximum of [l] by [key]: an element of [l] that no element
    exceeds. *)
Definition is_max_of {A : Type} (key : A -> Z) (m : A) (l : list A) : Prop :=
  In m l /\ forall x, In x l -> key x <= key m.

(** [factors] of an object: only a [ProductSymmetry] has the attribute. *)
Definition factors_of (s : Symmetry) : option (list Symmetry) :=
  match s with
  | ProductSymmetry_obj _ factors => Some factors
  | _ => None
  end.

(** A symmetry is flat when no [ProductSymmetry] sits among what it
    contributes to a product: itself if it is no product, its factors
    otherwise. *)
Definition flat (s : Symmetry) : Prop :=
  Forall (fun f => is_ProductSymmetry f = false) (operand_factors s).

(** The symmetries one obtains from objects of the other classes with [*]. *)
Inductive built_by_mul : Symmetry -> Prop :=
| built_leaf : forall s, is_ProductSymmetry s = false -> built_by_mul s
| built_mul : forall s1 s2 p,
    built_by_mul s1 -> built_by_mul s2 -> Symmetry_mul s1 s2 = Ok p ->
    built_by_mul p.

(** A product handed to the constructor inside a factor list:
    [ProductSymmetry([ProductSymmetry([u1_symmetry]), su2_symmetry])], and
    that product times [fermion_parity]. *)
Definition inner_product : result Symmetry := ProductSymmetry [u1_symmetry].

Definition nested_product : result Symmetry :=
  inner <- inner_product ;; ProductSymmetry [inner; su2_symmetry].

Definition nested_product_mul_parity : result Symmetry :=
  p <- nested_product ;; Symmetry_mul p fermion_parity.

(** ** Leg groups *)

(** Strictly increasing. *)
Definition ascending (l : list Z) : Prop := StronglySorted Z.lt l.

(** The two index groups share a leg. *)
Definition overlap (idcs1 idcs2 : list Z) : Prop :=
  exists n, In n idcs1 /\ In n idcs2.

(** The two index groups together contain every leg of [a]. *)
Definition covers {Data Backend Leg : Type} (a : Tensor Data Backend Leg)
    (idcs1 idcs2 : list Z) : Prop :=
  forall n, 0 <= n < num_legs a -> In n idcs1 \/ In n idcs2.

(** The legs of [a] that are not in [idcs], in ascending order. *)
Definition remaining_legs {Data Backend Leg : Type} (a : Tensor Data Backend Leg)
    (idcs rest : list Z) : Prop :=
  ascending rest /\ forall n, In n rest <-> (0 <= n < num_legs a /\ ~ In n idcs).

(** ** Example tensors

    Tensors over trivial payloads, for the examples of the specification:
    four legs labelled [a] to [d], two legs, three legs. *)

Definition four_legs : Tensor unit unit unit :=
  Tensor_init tt tt [tt; tt; tt; tt]
    [Some "a"; Some "b"; Some "c"; Some "d"]%string.

Definition two_legs : Tensor unit unit unit :=
  Tensor_init tt tt [tt; tt] [Some "p"; Some "q"]%string.

Definition three_legs : Tensor unit unit unit :=
  Tensor_init tt tt [tt; tt; tt] [Some "a"; Some "b"; Some "c"]%string.

(** The objects the constructors of [groups.py] return, products being
    built over such objects. *)
Inductive constructed : Symmetry -> Prop :=
| constructed_NoSymmetry : constructed NoSymmetry
| constructed_ZNSymmetry : forall N name s,
    ZNSymmetry N name = Ok s -> constructed s
| constructed_U1Symmetry : forall name, constructed (U1Symmetry name)
| constructed_SU2Symmetry : forall name, constructed (SU2Symmetry name)
| constructed_FermionParity : constructed FermionParity
| constructed_ProductSymmetry : forall factors p,
    Forall constructed factors -> ProductSymmetry factors = Ok p ->
    constructed p.

(** [a] with every tuple in it replaced by the list of the same items. The
    methods of [ProductSymmetry] read a sector through [zip] and build
    lists, so this is the shape in which a sector comes back from them. *)
Fixpoint as_lists (a : PyVal) : PyVal :=
  match a with
  | VList l => VList (map as_lists l)
  | VTuple l => VList (map as_lists l)
  | _ => a
  end.

(** [isinstance(a, list)] *)
Definition is_list (a : PyVal) : bool :=
  match a with VList _ => true | _ => false end.

(** No tuple occurs in [a]. *)
Fixpoint tuple_free (a : PyVal) : bool :=
  match a with
  | VList l => forallb tuple_free l
  | VTuple _ => false
  | _ => true
  end.

Definition is_SU2Symmetry (s : Symmetry) : bool :=
  match s with SU2Symmetry_obj _ => true | _ => false end.

(** [dims] holds what [sector_dim] of each factor returns on its item. *)
Inductive factor_dims : list Symmetry -> list PyVal -> list Z -> Prop :=
| factor_dims_nil : factor_dims [] [] []
| factor_dims_cons : forall f x d factors items dims,
    sector_dim f x = Ok d -> factor_dims factors items dims ->
    factor_dims (f :: factors) (x :: items) (d :: dims).

(** The sum of the dimensions of the sectors of [l]. *)
Fixpoint total_dim (s : Symmetry) (l : list PyVal) : result Z :=
  match l with
  | [] => Ok 0
  | c :: l' => d <- sector_dim s c ;; t <- total_dim s l' ;; Ok (d + t)
  end.

(** [s] is no [FermionParity] and no product inside [s] has a
    [FermionParity] factor: the symmetries whose fusion returns a list. *)
Definition fuses_to_lists (s : Symmetry) : Prop :=
  no_parity_factor s = true /\ is_FermionParity s = false.

(** [P] relates each factor, its two sectors and its list of outcomes. *)
Inductive pools_rel (P : Symmetry -> PyVal -> PyVal -> list PyVal -> Prop)
  : list Symmetry -> list PyVal -> list PyVal -> list (list PyVal) -> Prop :=
| pools_nil : pools_rel P [] [] [] []
| pools_cons : forall f a b pool factors items_a items_b pools,
    P f a b pool -> pools_rel P factors items_a items_b pools ->
    pools_rel P (f :: factors) (a :: items_a) (b :: items_b) (pool :: pools).


(** A two-leg tensor whose legs are named, to tell them apart in a result,
    and a transposition of two-leg tensors that swaps legs and labels. *)
Definition named_two_legs : Tensor unit unit string :=
  Tensor_init tt tt ["row"; "col"]%string [Some "p"; Some "q"]%string.

Definition swap_two_legs (a : Tensor unit unit string) (perm : list Z)
  : result (Tensor unit unit string) :=
  match legs a, labels a with
  | [x; y], [lx; ly] => Ok (Tensor_init (data a) (backend a) [y; x] [ly; lx])
  | _, _ => Raise ValueError
  end.



(** ** Axes *)

(** All axes of a block of [ndim] dimensions, each once, in some order. *)
Definition axes_permutation (ndim : Z) (axes : list Z) : Prop :=
  Permutation axes (range1 ndim).

(** Every index of [idcs] is an axis of a block of [ndim] dimensions. *)
Definition in_range (ndim : Z) (idcs : list Z) : Prop :=
  Forall (fun i => 0 <= i < ndim) idcs.

(** The indented lines of [repr(a)], before [_block_repr_lines] cuts them. *)
Definition indented_lines {Block : Type} (repr_lines : Z -> Block -> list string)
    (a : Block) (indent : string) (max_width : Z) : list string :=
  map (fun line => (indent ++ line)%string)
      (repr_lines (max_width - Z.of_nat (py_str_len indent)) a).

(** ** Induction over symmetry objects, through the factors of a product *)

Section SymmetryInduction.
Variable P : Symmetry -> Prop.
Hypothesis P_leaf : forall s, is_ProductSymmetry s = false -> P s.
Hypothesis P_product :
  forall base factors, Forall P factors -> P (ProductSymmetry_obj base factors).

Fixpoint Symmetry_induction (s : Symmetry) : P s :=
  match s with
  | ProductSymmetry_obj base factors =>
      P_product base factors
        ((fix all_factors (l : list Symmetry) : Forall P l :=
            match l with
            | [] => Forall_nil P
            | f :: l' => Forall_cons f (Symmetry_induction f) (all_factors l')
            end) factors)
  | NoSymmetry_obj b => P_leaf (NoSymmetry_obj b) eq_refl
  | ZNSymmetry_obj b q n => P_leaf (ZNSymmetry_obj b q n) eq_refl
  | U1Symmetry_obj b q => P_leaf (U1Symmetry_obj b q) eq_refl
  | SU2Symmetry_obj b => P_leaf (SU2Symmetry_obj b) eq_refl
  | FermionParity_obj b => P_leaf (FermionParity_obj b) eq_refl
  end.
End SymmetryInduction.

(* ================================================================== *)
(** * Properties of the symmetry algebra *)

(** ** Equality of sectors *)

Lemma py_eq_refl : forall a, py_eq a a = true.
Proof.
  fix IH 1. intros [ | z | l | l]; simpl.
  - reflexivity.
  - apply Z.eqb_refl.
  - induction l as [ | x l IHl]; [reflexivity | ].
    rewrite (IH x). simpl. exact IHl.
  - induction l as [ | x l IHl]; [reflexivity | ].
    rewrite (IH x). simpl. exact IHl.
Qed.

Lemma py_eq_true : forall a b, py_eq a b = true -> a = b.
Proof.
  fix IH 1. intros [ | x | l | l] [ | y | m | m]; simpl; try discriminate.
  - reflexivity.
  - intros H. apply Z.eqb_eq in H. now subst.
  - revert m. induction l as [ | u l IHl]; intros [ | v m]; try discriminate.
    + reflexivity.
    + intros H. apply andb_prop in H. destruct H as [H1 H2].
      apply IH in H1. specialize (IHl m H2). injection IHl as ->. now subst.
  - revert m. induction l as [ | u l IHl]; intros [ | v m]; try discriminate.
    + reflexivity.
    + intros H. apply andb_prop in H. destruct H as [H1 H2].
      apply IH in H1. specialize (IHl m H2). injection IHl as ->. now subst.
Qed.

Lemma py_eq_sym : forall a b, py_eq a b = py_eq b a.
Proof.
  intros a b. destruct (py_eq a b) eqn:E.
  - apply py_eq_true in E. subst. symmetry. apply py_eq_refl.
  - destruct (py_eq b a) eqn:E'; [ | reflexivity].
    apply py_eq_true in E'. subst. rewrite py_eq_refl in E. discriminate.
Qed.

(** ** U(1): fusion and dual through [QmodGroup] with [qmod = 1] *)

(** C1. The claim has [fusion_outcomes(a, b) == [a + b]] and
    [dual_sector(a) == -a] for [U1Symmetry]. The class hands [qmod = 1] to
    [QmodGroup], whose methods reduce modulo [qmod]: every fusion gives
    [[0]] and every dual gives [0]. At [a = b = 1] the code returns [[0]]
    where the claim has [[2]], and [0] where the claim has [-1]. *)
Theorem U1Symmetry_fusion_and_dual_reduce_mod_1 :
  (forall (name : option string) (a b : Z),
      fusion_outcomes (U1Symmetry name) (VInt a) (VInt b) = Ok (VList [VInt 0])
      /\ dual_sector (U1Symmetry name) (VInt a) = Ok (VInt 0))
  /\ fusion_outcomes u1_symmetry (VInt 1) (VInt 1) <> Ok (VList [VInt (1 + 1)])
  /\ dual_sector u1_symmetry (VInt 1) <> Ok (VInt (- 1)).
Proof.
  split.
  - intros name a b. cbn.
    unfold QmodGroup_fusion_outcomes, QmodGroup_dual_sector. cbn.
    now rewrite !Z.mod_1_r.
  - split; discriminate.
Qed.

(** C2. The claim has [dual_sector] an involution on the valid sectors of
    every variant. For [U1Symmetry] the sector [1] is valid, its dual is
    [0], and the dual of [0] is [0]: the round trip does not come back to
    [1]. *)
Theorem U1Symmetry_dual_sector_not_involutive :
  valid u1_symmetry (VInt 1)
  /\ dual_sector u1_symmetry (VInt 1) = Ok (VInt 0)
  /\ dual_sector u1_symmetry (VInt 0) = Ok (VInt 0)
  /\ dual_twice u1_symmetry (VInt 1) = Ok (VInt 0)
  /\ dual_twice u1_symmetry (VInt 1) <> Ok (VInt 1).
Proof.
  repeat split; discriminate.
Qed.

(** ** Sector validity *)

(** The predicates of the classes other than [ProductSymmetry] answer on
    every value. *)
Lemma is_valid_sector_leaf_total :
  forall s a, is_ProductSymmetry s = false -> exists b, is_valid_sector s a = Ok b.
Proof.
  intros s a Hs. destruct s; try discriminate; cbn;
    unfold NoSymmetry_is_valid_sector, QmodGroup_is_valid_sector,
      SU2Symmetry_is_valid_sector, FermionParity_is_valid_sector;
    destruct a; eauto.
Qed.

(** C6. The claim has [is_valid_sector] return [False] on a plain integer
    handed to a [ProductSymmetry]. The source evaluates [len(a)] before its
    [try] block, so an integer (or [None]) raises TypeError there, whatever
    the factors are; for instance on the product of Z_2 and U(1). *)
Theorem ProductSymmetry_is_valid_sector_raises_on_unsized :
  (forall base factors z,
      is_valid_sector (ProductSymmetry_obj base factors) (VInt z) = Raise TypeError)
  /\ (forall base factors,
      is_valid_sector (ProductSymmetry_obj base factors) VNone = Raise TypeError)
  /\ (z2 <- z2_symmetry ;; p <- Symmetry_mul z2 u1_symmetry ;;
      is_valid_sector p (VInt 5)) = Raise TypeError.
Proof.
  repeat split.
Qed.

(** ** Fermion parity *)

(** C8. For sectors [a], [b] in {0, 1}, [FermionParity.fusion_outcomes]
    returns the bare integer 0 when [a == b] and 1 when [a != b]; the value
    returned is never a list of sectors. *)
Theorem FermionParity_fusion_outcomes_bare_int :
  forall a b : Z,
    (a = 0 \/ a = 1) -> (b = 0 \/ b = 1) ->
    valid FermionParity (VInt a)
    /\ valid FermionParity (VInt b)
    /\ (a = b -> fusion_outcomes FermionParity (VInt a) (VInt b) = Ok (VInt 0))
    /\ (a <> b -> fusion_outcomes FermionParity (VInt a) (VInt b) = Ok (VInt 1))
    /\ (forall l, fusion_outcomes FermionParity (VInt a) (VInt b) <> Ok (VList l)).
Proof.
  intros a b Ha Hb. repeat split.
  - destruct Ha; subst; reflexivity.
  - destruct Hb; subst; reflexivity.
  - intros ->. cbn. unfold FermionParity_fusion_outcomes. cbn.
    now rewrite Z.eqb_refl.
  - intros Hne. cbn. unfold FermionParity_fusion_outcomes. cbn.
    apply Z.eqb_neq in Hne. now rewrite Hne.
  - intros l. cbn. unfold FermionParity_fusion_outcomes. discriminate.
Qed.

Lemma FermionParity_fusion_outcomes_bare_int_witness :
  fusion_outcomes FermionParity (VInt 1) (VInt 0) = Ok (VInt 1).
Proof.
  apply (FermionParity_fusion_outcomes_bare_int 1 0); [right | left | ];
    [reflexivity | reflexivity | discriminate].
Defined.

(** ** Products of symmetries *)

Lemma max_from_spec {A : Type} (key : A -> Z) :
  forall l best,
    (max_from key best l = best \/ In (max_from key best l) l)
    /\ key best <= key (max_from key best l)
    /\ (forall x, In x l -> key x <= key (max_from key best l)).
Proof.
  induction l as [ | y l IH]; intros best; simpl.
  - repeat split; [now left | lia | contradiction].
  - destruct (IH (if key best <? key y then y else best)) as (Hin & Hge & Hall).
    destruct (Z.ltb_spec (key best) (key y)) as [Hlt | Hle].
    + repeat split.
      * destruct Hin as [-> | Hin]; right; [now left | now right].
      * lia.
      * intros x [-> | Hx]; [exact Hge | now apply Hall].
    + repeat split.
      * destruct Hin as [-> | Hin]; [now left | right; now right].
      * exact Hge.
      * intros x [-> | Hx]; [lia | now apply Hall].
Qed.

Lemma py_max_spec {A : Type} (key : A -> Z) :
  forall l m, py_max key l = Ok m -> is_max_of key m l.
Proof.
  intros [ | x l] m H; [discriminate | ].
  injection H as <-.
  destruct (max_from_spec key l x) as (Hin & Hge & Hall).
  split.
  - destruct Hin as [-> | Hin]; [now left | now right].
  - intros y [<- | Hy]; [exact Hge | now apply Hall].
Qed.

Lemma py_max_nonempty {A : Type} (key : A -> Z) :
  forall l, l <> [] -> exists m, py_max key l = Ok m.
Proof.
  intros [ | x l] H; [contradiction | ]. simpl. eauto.
Qed.

(** What [ProductSymmetry(factors)] returns when it returns. *)
Lemma ProductSymmetry_inv :
  forall factors p,
    ProductSymmetry factors = Ok p ->
    exists base,
      p = ProductSymmetry_obj base factors
      /\ py_max FusionStyle_value (map fusion_style factors) = Ok (attr_fusion_style base)
      /\ py_max BraidingStyle_value (map braiding_style factors)
         = Ok (attr_braiding_style base)
      /\ attr_trivial_sector base = VList (map trivial_sector factors).
Proof.
  intros factors p H. unfold ProductSymmetry in H.
  destruct (py_max FusionStyle_value (map fusion_style factors)) as [fs | e];
    [ | discriminate].
  destruct (py_max BraidingStyle_value (map braiding_style factors)) as [bs | e];
    [ | discriminate].
  cbn in H. injection H as <-. eexists. repeat split.
Qed.

Lemma ProductSymmetry_returns :
  forall factors, factors <> [] -> exists p, ProductSymmetry factors = Ok p.
Proof.
  intros [ | f factors] H; [contradiction | ].
  unfold ProductSymmetry. cbn. eauto.
Qed.

Lemma operand_factors_leaf :
  forall s, is_ProductSymmetry s = false -> operand_factors s = [s].
Proof.
  intros s H. destruct s; try reflexivity; discriminate.
Qed.

Lemma built_by_mul_flat :
  forall s, built_by_mul s -> flat s /\ operand_factors s <> [].
Proof.
  induction 1 as [s Hs | s1 s2 p _ [F1 N1] _ [F2 N2] Hp].
  - unfold flat. rewrite (operand_factors_leaf s Hs). split; [ | discriminate].
    constructor; [exact Hs | constructor].
  - destruct (ProductSymmetry_inv _ _ Hp) as (base & -> & _). cbn. split.
    + unfold flat. cbn. apply Forall_app. now split.
    + destruct (operand_factors s1); [contradiction | discriminate].
Qed.

Lemma Symmetry_mul_returns :
  forall s1 s2,
    operand_factors s1 <> [] ->
    exists base,
      Symmetry_mul s1 s2
      = Ok (ProductSymmetry_obj base (operand_factors s1 ++ operand_factors s2)).
Proof.
  intros s1 s2 Hne.
  assert (Hnil : operand_factors s1 ++ operand_factors s2 <> []).
  { destruct (operand_factors s1); [contradiction | discriminate]. }
  destruct (ProductSymmetry_returns _ Hnil) as [p Hp].
  destruct (ProductSymmetry_inv _ _ Hp) as (base & -> & _).
  exists base. exact Hp.
Qed.

Lemma ProductSymmetry_Ok_nonempty :
  forall factors p, ProductSymmetry factors = Ok p -> factors <> [].
Proof.
  intros factors p H ->. discriminate.
Qed.

Lemma ProductSymmetry_attrs :
  forall factors p,
    ProductSymmetry factors = Ok p ->
    factors_of p = Some factors
    /\ is_max_of FusionStyle_value (fusion_style p) (map fusion_style factors)
    /\ is_max_of BraidingStyle_value (braiding_style p) (map braiding_style factors)
    /\ trivial_sector p = VList (map trivial_sector factors).
Proof.
  intros factors p H.
  destruct (ProductSymmetry_inv _ _ H) as (base & -> & Hf & Hb & Ht).
  unfold fusion_style, braiding_style, trivial_sector at 1. cbn.
  repeat split; try exact Ht; eapply py_max_spec; eassumption.
Qed.

Lemma flat_product :
  forall base factors1 factors2 s1 s2,
    operand_factors s1 = factors1 -> operand_factors s2 = factors2 ->
    flat (ProductSymmetry_obj base (factors1 ++ factors2)) <-> flat s1 /\ flat s2.
Proof.
  intros base factors1 factors2 s1 s2 <- <-. unfold flat. cbn. apply Forall_app.
Qed.

Lemma constructed_operand_factors :
  forall s, constructed s -> operand_factors s <> [].
Proof.
  intros s H. destruct H as [ | N name s HZ | name | name | | factors p _ HP];
    try discriminate.
  - destruct (Z_lt_le_dec N 0) as [Hneg | Hpos].
    + unfold ZNSymmetry in HZ. destruct N as [ | n | n]; try lia. discriminate.
    + unfold ZNSymmetry in HZ.
      destruct (mapM subscript_map (chars (str_of_int N))); [ | discriminate].
      cbn in HZ. injection HZ as <-. discriminate.
  - destruct (ProductSymmetry_inv _ _ HP) as (base & -> & _).
    cbn. now apply (ProductSymmetry_Ok_nonempty factors _ HP).
Qed.

Lemma Symmetry_mul_assoc :
  forall s1 s2 s3 p12 p23,
    Symmetry_mul s1 s2 = Ok p12 -> Symmetry_mul s2 s3 = Ok p23 ->
    exists p,
      Symmetry_mul p12 s3 = Ok p
      /\ Symmetry_mul s1 p23 = Ok p
      /\ factors_of p
         = Some (operand_factors s1 ++ operand_factors s2 ++ operand_factors s3).
Proof.
  intros s1 s2 s3 p12 p23 H12 H23. unfold Symmetry_mul in H12, H23.
  pose proof (ProductSymmetry_Ok_nonempty _ _ H12) as N12.
  destruct (ProductSymmetry_inv _ _ H12) as (b12 & -> & _).
  destruct (ProductSymmetry_inv _ _ H23) as (b23 & -> & _).
  assert (N : (operand_factors s1 ++ operand_factors s2) ++ operand_factors s3 <> []).
  { destruct (operand_factors s1 ++ operand_factors s2); [contradiction | discriminate]. }
  destruct (ProductSymmetry_returns _ N) as [p Hp].
  exists p. unfold Symmetry_mul. cbn [operand_factors].
  split; [exact Hp | ]. split.
  - now rewrite app_assoc.
  - destruct (ProductSymmetry_inv _ _ Hp) as (b & -> & _). cbn.
    now rewrite app_assoc.
Qed.

(** C9, as the code has it. The constructor raises ValueError on an empty
    factor list and returns on every other one; the [ProductSymmetry] it
    returns keeps the factor list as it is, has the maximum (by value) of
    its factors' fusion styles and of their braiding styles, and the list
    of their trivial sectors as trivial sector. [s1 * s2] is what the
    constructor returns on the concatenation of what the two operands
    contribute (the factors of an operand that is a product, the operand
    itself otherwise), so it has the styles and the trivial sector of that
    list. The operator flattens its operands by one level only: no factor
    of the result is a [ProductSymmetry] exactly when neither operand
    contributes one. That is so for every symmetry obtained from objects of
    the other classes with [*] alone. Both ways of bracketing a triple
    product return the same object, with the three contributions
    concatenated, whether or not the operands are flat. *)
Theorem ProductSymmetry_styles_and_flat_mul :
  (forall factors,
      (factors = [] -> ProductSymmetry factors = Raise ValueError)
      /\ (factors <> [] -> exists p, ProductSymmetry factors = Ok p)
      /\ (forall p,
            ProductSymmetry factors = Ok p ->
            factors_of p = Some factors
            /\ is_max_of FusionStyle_value (fusion_style p) (map fusion_style factors)
            /\ is_max_of BraidingStyle_value (braiding_style p)
                 (map braiding_style factors)
            /\ trivial_sector p = VList (map trivial_sector factors)))
  /\ (forall s1 s2,
      Symmetry_mul s1 s2 = ProductSymmetry (operand_factors s1 ++ operand_factors s2)
      /\ (operand_factors s1 = [] -> operand_factors s2 = [] ->
          Symmetry_mul s1 s2 = Raise ValueError)
      /\ (operand_factors s1 <> [] \/ operand_factors s2 <> [] ->
          exists p,
            Symmetry_mul s1 s2 = Ok p
            /\ is_ProductSymmetry p = true
            /\ factors_of p = Some (operand_factors s1 ++ operand_factors s2)
            /\ is_max_of FusionStyle_value (fusion_style p)
                 (map fusion_style (operand_factors s1 ++ operand_factors s2))
            /\ is_max_of BraidingStyle_value (braiding_style p)
                 (map braiding_style (operand_factors s1 ++ operand_factors s2))
            /\ trivial_sector p
               = VList (map trivial_sector (operand_factors s1 ++ operand_factors s2))
            /\ (flat p <-> flat s1 /\ flat s2)))
  /\ (forall s, constructed s -> operand_factors s <> [])
  /\ (forall s, built_by_mul s -> flat s /\ operand_factors s <> [])
  /\ (forall s1 s2,
      built_by_mul s1 -> built_by_mul s2 ->
      exists p,
        Symmetry_mul s1 s2 = Ok p
        /\ is_ProductSymmetry p = true
        /\ factors_of p = Some (operand_factors s1 ++ operand_factors s2)
        /\ flat p)
  /\ (forall s1 s2 s3 p12 p23,
      Symmetry_mul s1 s2 = Ok p12 -> Symmetry_mul s2 s3 = Ok p23 ->
      exists p,
        Symmetry_mul p12 s3 = Ok p
        /\ Symmetry_mul s1 p23 = Ok p
        /\ factors_of p
           = Some (operand_factors s1 ++ operand_factors s2 ++ operand_factors s3))
  /\ (forall s1 s2 s3,
      built_by_mul s1 -> built_by_mul s2 -> built_by_mul s3 ->
      exists p12 p23 p,
        Symmetry_mul s1 s2 = Ok p12
        /\ Symmetry_mul s2 s3 = Ok p23
        /\ Symmetry_mul p12 s3 = Ok p
        /\ Symmetry_mul s1 p23 = Ok p
        /\ factors_of p
           = Some (operand_factors s1 ++ operand_factors s2 ++ operand_factors s3)).
Proof.
  split; [ | split; [ | split; [ | split; [ | split; [ | split]]]]].
  - intros factors. split; [now intros -> | ]. split.
    + apply ProductSymmetry_returns.
    + apply ProductSymmetry_attrs.
  - intros s1 s2. split; [reflexivity | ]. split.
    + intros E1 E2. unfold Symmetry_mul. now rewrite E1, E2.
    + intros Hne.
      assert (Hnil : operand_factors s1 ++ operand_factors s2 <> []).
      { intros E. apply app_eq_nil in E. destruct E as [E1 E2].
        destruct Hne; contradiction. }
      destruct (ProductSymmetry_returns _ Hnil) as [p Hp].
      exists p. split; [exact Hp | ].
      destruct (ProductSymmetry_attrs _ _ Hp) as (Hf & Hmf & Hmb & Ht).
      destruct (ProductSymmetry_inv _ _ Hp) as (base & -> & _).
      split; [reflexivity | ]. split; [exact Hf | ]. split; [exact Hmf | ].
      split; [exact Hmb | ]. split; [exact Ht | ].
      now apply flat_product.
  - exact constructed_operand_factors.
  - exact built_by_mul_flat.
  - intros s1 s2 B1 B2.
    destruct (built_by_mul_flat _ B1) as [F1 N1].
    destruct (built_by_mul_flat _ B2) as [F2 _].
    destruct (Symmetry_mul_returns s1 s2 N1) as [base Hp].
    eexists. split; [exact Hp | ]. repeat split.
    unfold flat. cbn. apply Forall_app. now split.
  - exact Symmetry_mul_assoc.
  - intros s1 s2 s3 B1 B2 B3.
    destruct (built_by_mul_flat _ B1) as [_ N1].
    destruct (built_by_mul_flat _ B2) as [_ N2].
    destruct (Symmetry_mul_returns s1 s2 N1) as [b12 H12].
    destruct (Symmetry_mul_returns s2 s3 N2) as [b23 H23].
    destruct (Symmetry_mul_assoc s1 s2 s3 _ _ H12 H23) as (p & Hl & Hr & Hf).
    do 3 eexists. split; [exact H12 | ]. split; [exact H23 | ].
    split; [exact Hl | ]. split; [exact Hr | exact Hf].
Qed.

Lemma ProductSymmetry_styles_and_flat_mul_witness :
  (exists p,
      ProductSymmetry [u1_symmetry; su2_symmetry; fermion_parity] = Ok p
      /\ is_max_of FusionStyle_value (fusion_style p)
           (map fusion_style [u1_symmetry; su2_symmetry; fermion_parity])
      /\ fusion_style p = multiple_unique
      /\ braiding_style p = fermionic
      /\ trivial_sector p = VList [VInt 0; VInt 0; VInt 0])
  /\ (exists p,
      Symmetry_mul u1_symmetry su2_symmetry = Ok p
      /\ is_ProductSymmetry p = true
      /\ factors_of p = Some (operand_factors u1_symmetry ++ operand_factors su2_symmetry)
      /\ flat p).
Proof.
  split.
  - eexists. split; [reflexivity | ]. split.
    + apply (proj2 (proj2 (proj1 ProductSymmetry_styles_and_flat_mul
                             [u1_symmetry; su2_symmetry; fermion_parity]))).
      reflexivity.
    + repeat split.
  - apply (proj1 (proj2 (proj2 (proj2 (proj2 ProductSymmetry_styles_and_flat_mul))))
             u1_symmetry su2_symmetry);
      apply built_leaf; reflexivity.
Defined.

(** C9, where the claim fails. The claim has [*] always return a flat
    [ProductSymmetry], never one with a [ProductSymmetry] among its
    factors. The constructor accepts a product inside a factor list, and
    [*] unpacks its operands by one level only:
    [ProductSymmetry([ProductSymmetry([u1_symmetry]), su2_symmetry]) * fermion_parity]
    returns a product whose first factor is the inner [ProductSymmetry]. *)
Lemma Symmetry_mul_keeps_nested_product :
  exists inner p q,
    inner_product = Ok inner
    /\ nested_product = Ok p
    /\ Symmetry_mul p fermion_parity = Ok q
    /\ nested_product_mul_parity = Ok q
    /\ factors_of q = Some [inner; su2_symmetry; fermion_parity]
    /\ is_ProductSymmetry inner = true
    /\ ~ flat q.
Proof.
  do 3 eexists. split; [reflexivity | ]. split; [reflexivity | ].
  split; [reflexivity | ]. split; [reflexivity | ]. split; [reflexivity | ].
  split; [reflexivity | ].
  intros F. unfold flat in F. cbn in F. inversion F as [ | ? ? H _]. discriminate.
Qed.

Example mul_is_flat_and_associative :
  (p12 <- Symmetry_mul u1_symmetry su2_symmetry ;; Symmetry_mul p12 fermion_parity)
  = (p23 <- Symmetry_mul su2_symmetry fermion_parity ;; Symmetry_mul u1_symmetry p23)
  /\ (p12 <- Symmetry_mul u1_symmetry su2_symmetry ;;
      p <- Symmetry_mul p12 fermion_parity ;; Ok (factors_of p))
     = Ok (Some [u1_symmetry; su2_symmetry; fermion_parity]).
Proof. split; reflexivity. Qed.

(** ** Valid sectors of a product *)

Lemma allM2_true_Forall2 {A B : Type} (p : A -> B -> result bool) :
  forall xs ys,
    List.length ys = List.length xs ->
    allM2 p xs ys = Ok true ->
    Forall2 (fun x y => p x y = Ok true) xs ys.
Proof.
  induction xs as [ | x xs IH]; intros [ | y ys] Hlen H; try discriminate.
  - constructor.
  - cbn in H. destruct (p x y) as [[ | ] | e] eqn:E; cbn in H; try discriminate.
    constructor; [exact E | ]. apply IH; [now injection Hlen | exact H].
Qed.

(** The methods of a product, unfolded once. *)
Lemma is_valid_sector_product :
  forall base factors a,
    is_valid_sector (ProductSymmetry_obj base factors) a
    = (n <- py_len a ;;
       if negb (n =? Z.of_nat (List.length factors)) then Ok false
       else match (items <- py_iter a ;; allM2 is_valid_sector factors items) with
            | Raise TypeError => Ok false
            | r => r
            end).
Proof. reflexivity. Qed.

Lemma fusion_outcomes_product :
  forall base factors a b,
    fusion_outcomes (ProductSymmetry_obj base factors) a b
    = (items_a <- py_iter a ;;
       items_b <- py_iter b ;;
       all_outcomes <- zipM3 fusion_outcomes factors items_a items_b ;;
       pools <- mapM py_iter all_outcomes ;;
       Ok (VList (map VList (product pools)))).
Proof. reflexivity. Qed.

Lemma dual_sector_product :
  forall base factors a,
    dual_sector (ProductSymmetry_obj base factors) a
    = (items <- py_iter a ;;
       duals <- zipM2 dual_sector factors items ;;
       Ok (VList duals)).
Proof. reflexivity. Qed.

Lemma sector_dim_product :
  forall base factors a,
    sector_dim (ProductSymmetry_obj base factors) a
    = (items <- py_iter a ;;
       dims <- zipM2 sector_dim factors items ;;
       Ok (math_prod dims)).
Proof. reflexivity. Qed.

(** [len(a)] and [iter(a)] go together: a list or a tuple has both, [None]
    and an integer have neither. *)
Lemma py_len_iter :
  forall a n,
    py_len a = Ok n ->
    exists items, py_iter a = Ok items /\ n = Z.of_nat (List.length items).
Proof.
  intros [ | z | items | items] n H; try discriminate;
    injection H as <-; exists items; split; reflexivity.
Qed.

Lemma py_iter_len :
  forall a items,
    py_iter a = Ok items -> py_len a = Ok (Z.of_nat (List.length items)).
Proof.
  intros [ | z | l | l] items H; try discriminate; now injection H as <-.
Qed.

Lemma py_iter_cases :
  forall a items, py_iter a = Ok items -> a = VList items \/ a = VTuple items.
Proof.
  intros [ | z | l | l] items H; try discriminate; injection H as <-; auto.
Qed.

(** A valid sector of a product is a list or a tuple that holds one valid
    sector per factor. *)
Lemma ProductSymmetry_valid_inv :
  forall base factors a,
    valid (ProductSymmetry_obj base factors) a ->
    exists items, py_iter a = Ok items /\ Forall2 valid factors items.
Proof.
  intros base factors a H. unfold valid in H.
  rewrite is_valid_sector_product in H.
  destruct (py_len a) as [n | e] eqn:Hn; [ | discriminate].
  destruct (py_len_iter a n Hn) as (items & Hi & ->).
  exists items. split; [exact Hi | ].
  rewrite Hi in H. cbn [bind] in H.
  destruct (Z.eqb_spec (Z.of_nat (List.length items)) (Z.of_nat (List.length factors)))
    as [Hlen | Hlen]; cbn [negb] in H; [ | discriminate].
  apply allM2_true_Forall2; [lia | ].
  destruct (allM2 is_valid_sector factors items) as [b | e]; [congruence | ].
  destruct e; discriminate.
Qed.

(** ** Fusion is commutative *)

Lemma leaf_fusion_outcomes_comm :
  forall s a b,
    is_ProductSymmetry s = false -> valid s a -> valid s b ->
    fusion_outcomes s a b = fusion_outcomes s b a.
Proof.
  intros s a b Hs Ha Hb. unfold valid in *.
  destruct s; try discriminate; cbn in *.
  - reflexivity.
  - destruct a, b; try discriminate. unfold QmodGroup_fusion_outcomes. cbn.
    now rewrite Z.add_comm.
  - destruct a, b; try discriminate. unfold QmodGroup_fusion_outcomes. cbn.
    now rewrite Z.add_comm.
  - destruct a as [ | x | | ], b as [ | y | | ]; try discriminate.
    unfold SU2Symmetry_fusion_outcomes. cbn.
    replace (y - x) with (- (x - y)) by lia. rewrite Z.abs_opp.
    now rewrite (Z.add_comm y x).
  - unfold FermionParity_fusion_outcomes. now rewrite (py_eq_sym a b).
Qed.

Lemma zipM3_fusion_outcomes_comm :
  forall factors,
    Forall (fun f => forall a b, valid f a -> valid f b ->
                                 fusion_outcomes f a b = fusion_outcomes f b a) factors ->
    forall items_a items_b,
      Forall2 valid factors items_a -> Forall2 valid factors items_b ->
      zipM3 fusion_outcomes factors items_a items_b
      = zipM3 fusion_outcomes factors items_b items_a.
Proof.
  induction 1 as [ | f factors Hf _ IH]; intros items_a items_b Ha Hb.
  - reflexivity.
  - inversion Ha as [ | ? x ? xs Hx Hxs]; subst.
    inversion Hb as [ | ? y ? ys Hy Hys]; subst.
    cbn. rewrite (Hf x y Hx Hy). now rewrite (IH xs ys Hxs Hys).
Qed.

Lemma fusion_outcomes_comm :
  forall s a b, valid s a -> valid s b -> fusion_outcomes s a b = fusion_outcomes s b a.
Proof.
  induction s as [s Hs | base factors IH] using Symmetry_induction; intros a b Ha Hb.
  - now apply leaf_fusion_outcomes_comm.
  - destruct (ProductSymmetry_valid_inv _ _ _ Ha) as (items_a & Ia & Fa).
    destruct (ProductSymmetry_valid_inv _ _ _ Hb) as (items_b & Ib & Fb).
    rewrite !fusion_outcomes_product, Ia, Ib. cbn [bind].
    now rewrite (zipM3_fusion_outcomes_comm factors IH items_a items_b Fa Fb).
Qed.

(** ** Fusion returns on valid sectors

    [FermionParity.fusion_outcomes] returns a bare integer, which a product
    cannot iterate over: a product with a [FermionParity] factor raises
    TypeError (in either order of the sectors). Without such a factor
    fusion of valid sectors returns. *)

Lemma leaf_fusion_outcomes_returns_list :
  forall s a b,
    is_ProductSymmetry s = false -> is_FermionParity s = false ->
    valid s a -> valid s b -> returns_list (fusion_outcomes s a b).
Proof.
  intros s a b Hs Hp Ha Hb. unfold valid, returns_list in *.
  destruct s; try discriminate; cbn in *.
  - eexists; reflexivity.
  - destruct a as [ | x | | ], b as [ | y | | ]; try discriminate.
    unfold QmodGroup_fusion_outcomes. cbn.
    destruct (Z.eqb_spec qmod 0) as [-> | Hq]; [cbn in Ha; injection Ha; lia | ].
    eexists; reflexivity.
  - destruct a as [ | x | | ], b as [ | y | | ]; try discriminate.
    unfold QmodGroup_fusion_outcomes. cbn.
    destruct (Z.eqb_spec qmod 0) as [-> | Hq]; [cbn in Ha; injection Ha; lia | ].
    eexists; reflexivity.
  - destruct a as [ | x | | ], b as [ | y | | ]; try discriminate.
    unfold SU2Symmetry_fusion_outcomes. cbn. eexists; reflexivity.
Qed.

Lemma zipM3_fusion_outcomes_returns_lists :
  forall factors,
    Forall (fun f => forall a b, no_parity_factor f = true -> is_FermionParity f = false ->
                                 valid f a -> valid f b ->
                                 returns_list (fusion_outcomes f a b)) factors ->
    forallb (fun f => negb (is_FermionParity f) && no_parity_factor f) factors = true ->
    forall items_a items_b,
      Forall2 valid factors items_a -> Forall2 valid factors items_b ->
      exists pools,
        (all_outcomes <- zipM3 fusion_outcomes factors items_a items_b ;;
         mapM py_iter all_outcomes) = Ok pools.
Proof.
  induction 1 as [ | f factors Hf _ IH]; intros Hall items_a items_b Ha Hb.
  - exists []. reflexivity.
  - inversion Ha as [ | ? x ? xs Hx Hxs]; subst.
    inversion Hb as [ | ? y ? ys Hy Hys]; subst.
    cbn in Hall. apply andb_prop in Hall. destruct Hall as [Hhead Hall].
    apply andb_prop in Hhead. destruct Hhead as [Hnp Hnf].
    apply negb_true_iff in Hnp.
    destruct (Hf x y Hnf Hnp Hx Hy) as [l Hl].
    destruct (IH Hall xs ys Hxs Hys) as [pools Hpools].
    cbn. rewrite Hl. cbn.
    destruct (zipM3 fusion_outcomes factors xs ys) as [outs | e]; [ | discriminate].
    cbn in *. rewrite Hpools. cbn. eauto.
Qed.

Lemma fusion_outcomes_returns_list :
  forall s a b,
    no_parity_factor s = true -> is_FermionParity s = false ->
    valid s a -> valid s b -> returns_list (fusion_outcomes s a b).
Proof.
  induction s as [s Hs | base factors IH] using Symmetry_induction;
    intros a b Hnf Hnp Ha Hb.
  - now apply leaf_fusion_outcomes_returns_list.
  - destruct (ProductSymmetry_valid_inv _ _ _ Ha) as (items_a & Ia & Fa).
    destruct (ProductSymmetry_valid_inv _ _ _ Hb) as (items_b & Ib & Fb).
    cbn in Hnf.
    destruct (zipM3_fusion_outcomes_returns_lists factors IH Hnf items_a items_b Fa Fb)
      as [pools Hpools].
    unfold returns_list. rewrite fusion_outcomes_product, Ia, Ib. cbn [bind].
    destruct (zipM3 fusion_outcomes factors items_a items_b) as [outs | e];
      [ | discriminate].
    cbn in *. rewrite Hpools. cbn. eauto.
Qed.

(** C10. For every symmetry object and all valid sectors [a], [b], the
    call [fusion_outcomes(a, b)] has the outcome of [fusion_outcomes(b, a)]:
    the same value, element for element. The call returns a value whenever
    no product has a [FermionParity] factor: a list, or for [FermionParity]
    itself its bare integer. *)
Theorem fusion_outcomes_commutative :
  forall s a b,
    valid s a -> valid s b ->
    fusion_outcomes s a b = fusion_outcomes s b a
    /\ (no_parity_factor s = true -> exists v, fusion_outcomes s a b = Ok v).
Proof.
  intros s a b Ha Hb. split.
  - now apply fusion_outcomes_comm.
  - intros Hnf. destruct (is_FermionParity s) eqn:Hp.
    + destruct s; try discriminate. cbn. unfold FermionParity_fusion_outcomes. eauto.
    + destruct (fusion_outcomes_returns_list s a b Hnf Hp Ha Hb) as [l Hl]. eauto.
Qed.

Lemma fusion_outcomes_commutative_witness :
  exists p,
    (z2 <- z2_symmetry ;; Symmetry_mul z2 su2_symmetry) = Ok p
    /\ fusion_outcomes p (VList [VInt 1; VInt 1]) (VList [VInt 1; VInt 2])
       = fusion_outcomes p (VList [VInt 1; VInt 2]) (VList [VInt 1; VInt 1]).
Proof.
  eexists. split; [reflexivity | ].
  apply fusion_outcomes_commutative; reflexivity.
Defined.

(** ** Where the dual is an involution

    [QmodGroup.dual_sector] reduces modulo [qmod]. With [qmod = 1] every
    integer is a valid sector and every dual is [0]; in a symmetry without
    such a group the dual of the dual of a valid sector is the sector, a
    sector of a product coming back as a list. *)

Lemma QmodGroup_dual_twice :
  forall qmod x,
    qmod <> 1 -> QmodGroup_is_valid_sector qmod (VInt x) = Ok true ->
    (d <- QmodGroup_dual_sector qmod (VInt x) ;; QmodGroup_dual_sector qmod d)
    = Ok (VInt x).
Proof.
  intros qmod x Hq Hv. cbn in Hv.
  apply Z.eqb_neq in Hq. rewrite Hq in Hv. cbn in Hv.
  assert (Hx : 0 <= x < qmod) by (injection Hv; lia).
  unfold QmodGroup_dual_sector. cbn.
  destruct (Z.eqb_spec qmod 0) as [-> | H0]; [lia | ]. cbn.
  destruct (Z.eqb_spec qmod 0) as [-> | _]; [lia | ].
  do 2 f_equal.
  destruct (Z.eq_dec x 0) as [-> | Hx0].
  - reflexivity.
  - rewrite (Z.mod_opp_l_nz x qmod), (Z.mod_small x qmod) by
      (try rewrite Z.mod_small; lia).
    replace (- (qmod - x)) with (x + (-1) * qmod) by lia.
    rewrite Z.mod_add by lia. apply Z.mod_small. lia.
Qed.

Lemma leaf_dual_twice :
  forall s a,
    is_ProductSymmetry s = false -> no_qmod_1 s = true -> valid s a ->
    dual_twice s a = Ok a /\ as_lists a = a.
Proof.
  intros s a Hs Hq Ha. unfold valid, dual_twice in *.
  destruct s; try discriminate; cbn in *.
  - destruct a; try discriminate. split; reflexivity.
  - destruct a as [ | x | | ]; try discriminate.
    split; [ | reflexivity].
    apply QmodGroup_dual_twice; [ | exact Ha].
    apply negb_true_iff in Hq. now apply Z.eqb_neq.
  - destruct a as [ | x | | ]; try discriminate.
    split; [ | reflexivity].
    apply QmodGroup_dual_twice; [ | exact Ha].
    apply negb_true_iff in Hq. now apply Z.eqb_neq.
  - destruct a as [ | x | | ]; try discriminate. split; reflexivity.
  - destruct a as [ | x | | ]; try discriminate. split; reflexivity.
Qed.

Lemma zipM2_dual_twice :
  forall factors,
    Forall (fun f => forall a, no_qmod_1 f = true -> valid f a ->
                               dual_twice f a = Ok (as_lists a)) factors ->
    forallb no_qmod_1 factors = true ->
    forall items,
      Forall2 valid factors items ->
      (duals <- zipM2 dual_sector factors items ;; zipM2 dual_sector factors duals)
      = Ok (map as_lists items).
Proof.
  induction 1 as [ | f factors Hf _ IH]; intros Hq items Hv.
  - inversion Hv; subst. reflexivity.
  - inversion Hv as [ | ? x ? xs Hx Hxs]; subst.
    cbn in Hq. apply andb_prop in Hq. destruct Hq as [Hq1 Hq2].
    specialize (Hf x Hq1 Hx). specialize (IH Hq2 xs Hxs).
    unfold dual_twice in Hf. cbn.
    destruct (dual_sector f x) as [d | e]; [ | discriminate]. cbn in *.
    destruct (zipM2 dual_sector factors xs) as [ds | e]; [ | discriminate].
    cbn in *. rewrite Hf. cbn. rewrite IH. reflexivity.
Qed.

(** The round trip gives the sector back, as lists: the sector itself when
    it holds no tuple. *)
Lemma dual_sector_involutive_without_qmod_1 :
  forall s a, no_qmod_1 s = true -> valid s a -> dual_twice s a = Ok (as_lists a).
Proof.
  induction s as [s Hs | base factors IH] using Symmetry_induction; intros a Hq Ha.
  - destruct (leaf_dual_twice s a Hs Hq Ha) as [H ->]. exact H.
  - destruct (ProductSymmetry_valid_inv _ _ _ Ha) as (items & Ia & Fv).
    cbn in Hq. pose proof (zipM2_dual_twice factors IH Hq items Fv) as H.
    unfold dual_twice. rewrite dual_sector_product, Ia. cbn [bind].
    destruct (zipM2 dual_sector factors items) as [ds | e]; [ | discriminate].
    cbn [bind] in *. rewrite dual_sector_product. cbn [py_iter bind].
    rewrite H. cbn [bind].
    destruct (py_iter_cases a items Ia) as [-> | ->]; reflexivity.
Qed.

Lemma as_lists_tuple_free :
  forall a, tuple_free a = true -> as_lists a = a.
Proof.
  fix IH 1. intros [ | z | l | l] H; try reflexivity; [ | discriminate].
  cbn in *. f_equal.
  induction l as [ | x l IHl]; [reflexivity | ].
  cbn in H. apply andb_prop in H. destruct H as [Hx Hl].
  cbn. now rewrite (IH x Hx), (IHl Hl).
Qed.

(** Python's [==] tells the list form from a sector that holds a tuple. *)
Lemma py_eq_as_lists_tuple :
  forall a, tuple_free a = false -> py_eq (as_lists a) a = false.
Proof.
  fix IH 1. intros [ | z | l | l] H; try discriminate; [ | reflexivity].
  cbn in *. induction l as [ | x l IHl]; [discriminate | ].
  cbn in H. cbn [map]. destruct (tuple_free x) eqn:Hx.
  - cbn in H. rewrite (IHl H). apply andb_false_r.
  - rewrite (IH x Hx). reflexivity.
Qed.

(* ================================================================== *)
(** * Properties of the matrix operations *)

(** ** Ranges and membership *)

Lemma py_in_true : forall n l, py_in n l = true <-> In n l.
Proof.
  intros n l. unfold py_in. rewrite existsb_exists. split.
  - intros (x & Hx & E). apply Z.eqb_eq in E. now subst.
  - intros H. exists n. split; [exact H | apply Z.eqb_refl].
Qed.

Lemma py_in_false : forall n l, py_in n l = false <-> ~ In n l.
Proof.
  intros n l. rewrite <- py_in_true. now destruct (py_in n l).
Qed.

Lemma range1_eq : forall n, range1 n = map Z.of_nat (seq 0 (Z.to_nat n)).
Proof.
  intros n. unfold range1, range3, range_len. cbn.
  replace ((n - 0 + 1 - 1) / 1) with n by (rewrite Z.div_1_r; lia).
  replace (Z.to_nat (Z.max 0 n)) with (Z.to_nat n) by lia.
  apply map_ext. intros i. lia.
Qed.

Lemma In_range1 : forall n k, In k (range1 n) <-> 0 <= k < n.
Proof.
  intros n k. rewrite range1_eq, in_map_iff. split.
  - intros (i & <- & Hi). apply in_seq in Hi. lia.
  - intros Hk. exists (Z.to_nat k). split; [lia | apply in_seq; lia].
Qed.

Lemma ascending_of_nat_seq :
  forall len start, ascending (map Z.of_nat (seq start len)).
Proof.
  induction len as [ | len IH]; intros start; cbn.
  - constructor.
  - constructor; [apply IH | ].
    apply Forall_forall. intros y Hy. apply in_map_iff in Hy.
    destruct Hy as (i & <- & Hi). apply in_seq in Hi. lia.
Qed.

Lemma ascending_range1 : forall n, ascending (range1 n).
Proof.
  intros n. rewrite range1_eq. apply ascending_of_nat_seq.
Qed.

Lemma ascending_filter : forall f l, ascending l -> ascending (filter f l).
Proof.
  intros f l H. induction H as [ | x l Hl IH Hx]; cbn.
  - constructor.
  - destruct (f x); [ | exact IH].
    constructor; [exact IH | ].
    apply Forall_forall. intros y Hy. apply filter_In in Hy.
    rewrite Forall_forall in Hx. now apply Hx.
Qed.

Lemma filter_nil_iff {A : Type} (f : A -> bool) :
  forall l, filter f l = [] <-> forall x, In x l -> f x = false.
Proof.
  induction l as [ | y l IH]; cbn.
  - split; [contradiction | reflexivity].
  - destruct (f y) eqn:E; split.
    + discriminate.
    + intros H. specialize (H y (or_introl eq_refl)). congruence.
    + intros H x [<- | Hx]; [exact E | now apply IH].
    + intros H. apply IH. intros x Hx. apply H. now right.
Qed.

(** ** [leg_bipartition] *)

Section LegBipartition.
Variables Data Backend Leg : Type.
Variable get_leg_idcs : Tensor Data Backend Leg -> list LegSel -> result (list Z).

Lemma remaining_legs_filter :
  forall (a : Tensor Data Backend Leg) idcs,
    remaining_legs a idcs
      (filter (fun n => negb (py_in n idcs)) (range1 (num_legs a))).
Proof.
  intros a idcs. split.
  - apply ascending_filter, ascending_range1.
  - intros n. rewrite filter_In, In_range1, negb_true_iff, py_in_false.
    reflexivity.
Qed.

Lemma both_explicit_raises_iff :
  forall a legs1 legs2 idcs1 idcs2,
    get_leg_idcs a legs1 = Ok idcs1 ->
    get_leg_idcs a legs2 = Ok idcs2 ->
    (raises (leg_bipartition get_leg_idcs a (Some legs1) (Some legs2))
     <-> (overlap idcs1 idcs2 \/ ~ covers a idcs1 idcs2))
    /\ (~ (overlap idcs1 idcs2 \/ ~ covers a idcs1 idcs2) ->
        leg_bipartition get_leg_idcs a (Some legs1) (Some legs2) = Ok (idcs1, idcs2)).
Proof.
  intros a legs1 legs2 idcs1 idcs2 H1 H2.
  unfold leg_bipartition. rewrite H1, H2. cbn.
  destruct (filter (fun l => py_in l idcs2) idcs1) as [ | n both] eqn:Eboth.
  - assert (Hno : ~ overlap idcs1 idcs2).
    { intros (n & Hn1 & Hn2).
      rewrite filter_nil_iff in Eboth. specialize (Eboth n Hn1).
      apply py_in_false in Eboth. contradiction. }
    destruct (filter (fun n => negb (py_in n idcs1) && negb (py_in n idcs2))
                     (range1 (num_legs a))) as [ | n missing] eqn:Emiss.
    + assert (Hcov : covers a idcs1 idcs2).
      { intros n Hn. rewrite filter_nil_iff in Emiss.
        specialize (Emiss n (proj2 (In_range1 _ _) Hn)).
        apply andb_false_iff in Emiss.
        destruct Emiss as [E | E]; apply negb_false_iff, py_in_true in E;
          [now left | now right]. }
      split.
      * split; [intros [e He]; discriminate | intros [H | H]; contradiction].
      * reflexivity.
    + assert (Hn : In n (filter (fun n => negb (py_in n idcs1) && negb (py_in n idcs2))
                                (range1 (num_legs a))))
        by (rewrite Emiss; now left).
      apply filter_In in Hn. destruct Hn as [Hr Hn].
      apply andb_prop in Hn. destruct Hn as [N1 N2].
      apply negb_true_iff, py_in_false in N1.
      apply negb_true_iff, py_in_false in N2.
      assert (Hncov : ~ covers a idcs1 idcs2).
      { intros Hcov. apply In_range1 in Hr. destruct (Hcov n Hr); contradiction. }
      split.
      * split; [intros _; now right | intros _; now exists ValueError].
      * intros Hnot. elim Hnot. now right.
  - assert (Hov : overlap idcs1 idcs2).
    { assert (Hn : In n (filter (fun l => py_in l idcs2) idcs1))
        by (rewrite Eboth; now left).
      apply filter_In in Hn. destruct Hn as [Hn1 Hn2].
      apply py_in_true in Hn2. now exists n. }
    split.
    + split; [intros _; now left | intros _; now exists ValueError].
    + intros Hnot. elim Hnot. now left.
Qed.

(** C7. With both groups [None], [leg_bipartition] returns [([0], [1])]
    on a tensor of exactly two legs and raises ValueError on any other
    number of legs. With exactly one group [None], that group is the legs
    that the explicit group does not contain, in ascending order. With
    both groups explicit (and resolved to indices), it raises exactly when
    the groups share a leg or do not together contain every leg, and
    returns the two groups otherwise. *)
Theorem leg_bipartition_cases :
  forall a : Tensor Data Backend Leg,
    (num_legs a = 2 -> leg_bipartition get_leg_idcs a None None = Ok ([0], [1]))
    /\ (num_legs a <> 2 -> leg_bipartition get_leg_idcs a None None = Raise ValueError)
    /\ (forall legs1 idcs1,
           get_leg_idcs a legs1 = Ok idcs1 ->
           exists idcs2,
             leg_bipartition get_leg_idcs a (Some legs1) None = Ok (idcs1, idcs2)
             /\ remaining_legs a idcs1 idcs2)
    /\ (forall legs2 idcs2,
           get_leg_idcs a legs2 = Ok idcs2 ->
           exists idcs1,
             leg_bipartition get_leg_idcs a None (Some legs2) = Ok (idcs1, idcs2)
             /\ remaining_legs a idcs2 idcs1)
    /\ (forall legs1 legs2 idcs1 idcs2,
           get_leg_idcs a legs1 = Ok idcs1 ->
           get_leg_idcs a legs2 = Ok idcs2 ->
           (raises (leg_bipartition get_leg_idcs a (Some legs1) (Some legs2))
            <-> (overlap idcs1 idcs2 \/ ~ covers a idcs1 idcs2))
           /\ (~ (overlap idcs1 idcs2 \/ ~ covers a idcs1 idcs2) ->
               leg_bipartition get_leg_idcs a (Some legs1) (Some legs2) = Ok (idcs1, idcs2))).
Proof.
  intros a. repeat apply conj.
  - intros H. unfold leg_bipartition. now rewrite H.
  - intros H. unfold leg_bipartition. apply Z.eqb_neq in H. now rewrite H.
  - intros legs1 idcs1 H. eexists. split.
    + unfold leg_bipartition. rewrite H. cbn. reflexivity.
    + apply remaining_legs_filter.
  - intros legs2 idcs2 H. eexists. split.
    + unfold leg_bipartition. rewrite H. cbn. reflexivity.
    + apply remaining_legs_filter.
  - apply both_explicit_raises_iff.
Qed.

End LegBipartition.

Example leg_bipartition_four_legs_one_given :
  leg_bipartition resolve_leg_idcs four_legs (Some [LegIdx 1]) None
  = Ok ([1], [0; 2; 3])
  /\ leg_bipartition resolve_leg_idcs four_legs None (Some [LegLabel "c"; LegIdx 0])
     = Ok ([1; 3], [2; 0]).
Proof. split; reflexivity. Qed.

Example leg_bipartition_explicit_groups :
  leg_bipartition resolve_leg_idcs four_legs (Some [LegIdx 0; LegIdx 1])
    (Some [LegIdx 1; LegIdx 2; LegIdx 3]) = Raise ValueError
  /\ leg_bipartition resolve_leg_idcs four_legs (Some [LegIdx 0; LegIdx 1])
       (Some [LegIdx 3]) = Raise ValueError
  /\ leg_bipartition resolve_leg_idcs four_legs (Some [LegIdx 2; LegIdx 1])
       (Some [LegIdx 3; LegIdx 0]) = Ok ([2; 1], [3; 0])
  /\ leg_bipartition resolve_leg_idcs four_legs None None = Raise ValueError
  /\ leg_bipartition resolve_leg_idcs two_legs None None = Ok ([0], [1]).
Proof. repeat split; reflexivity. Qed.

Lemma leg_bipartition_cases_witness :
  leg_bipartition resolve_leg_idcs two_legs None None = Ok ([0], [1])
  /\ (exists idcs2,
         leg_bipartition resolve_leg_idcs four_legs (Some [LegIdx 1]) None
         = Ok ([1], idcs2)
         /\ remaining_legs four_legs [1] idcs2)
  /\ (raises (leg_bipartition resolve_leg_idcs four_legs
                (Some [LegIdx 0; LegIdx 1]) (Some [LegIdx 1; LegIdx 2; LegIdx 3]))
      <-> (overlap [0; 1] [1; 2; 3] \/ ~ covers four_legs [0; 1] [1; 2; 3])).
Proof.
  split; [ | split].
  - apply (leg_bipartition_cases unit unit unit resolve_leg_idcs two_legs).
    reflexivity.
  - apply (leg_bipartition_cases unit unit unit resolve_leg_idcs four_legs).
    reflexivity.
  - destruct (leg_bipartition_cases unit unit unit resolve_leg_idcs four_legs)
      as (_ & _ & _ & _ & Hboth).
    apply (Hboth [LegIdx 0; LegIdx 1] [LegIdx 1; LegIdx 2; LegIdx 3]); reflexivity.
Defined.

(** ** [svd], [exp] and [log] *)

Section Decompositions.
Variables Data Backend Leg Scalar : Type.
Variable get_leg_idcs : Tensor Data Backend Leg -> list LegSel -> result (list Z).
Variable combine_legs :
  Tensor Data Backend Leg -> list Z -> GlobalRef -> list Z
  -> result (Tensor Data Backend Leg).
Variable transpose :
  Tensor Data Backend Leg -> list Z -> result (Tensor Data Backend Leg).
Variable split_leg :
  Tensor Data Backend Leg -> Z -> result (Tensor Data Backend Leg).
Variable is_dual_of : Leg -> Leg -> bool.
Variable leg_dual : Leg -> Leg.
Variable backend_svd :
  Backend -> Tensor Data Backend Leg -> bool -> result (Data * Data * Data * Leg).
Variable backend_exp backend_log :
  Backend -> Tensor Data Backend Leg -> list Z -> list Z -> result Data.
Variable math_exp math_log : Scalar -> result Scalar.

(** The name [v_idcs] is bound nowhere in the module. *)
Lemma load_global_v_idcs : load_global "v_idcs" = Raise NameError.
Proof. reflexivity. Qed.

(** A call of [leg_bipartition] with two positional arguments raises
    before the body runs. *)
Lemma call_leg_bipartition_two_args :
  forall x y : Arg Data Backend Leg,
    call_leg_bipartition get_leg_idcs [x; y] = Raise TypeError.
Proof. reflexivity. Qed.

(** C3. The claim has [exp] and [log] check the duality of the two leg
    groups and return a tensor with the legs and labels of [t]. Both
    functions call [leg_bipartition(legs1, legs2)] without the tensor:
    the call lacks a positional argument and raises TypeError, so for
    every [Tensor] and every leg selection neither function reaches its
    checks, the backend, or a result. *)
Theorem exp_log_raise_TypeError_on_every_Tensor :
  forall (t : Tensor Data Backend Leg) (legs1 legs2 : option (list LegSel)),
    exp get_leg_idcs is_dual_of backend_exp math_exp (IsTensor t) legs1 legs2
    = Raise TypeError
    /\ log get_leg_idcs is_dual_of backend_log math_log (IsTensor t) legs1 legs2
       = Raise TypeError.
Proof.
  intros t legs1 legs2. split; reflexivity.
Qed.

(** C4. The claim has [svd] merge the legs of a group of more than one
    leg, call the backend and split the legs again. On that path the
    source passes the name [v_idcs] (the local is [vh_idcs]) to
    [combine_legs]; the name is unbound, so whenever a resolved group has
    not exactly one leg the call raises NameError and returns no
    [U], [S], [Vh]. *)
Theorem svd_raises_NameError_when_combining :
  forall (a : Tensor Data Backend Leg) (u_legs vh_legs : option (list LegSel))
         (new_labels : option (list string)) (new_vh_leg_dual : bool)
         (u_idcs vh_idcs : list Z)
         (ls : option string * option string * option string * option string),
    leg_bipartition get_leg_idcs a u_legs vh_legs = Ok (u_idcs, vh_idcs) ->
    _svd_new_labels new_labels = Ok ls ->
    (List.length u_idcs <> 1%nat \/ List.length vh_idcs <> 1%nat) ->
    svd (Scalar := Scalar) get_leg_idcs combine_legs transpose split_leg leg_dual
        backend_svd (IsTensor a) u_legs vh_legs new_labels new_vh_leg_dual
    = Raise NameError.
Proof.
  intros a u_legs vh_legs new_labels new_vh_leg_dual u_idcs vh_idcs ls Hb Hl Hn.
  unfold svd, call_leg_bipartition. cbn. rewrite Hb. cbn. rewrite Hl.
  destruct ls as [[[l_u l_su] l_sv] l_vh]. cbn.
  assert (Hneed : negb (Z.of_nat (List.length u_idcs) =? 1)
                  || negb (Z.of_nat (List.length vh_idcs) =? 1) = true).
  { apply orb_true_iff. destruct Hn as [Hn | Hn]; [left | right];
      apply negb_true_iff, Z.eqb_neq; lia. }
  rewrite Hneed. reflexivity.
Qed.

End Decompositions.

Lemma svd_raises_NameError_when_combining_witness :
  svd (Scalar := unit) resolve_leg_idcs
      (fun a _ _ _ => Ok a) (fun a _ => Ok a) (fun a _ => Ok a) (fun l => l)
      (fun _ _ _ => Ok (tt, tt, tt, tt))
      (IsTensor three_legs) (Some [LegIdx 0]) None (Some ["l"; "r"]%string) false
  = Raise NameError.
Proof.
  apply (svd_raises_NameError_when_combining unit unit unit unit resolve_leg_idcs
           (fun a _ _ _ => Ok a) (fun a _ => Ok a) (fun a _ => Ok a) (fun l => l)
           (fun _ _ _ => Ok (tt, tt, tt, tt))
           three_legs (Some [LegIdx 0]) None (Some ["l"; "r"]%string) false
           [0] [1; 2] (Some "l", Some "r", Some "l", Some "r")%string).
  - reflexivity.
  - reflexivity.
  - right. cbn. lia.
Defined.

Example exp_on_dual_two_leg_tensor :
  leg_bipartition resolve_leg_idcs two_legs None None = Ok ([0], [1])
  /\ exp (Scalar := unit) resolve_leg_idcs (fun _ _ => true)
         (fun _ _ _ _ => Ok tt) (fun x => Ok x) (IsTensor two_legs) None None
     = Raise TypeError.
Proof. split; reflexivity. Qed.

(* ================================================================== *)
(** * Further properties of the symmetry algebra *)

(** ** When [is_valid_sector] raises *)

Lemma allM2_is_valid_sector_Ok_or_TypeError :
  forall factors,
    Forall (fun f => forall a, (exists b, is_valid_sector f a = Ok b)
                               \/ is_valid_sector f a = Raise TypeError) factors ->
    forall items,
      (exists b, allM2 is_valid_sector factors items = Ok b)
      \/ allM2 is_valid_sector factors items = Raise TypeError.
Proof.
  induction 1 as [ | f factors Hf _ IH]; intros items.
  - left. exists true. reflexivity.
  - destruct items as [ | x items]; [left; exists true; reflexivity | ].
    cbn. destruct (Hf x) as [[[ | ] Hb] | He].
    + rewrite Hb. cbn. apply IH.
    + rewrite Hb. cbn. left. eauto.
    + rewrite He. now right.
Qed.

Lemma py_len_raises_TypeError :
  forall a, raises (py_len a) -> py_len a = Raise TypeError.
Proof.
  intros [ | z | l | l] [e He]; try discriminate; reflexivity.
Qed.

Lemma is_valid_sector_Ok_or_TypeError :
  forall s a,
    (exists b, is_valid_sector s a = Ok b) \/ is_valid_sector s a = Raise TypeError.
Proof.
  induction s as [s Hs | base factors IH] using Symmetry_induction; intros a.
  - left. now apply is_valid_sector_leaf_total.
  - rewrite is_valid_sector_product.
    destruct (py_len a) as [n | e] eqn:Hn.
    + destruct (py_len_iter a n Hn) as (items & Hi & ->).
      left. rewrite Hi. cbn [bind].
      destruct (negb (Z.of_nat (List.length items) =? Z.of_nat (List.length factors)));
        [eauto | ].
      destruct (allM2_is_valid_sector_Ok_or_TypeError factors IH items) as [[b Hb] | He].
      * rewrite Hb. eauto.
      * rewrite He. eauto.
    + right.
      assert (He : py_len a = Raise TypeError).
      { apply py_len_raises_TypeError. rewrite Hn. now exists e. }
      rewrite Hn in He. injection He as ->. reflexivity.
Qed.

Lemma is_valid_sector_product_sized :
  forall base factors a n,
    py_len a = Ok n ->
    exists b, is_valid_sector (ProductSymmetry_obj base factors) a = Ok b.
Proof.
  intros base factors a n Hn.
  destruct (is_valid_sector_Ok_or_TypeError (ProductSymmetry_obj base factors) a)
    as [Hb | He]; [exact Hb | ].
  exfalso. rewrite is_valid_sector_product, Hn in He.
  destruct (py_len_iter a n Hn) as (items & Hi & ->).
  rewrite Hi in He. cbn [bind] in He.
  destruct (negb (Z.of_nat (List.length items) =? Z.of_nat (List.length factors)));
    [discriminate | ].
  destruct (allM2 is_valid_sector factors items) as [b | [ ]]; discriminate.
Qed.

(** X1. [is_valid_sector] raises in exactly one situation: [self] is a
    [ProductSymmetry] and [len(a)] raises, which of the values considered
    here [None] and the integers do; the exception is then the TypeError of
    [len]. In every other case it returns a boolean: a list or a tuple of
    any length and content gets an answer from every symmetry, because the
    [try] block of a product catches what its factors raise. *)
Theorem is_valid_sector_raises_iff :
  forall s a,
    (raises (is_valid_sector s a)
     <-> (is_ProductSymmetry s = true /\ raises (py_len a)))
    /\ (raises (is_valid_sector s a) -> is_valid_sector s a = Raise TypeError)
    /\ (raises (py_len a) <-> (a = VNone \/ exists z, a = VInt z))
    /\ (forall items,
          (exists b, is_valid_sector s (VList items) = Ok b)
          /\ (exists b, is_valid_sector s (VTuple items) = Ok b)).
Proof.
  intros s a. split; [ | split; [ | split]].
  - split.
    + intros [e He]. destruct s as [ | base factors | | | | ];
        try (match type of He with
             | is_valid_sector ?s0 a = _ =>
                 destruct (is_valid_sector_leaf_total s0 a eq_refl) as [b Hb]; congruence
             end).
      split; [reflexivity | ].
      destruct (py_len a) as [n | e'] eqn:Hn; [ | now exists e'].
      destruct (is_valid_sector_product_sized base factors a n Hn) as [b Hb].
      congruence.
    + intros [Hs Hl]. destruct s as [ | base factors | | | | ]; try discriminate.
      exists TypeError. rewrite is_valid_sector_product.
      now rewrite (py_len_raises_TypeError a Hl).
  - intros [e He].
    destruct (is_valid_sector_Ok_or_TypeError s a) as [[b Hb] | H]; [congruence | exact H].
  - split.
    + intros [e He]. destruct a as [ | z | l | l]; try discriminate; eauto.
    + intros [-> | [z ->]]; now exists TypeError.
  - intros items.
    destruct s as [ | base factors | | | | ];
      try (split; apply is_valid_sector_leaf_total; reflexivity).
    split; eapply is_valid_sector_product_sized; reflexivity.
Qed.

(** ** The valid sectors of a product *)

Lemma Forall2_valid_allM2 :
  forall factors items,
    Forall2 valid factors items ->
    allM2 is_valid_sector factors items = Ok true.
Proof.
  induction 1 as [ | f x factors items Hx _ IH]; [reflexivity | ].
  cbn. unfold valid in Hx. rewrite Hx. cbn. exact IH.
Qed.

Lemma ProductSymmetry_valid_of_iter :
  forall base factors a items,
    py_iter a = Ok items ->
    Forall2 valid factors items ->
    valid (ProductSymmetry_obj base factors) a.
Proof.
  intros base factors a items Hi F. unfold valid.
  rewrite is_valid_sector_product, (py_iter_len a items Hi), Hi. cbn [bind].
  rewrite (Forall2_length F), Z.eqb_refl. cbn [negb].
  now rewrite (Forall2_valid_allM2 _ _ F).
Qed.

Lemma ProductSymmetry_valid_of_items :
  forall base factors items,
    Forall2 valid factors items ->
    valid (ProductSymmetry_obj base factors) (VList items).
Proof.
  intros base factors items F.
  now apply (ProductSymmetry_valid_of_iter base factors (VList items) items).
Qed.


(** ** Duals of valid sectors *)

Lemma leaf_dual_sector_valid :
  forall s a,
    is_ProductSymmetry s = false -> valid s a ->
    exists d, dual_sector s a = Ok d /\ valid s d.
Proof.
  intros s a Hs Ha. unfold valid in *.
  assert (Hq : forall qmod x,
             QmodGroup_is_valid_sector qmod (VInt x) = Ok true ->
             exists d, QmodGroup_dual_sector qmod (VInt x) = Ok d
                       /\ QmodGroup_is_valid_sector qmod d = Ok true).
  { intros qmod x Hv. cbn in Hv. unfold QmodGroup_dual_sector. cbn.
    destruct (Z.eqb_spec qmod 0) as [-> | H0]; [cbn in Hv; injection Hv; lia | ].
    eexists. split; [reflexivity | ]. cbn. f_equal.
    destruct (Z.eqb_spec qmod 1) as [-> | H1]; [reflexivity | ].
    cbn in Hv. assert (0 < qmod) by (injection Hv; lia).
    pose proof (Z.mod_pos_bound (- x) qmod). lia. }
  destruct s; try discriminate; cbn in *.
  - exists VNone. split; reflexivity.
  - destruct a as [ | x | | ]; try discriminate. now apply Hq.
  - destruct a as [ | x | | ]; try discriminate. now apply Hq.
  - exists a. split; [reflexivity | exact Ha].
  - exists a. split; [reflexivity | exact Ha].
Qed.

Lemma zipM2_dual_sector_valid :
  forall factors,
    Forall (fun f => forall a, valid f a ->
                               exists d, dual_sector f a = Ok d /\ valid f d) factors ->
    forall items,
      Forall2 valid factors items ->
      exists duals,
        zipM2 dual_sector factors items = Ok duals /\ Forall2 valid factors duals.
Proof.
  induction 1 as [ | f factors Hf _ IH]; intros items Hv.
  - inversion Hv; subst. exists []. split; [reflexivity | constructor].
  - inversion Hv as [ | ? x ? xs Hx Hxs]; subst.
    destruct (Hf x Hx) as (d & Hd & Vd).
    destruct (IH xs Hxs) as (ds & Hds & Vds).
    exists (d :: ds). split; [cbn; rewrite Hd; cbn; now rewrite Hds | now constructor].
Qed.

Lemma dual_sector_closed :
  forall s a, valid s a -> exists d, dual_sector s a = Ok d /\ valid s d.
Proof.
  induction s as [s Hs | base factors IH] using Symmetry_induction; intros a Ha.
  - now apply leaf_dual_sector_valid.
  - destruct (ProductSymmetry_valid_inv _ _ _ Ha) as (items & Ia & Fv).
    destruct (zipM2_dual_sector_valid factors IH items Fv) as (ds & Hds & Vds).
    exists (VList ds). split.
    + rewrite dual_sector_product, Ia. cbn [bind]. now rewrite Hds.
    + now apply ProductSymmetry_valid_of_items.
Qed.

(** X3. The dual of a valid sector is returned and is a valid sector of
    the same symmetry, for every symmetry object; the dual of a valid
    sector of a product, be it a list or a tuple, is the list of the
    factors' duals. *)
Theorem dual_sector_valid :
  forall s a,
    valid s a ->
    exists d,
      dual_sector s a = Ok d /\ valid s d
      /\ (forall base factors items,
             s = ProductSymmetry_obj base factors -> py_iter a = Ok items ->
             exists duals,
               d = VList duals /\ zipM2 dual_sector factors items = Ok duals).
Proof.
  intros s a Ha. destruct (dual_sector_closed s a Ha) as (d & Hd & Vd).
  exists d. split; [exact Hd | ]. split; [exact Vd | ].
  intros base factors items -> Hi. rewrite dual_sector_product, Hi in Hd.
  cbn [bind] in Hd.
  destruct (zipM2 dual_sector factors items) as [duals | e]; [ | discriminate].
  cbn in Hd. injection Hd as <-. eauto.
Qed.

Lemma dual_sector_valid_witness :
  exists p d,
    Symmetry_mul su2_symmetry fermion_parity = Ok p
    /\ dual_sector p (VList [VInt 3; VInt 1]) = Ok d /\ valid p d.
Proof.
  eexists.
  destruct (dual_sector_valid
              (ProductSymmetry_obj
                 (Symmetry_init multiple_unique fermionic (VList [VInt 0; VInt 0])
                    "SU(2) ⨉ FermionParity" None)
                 [su2_symmetry; fermion_parity])
              (VList [VInt 3; VInt 1]) eq_refl) as (d & Hd & Vd & _).
  exists d. split; [reflexivity | ]. split; assumption.
Defined.

Lemma is_valid_sector_raises_iff_witness :
  is_valid_sector
    (ProductSymmetry_obj (Symmetry_init single bosonic (VList [VInt 0]) "U(1)" None)
       [u1_symmetry]) VNone = Raise TypeError
  /\ exists b,
      is_valid_sector
        (ProductSymmetry_obj (Symmetry_init single bosonic (VList [VInt 0]) "U(1)" None)
           [u1_symmetry]) (VTuple [VInt 0; VInt 7]) = Ok b.
Proof.
  split.
  - apply (is_valid_sector_raises_iff
             (ProductSymmetry_obj (Symmetry_init single bosonic (VList [VInt 0]) "U(1)" None)
                [u1_symmetry]) VNone).
    exists TypeError. reflexivity.
  - apply (is_valid_sector_raises_iff
             (ProductSymmetry_obj (Symmetry_init single bosonic (VList [VInt 0]) "U(1)" None)
                [u1_symmetry]) VNone).
Defined.


(** ** Dimensions *)

Lemma fold_left_mul_acc :
  forall dims acc, fold_left Z.mul dims acc = acc * fold_left Z.mul dims 1.
Proof.
  induction dims as [ | x dims IH]; intros acc.
  - cbn [fold_left]. lia.
  - cbn [fold_left]. rewrite (IH (acc * x)), (IH (1 * x)). lia.
Qed.

Lemma math_prod_cons : forall d dims, math_prod (d :: dims) = d * math_prod dims.
Proof.
  intros d dims. unfold math_prod. cbn [fold_left].
  rewrite fold_left_mul_acc. lia.
Qed.

Lemma math_prod_fold_right :
  forall dims, math_prod dims = fold_right Z.mul 1 dims.
Proof.
  induction dims as [ | d dims IH]; [reflexivity | ].
  rewrite math_prod_cons, IH. reflexivity.
Qed.

Lemma zipM2_sector_dim_positive :
  forall factors,
    Forall (fun f => forall a, valid f a ->
                               exists d, sector_dim f a = Ok d /\ 1 <= d) factors ->
    forall items,
      Forall2 valid factors items ->
      exists dims,
        zipM2 sector_dim factors items = Ok dims
        /\ factor_dims factors items dims
        /\ 1 <= math_prod dims.
Proof.
  induction 1 as [ | f factors Hf _ IH]; intros items Hv.
  - inversion Hv; subst. exists []. split; [reflexivity | ].
    split; [constructor | cbn; lia].
  - inversion Hv as [ | ? x ? xs Hx Hxs]; subst.
    destruct (Hf x Hx) as (d & Hd & Pd).
    destruct (IH xs Hxs) as (ds & Hds & Fds & Pds).
    exists (d :: ds). split; [cbn; rewrite Hd; cbn; now rewrite Hds | ].
    split; [now constructor | ].
    rewrite math_prod_cons. nia.
Qed.

Lemma sector_dim_valid :
  forall s a, valid s a -> exists d, sector_dim s a = Ok d /\ 1 <= d.
Proof.
  induction s as [s Hs | base factors IH] using Symmetry_induction; intros a Ha.
  - unfold valid in Ha. destruct s; try discriminate; cbn in *;
      try (exists 1; split; [reflexivity | lia]).
    destruct a as [ | x | | ]; try discriminate.
    exists (x + 1). split; [reflexivity | ]. injection Ha. lia.
  - destruct (ProductSymmetry_valid_inv _ _ _ Ha) as (items & Ia & Fv).
    destruct (zipM2_sector_dim_positive factors IH items Fv) as (dims & Hd & _ & Pd).
    exists (math_prod dims). split; [ | exact Pd].
    rewrite sector_dim_product, Ia. cbn [bind]. now rewrite Hd.
Qed.

(** X4. On a valid sector [sector_dim] returns, for every symmetry object,
    and what it returns is: 1 for [NoSymmetry], [ZNSymmetry], [U1Symmetry]
    and [FermionParity]; [a + 1] for the sector [a] of [SU2Symmetry]; for a
    product the product of the dimensions its factors return on the items
    of the sector. The dimension is at least 1 in every case. *)
Theorem sector_dim_positive :
  forall s a,
    valid s a ->
    exists d,
      sector_dim s a = Ok d
      /\ 1 <= d
      /\ (is_ProductSymmetry s = false -> is_SU2Symmetry s = false -> d = 1)
      /\ (is_SU2Symmetry s = true -> exists x, a = VInt x /\ 0 <= x /\ d = x + 1)
      /\ (forall base factors,
             s = ProductSymmetry_obj base factors ->
             exists items dims,
               py_iter a = Ok items
               /\ factor_dims factors items dims
               /\ d = fold_right Z.mul 1 dims).
Proof.
  intros s a Ha. destruct (sector_dim_valid s a Ha) as (d & Hd & Pd).
  exists d. split; [exact Hd | ]. split; [exact Pd | ]. split; [ | split].
  - intros Hs Hsu. destruct s; try discriminate; cbn in Hd;
      unfold NoSymmetry_sector_dim, AbelianGroup_sector_dim,
        FermionParity_sector_dim in Hd; congruence.
  - intros Hsu. destruct s; try discriminate. unfold valid in Ha. cbn in Ha, Hd.
    destruct a as [ | x | | ]; try discriminate.
    cbn in Hd. injection Hd as <-.
    exists x. split; [reflexivity | ]. split; [injection Ha; lia | reflexivity].
  - intros base factors ->.
    destruct (ProductSymmetry_valid_inv _ _ _ Ha) as (items & Ia & Fv).
    assert (IH : Forall (fun f => forall a, valid f a ->
                                   exists d, sector_dim f a = Ok d /\ 1 <= d) factors).
    { apply Forall_forall. intros f _. apply sector_dim_valid. }
    destruct (zipM2_sector_dim_positive factors IH items Fv) as (dims & Hz & Fd & _).
    exists items, dims. split; [exact Ia | ]. split; [exact Fd | ].
    rewrite sector_dim_product, Ia in Hd. cbn [bind] in Hd. rewrite Hz in Hd.
    cbn [bind] in Hd. rewrite <- math_prod_fold_right. congruence.
Qed.

Lemma sector_dim_positive_witness :
  exists d,
    sector_dim
      (ProductSymmetry_obj
         (Symmetry_init multiple_unique bosonic (VList [VInt 0; VInt 0])
            "SU(2) ⨉ SU(2)" None) [su2_symmetry; su2_symmetry])
      (VTuple [VInt 3; VInt 2]) = Ok d /\ d = 12.
Proof.
  destruct (sector_dim_positive
              (ProductSymmetry_obj
                 (Symmetry_init multiple_unique bosonic (VList [VInt 0; VInt 0])
                    "SU(2) ⨉ SU(2)" None) [su2_symmetry; su2_symmetry])
              (VTuple [VInt 3; VInt 2]) eq_refl) as (d & Hd & _).
  exists d. split; [exact Hd | ]. cbn in Hd. now injection Hd as <-.
Defined.

(** ** The constructor of Z_N *)

Lemma string_of_uint_digits :
  forall d, exists subs, mapM subscript_map (chars (NilEmpty.string_of_uint d)) = Ok subs.
Proof.
  induction d as [ | d [subs IH] | d [subs IH] | d [subs IH] | d [subs IH]
                 | d [subs IH] | d [subs IH] | d [subs IH] | d [subs IH]
                 | d [subs IH] | d [subs IH]]; cbn;
    try (exists []; reflexivity); rewrite IH; cbn; eauto.
Qed.

Lemma str_of_int_nonneg_digits :
  forall N, 0 <= N -> exists subs, mapM subscript_map (chars (str_of_int N)) = Ok subs.
Proof.
  intros N HN. unfold str_of_int.
  destruct N as [ | p | p]; [cbn; eauto | | lia].
  cbn. unfold NilZero.string_of_uint.
  destruct (Pos.to_uint p) eqn:E; try apply string_of_uint_digits.
  cbn. eauto.
Qed.

Lemma ZNSymmetry_negative :
  forall N name, N < 0 -> ZNSymmetry N name = Raise KeyError.
Proof.
  intros N name HN. destruct N as [ | p | p]; try lia. reflexivity.
Qed.

Lemma ZNSymmetry_nonnegative :
  forall N name,
    0 <= N ->
    exists group_name,
      ZNSymmetry N name
      = Ok (ZNSymmetry_obj (Symmetry_init single bosonic (VInt 0) group_name name) N N).
Proof.
  intros N name HN. destruct (str_of_int_nonneg_digits N HN) as [subs Hs].
  unfold ZNSymmetry. rewrite Hs. cbn. eauto.
Qed.

(** X5. [ZNSymmetry(N)] returns for every [N >= 0] and raises KeyError for
    every negative [N] (the minus sign of [str(N)] is no key of the
    subscript map). The object returned has [qmod = N], trivial sector 0,
    single fusion and bosonic braiding, and keeps the descriptive name. *)
Theorem ZNSymmetry_returns_iff_nonnegative :
  forall N name,
    (N < 0 -> ZNSymmetry N name = Raise KeyError)
    /\ (0 <= N ->
        exists group_name,
          ZNSymmetry N name
          = Ok (ZNSymmetry_obj (Symmetry_init single bosonic (VInt 0) group_name name)
                  N N)).
Proof.
  intros N name. split.
  - now apply ZNSymmetry_negative.
  - now apply ZNSymmetry_nonnegative.
Qed.

Lemma ZNSymmetry_returns_iff_nonnegative_witness :
  ZNSymmetry (-3) None = Raise KeyError
  /\ exists group_name,
      ZNSymmetry 12 (Some "parity"%string)
      = Ok (ZNSymmetry_obj
              (Symmetry_init single bosonic (VInt 0) group_name (Some "parity"%string))
              12 12).
Proof.
  split.
  - apply (ZNSymmetry_returns_iff_nonnegative (-3) None). lia.
  - apply (ZNSymmetry_returns_iff_nonnegative 12 (Some "parity"%string)). lia.
Defined.

(** ** A scheme for properties of the fusion outcomes

    To show that fusion of valid sectors returns a list with a property
    [P], for the symmetries that satisfy a side condition [C] passed on to
    the factors of a product: show it for the classes other than
    [ProductSymmetry], and for the combinations of pools that have it. *)

Section FusionScheme.
Variable C : Symmetry -> Prop.
Variable P : Symmetry -> PyVal -> PyVal -> list PyVal -> Prop.

Hypothesis C_factors :
  forall base factors, C (ProductSymmetry_obj base factors) -> Forall C factors.
Hypothesis P_leaf :
  forall s a b,
    is_ProductSymmetry s = false -> C s -> valid s a -> valid s b ->
    exists l, fusion_outcomes s a b = Ok (VList l) /\ P s a b l.
Hypothesis P_product :
  forall base factors a b items_a items_b pools,
    C (ProductSymmetry_obj base factors) ->
    py_iter a = Ok items_a -> py_iter b = Ok items_b ->
    Forall2 valid factors items_a -> Forall2 valid factors items_b ->
    pools_rel P factors items_a items_b pools ->
    P (ProductSymmetry_obj base factors) a b (map VList (product pools)).

Lemma fusion_pools :
  forall factors,
    Forall (fun f => forall a b, C f -> valid f a -> valid f b ->
                                 exists l, fusion_outcomes f a b = Ok (VList l)
                                           /\ P f a b l) factors ->
    Forall C factors ->
    forall items_a items_b,
      Forall2 valid factors items_a -> Forall2 valid factors items_b ->
      exists pools,
        (all_outcomes <- zipM3 fusion_outcomes factors items_a items_b ;;
         mapM py_iter all_outcomes) = Ok pools
        /\ pools_rel P factors items_a items_b pools.
Proof.
  induction 1 as [ | f factors Hf _ IH]; intros HC items_a items_b Ha Hb.
  - inversion Ha; inversion Hb; subst. exists []. split; [reflexivity | constructor].
  - inversion Ha as [ | ? x ? xs Hx Hxs]; subst.
    inversion Hb as [ | ? y ? ys Hy Hys]; subst.
    inversion HC as [ | ? ? Cf Cfs]; subst.
    destruct (Hf x y Cf Hx Hy) as (l & Hl & Pl).
    destruct (IH Cfs xs ys Hxs Hys) as (pools & Hpools & Rpools).
    exists (l :: pools). split; [ | now constructor].
    cbn. rewrite Hl. cbn.
    destruct (zipM3 fusion_outcomes factors xs ys) as [outs | e]; [ | discriminate].
    cbn in *. now rewrite Hpools.
Qed.

Lemma fusion_scheme :
  forall s a b,
    C s -> valid s a -> valid s b ->
    exists l, fusion_outcomes s a b = Ok (VList l) /\ P s a b l.
Proof.
  induction s as [s Hs | base factors IH] using Symmetry_induction;
    intros a b HC Ha Hb.
  - now apply P_leaf.
  - destruct (ProductSymmetry_valid_inv _ _ _ Ha) as (items_a & Ia & Fa).
    destruct (ProductSymmetry_valid_inv _ _ _ Hb) as (items_b & Ib & Fb).
    destruct (fusion_pools factors IH (C_factors _ _ HC) items_a items_b Fa Fb)
      as (pools & Hpools & Rpools).
    exists (map VList (product pools)). split.
    + rewrite fusion_outcomes_product, Ia, Ib. cbn [bind].
      destruct (zipM3 fusion_outcomes factors items_a items_b) as [outs | e];
        [ | discriminate].
      cbn in *. now rewrite Hpools.
    + now apply (P_product base factors a b items_a items_b).
Qed.
End FusionScheme.

Lemma fuses_to_lists_factors :
  forall base factors,
    fuses_to_lists (ProductSymmetry_obj base factors) -> Forall fuses_to_lists factors.
Proof.
  intros base factors [H _]. cbn in H. rewrite forallb_forall in H.
  apply Forall_forall. intros f Hf. specialize (H f Hf).
  apply andb_prop in H. destruct H as [H1 H2]. apply negb_true_iff in H1.
  now split.
Qed.

(** ** Combinations of pools *)

Lemma In_product {A : Type} :
  forall (pools : list (list A)) c,
    In c (product pools) <-> Forall2 (fun x pool => In x pool) c pools.
Proof.
  induction pools as [ | p pools IH]; intros c; cbn.
  - split.
    + intros [<- | [ ]]. constructor.
    + intros H. inversion H. now left.
  - rewrite in_flat_map. split.
    + intros (x & Hx & Hc). apply in_map_iff in Hc. destruct Hc as (c' & <- & Hc').
      constructor; [exact Hx | now apply IH].
    + intros H. inversion H as [ | x ? c' ? Hx Hc']; subst.
      exists x. split; [exact Hx | ]. apply in_map_iff. exists c'.
      split; [reflexivity | now apply IH].
Qed.

Lemma NoDup_map_injective {A B : Type} (f : A -> B) :
  (forall x y, f x = f y -> x = y) ->
  forall l, NoDup l -> NoDup (map f l).
Proof.
  intros Hinj l H. induction H as [ | x l Hx _ IH]; cbn; constructor; [ | exact IH].
  intros Hin. apply in_map_iff in Hin. destruct Hin as (y & Hy & Hin).
  apply Hinj in Hy. now subst.
Qed.

Lemma NoDup_product {A : Type} :
  forall pools : list (list A), Forall (@NoDup A) pools -> NoDup (product pools).
Proof.
  induction 1 as [ | p pools Hp _ IH]; cbn.
  - constructor; [intros [ ] | constructor].
  - induction Hp as [ | x p Hx _ IHp]; cbn; [constructor | ].
    apply NoDup_app.
    + apply NoDup_map_injective; [ | exact IH]. intros c c' E. now injection E.
    + exact IHp.
    + intros c Hc Hc'. apply in_map_iff in Hc. destruct Hc as (c0 & <- & _).
      apply in_flat_map in Hc'. destruct Hc' as (y & Hy & Hc').
      apply in_map_iff in Hc'. destruct Hc' as (c1 & E & _).
      injection E as -> _. contradiction.
Qed.

(** ** Ranges with a positive step *)

Lemma range3_pos_length :
  forall start stop step,
    0 < step ->
    range_len start stop step = Z.max 0 ((stop - start + step - 1) / step).
Proof.
  intros start stop step H. unfold range_len.
  destruct (Z.ltb_spec 0 step); [reflexivity | lia].
Qed.

Lemma In_range3_pos :
  forall start stop step k,
    0 < step ->
    In k (range3 start stop step)
    <-> (start <= k < stop /\ (k - start) mod step = 0).
Proof.
  intros start stop step k Hstep. unfold range3.
  rewrite range3_pos_length by exact Hstep.
  set (q := (stop - start + step - 1) / step).
  assert (Hq1 : step * q <= stop - start + step - 1)
    by (apply Z.mul_div_le; lia).
  assert (Hq2 : stop - start + step - 1 < step * (q + 1)).
  { pose proof (Z.mod_pos_bound (stop - start + step - 1) step Hstep).
    pose proof (Z.div_mod (stop - start + step - 1) step). subst q. lia. }
  rewrite in_map_iff. split.
  - intros (i & <- & Hi). apply in_seq in Hi.
    assert (Z.of_nat i < q) by lia.
    split; [nia | ].
    replace (start + Z.of_nat i * step - start) with (Z.of_nat i * step) by lia.
    apply Z.mod_mul. lia.
  - intros [Hk Hm].
    apply Z.mod_divide in Hm; [ | lia]. destruct Hm as [i Hi].
    assert (0 <= i) by nia.
    assert (i < q) by nia.
    exists (Z.to_nat i). split; [lia | ]. apply in_seq. lia.
Qed.

Lemma ascending_range3_pos :
  forall start stop step, 0 < step -> ascending (range3 start stop step).
Proof.
  intros start stop step Hstep. unfold range3.
  generalize (Z.to_nat (range_len start stop step)) as n.
  generalize 0%nat as s.
  intros s n. revert s. induction n as [ | n IH]; intros s; cbn.
  - constructor.
  - constructor; [apply IH | ].
    apply Forall_forall. intros y Hy. apply in_map_iff in Hy.
    destruct Hy as (i & <- & Hi). apply in_seq in Hi. nia.
Qed.

Lemma ascending_NoDup : forall l, ascending l -> NoDup l.
Proof.
  induction 1 as [ | x l _ IH Hx]; constructor; [ | exact IH].
  intros Hin. rewrite Forall_forall in Hx. specialize (Hx x Hin). lia.
Qed.

(** ** What the constructors store *)

Lemma constructed_inv :
  forall s,
    constructed s ->
    match s with
    | NoSymmetry_obj base =>
        attr_trivial_sector base = VNone /\ attr_fusion_style base = single
    | ProductSymmetry_obj base factors =>
        Forall constructed factors
        /\ attr_trivial_sector base = VList (map trivial_sector factors)
        /\ is_max_of FusionStyle_value (attr_fusion_style base) (map fusion_style factors)
    | ZNSymmetry_obj base qmod N =>
        attr_trivial_sector base = VInt 0 /\ attr_fusion_style base = single
        /\ qmod = N /\ 0 <= N
    | U1Symmetry_obj base qmod =>
        attr_trivial_sector base = VInt 0 /\ attr_fusion_style base = single
        /\ qmod = 1
    | SU2Symmetry_obj base =>
        attr_trivial_sector base = VInt 0 /\ attr_fusion_style base = multiple_unique
    | FermionParity_obj base =>
        attr_trivial_sector base = VInt 0 /\ attr_fusion_style base = single
    end.
Proof.
  intros s H. inversion H as [ | N name s' HZ | name | name | | factors p HF HP]; subst.
  - now split.
  - destruct (Z_lt_le_dec N 0) as [Hneg | Hpos].
    + rewrite (ZNSymmetry_negative N name Hneg) in HZ. discriminate.
    + destruct (ZNSymmetry_nonnegative N name Hpos) as [g Hg].
      rewrite Hg in HZ. injection HZ as <-. cbn. repeat split. exact Hpos.
  - cbn. repeat split.
  - cbn. repeat split.
  - cbn. repeat split.
  - destruct (ProductSymmetry_inv _ _ HP) as (base & -> & Hf & _ & Ht).
    split; [exact HF | ]. split; [exact Ht | ]. now apply py_max_spec.
Qed.

(** ** Fusion of valid sectors returns valid sectors, each once *)

Lemma leaf_fusion_outcomes_valid_NoDup :
  forall s a b,
    is_ProductSymmetry s = false -> fuses_to_lists s -> valid s a -> valid s b ->
    exists l, fusion_outcomes s a b = Ok (VList l) /\ (Forall (valid s) l /\ NoDup l).
Proof.
  intros s a b Hs [_ Hp] Ha Hb. unfold valid in *.
  assert (Hq : forall qmod x y,
             QmodGroup_is_valid_sector qmod (VInt x) = Ok true ->
             exists l, QmodGroup_fusion_outcomes qmod (VInt x) (VInt y) = Ok (VList l)
                       /\ (Forall (fun c => QmodGroup_is_valid_sector qmod c = Ok true) l
                           /\ NoDup l)).
  { intros qmod x y Hv. cbn in Hv. unfold QmodGroup_fusion_outcomes. cbn.
    destruct (Z.eqb_spec qmod 0) as [-> | H0]; [cbn in Hv; injection Hv; lia | ].
    eexists. split; [reflexivity | ]. split.
    - constructor; [ | constructor]. cbn. f_equal.
      destruct (Z.eqb_spec qmod 1) as [-> | H1]; [reflexivity | ].
      cbn in Hv. assert (0 < qmod) by (injection Hv; lia).
      pose proof (Z.mod_pos_bound (x + y) qmod). lia.
    - constructor; [intros [ ] | constructor]. }
  destruct s; try discriminate; cbn in *.
  - eexists. split; [reflexivity | ]. split.
    + constructor; [reflexivity | constructor].
    + constructor; [intros [ ] | constructor].
  - destruct a as [ | x | | ], b as [ | y | | ]; try discriminate. now apply Hq.
  - destruct a as [ | x | | ], b as [ | y | | ]; try discriminate. now apply Hq.
  - destruct a as [ | x | | ], b as [ | y | | ]; try discriminate.
    unfold SU2Symmetry_fusion_outcomes. cbn.
    eexists. split; [reflexivity | ]. split.
    + apply Forall_forall. intros c Hc. apply in_map_iff in Hc.
      destruct Hc as (k & <- & Hk). apply In_range3_pos in Hk; [ | lia].
      cbn. f_equal. lia.
    + apply NoDup_map_injective; [intros u v E; now injection E | ].
      apply ascending_NoDup, ascending_range3_pos. lia.
Qed.

Lemma pools_rel_Forall2 :
  forall (P : Symmetry -> PyVal -> PyVal -> list PyVal -> Prop)
         (Q : Symmetry -> list PyVal -> Prop),
    (forall f a b l, P f a b l -> Q f l) ->
    forall factors items_a items_b pools,
      pools_rel P factors items_a items_b pools -> Forall2 Q factors pools.
Proof.
  intros P Q HPQ factors items_a items_b pools H.
  induction H; constructor; eauto.
Qed.

Lemma Forall2_valid_of_pools :
  forall factors pools,
    Forall2 (fun f pool => Forall (valid f) pool) factors pools ->
    forall c, Forall2 (fun x pool => In x pool) c pools -> Forall2 valid factors c.
Proof.
  induction 1 as [ | f pool factors pools Hf _ IH]; intros c Hc.
  - inversion Hc. constructor.
  - inversion Hc as [ | x ? c' ? Hx Hc']; subst.
    constructor; [ | now apply IH].
    rewrite Forall_forall in Hf. now apply Hf.
Qed.

Lemma VList_injective : forall l m, VList l = VList m -> l = m.
Proof. intros l m E. now injection E. Qed.

(** X6. For every symmetry whose fusion returns lists (no [FermionParity]
    involved) and all valid sectors [a], [b], [fusion_outcomes(a, b)]
    returns a list of valid sectors of that symmetry in which no sector
    occurs twice. *)
Theorem fusion_outcomes_valid_and_distinct :
  forall s a b,
    fuses_to_lists s -> valid s a -> valid s b ->
    exists l,
      fusion_outcomes s a b = Ok (VList l) /\ (Forall (valid s) l /\ NoDup l).
Proof.
  apply (fusion_scheme fuses_to_lists
           (fun s _ _ l => Forall (valid s) l /\ NoDup l)).
  - exact fuses_to_lists_factors.
  - exact leaf_fusion_outcomes_valid_NoDup.
  - intros base factors a b items_a items_b pools _ _ _ _ _ R. split.
    + apply Forall_forall. intros c Hc. apply in_map_iff in Hc.
      destruct Hc as (cs & <- & Hcs). apply In_product in Hcs.
      apply ProductSymmetry_valid_of_items.
      apply (Forall2_valid_of_pools factors pools); [ | exact Hcs].
      apply (pools_rel_Forall2 _ _ (fun f a b l H => proj1 H) _ _ _ _ R).
    + apply NoDup_map_injective; [exact VList_injective | ].
      apply NoDup_product.
      pose proof (pools_rel_Forall2 _ (fun _ l => NoDup l)
                    (fun f a b l H => proj2 H) _ _ _ _ R) as F.
      clear R. induction F; constructor; assumption.
Qed.

Lemma fusion_outcomes_valid_and_distinct_witness :
  exists l,
    fusion_outcomes
      (ProductSymmetry_obj
         (Symmetry_init multiple_unique bosonic (VList [VInt 0; VInt 0])
            "SU(2) ⨉ U(1)" None) [su2_symmetry; u1_symmetry])
      (VList [VInt 1; VInt 4]) (VList [VInt 2; VInt (-1)]) = Ok (VList l)
    /\ (Forall (valid (ProductSymmetry_obj
                         (Symmetry_init multiple_unique bosonic (VList [VInt 0; VInt 0])
                            "SU(2) ⨉ U(1)" None) [su2_symmetry; u1_symmetry])) l
        /\ NoDup l).
Proof.
  apply fusion_outcomes_valid_and_distinct; [split | | ]; reflexivity.
Defined.

(** ** The triangle rule of SU(2) *)

(** X7. For sectors [a, b >= 0] of SU(2), [fusion_outcomes(a, b)] is the
    ascending list of the integers [c] with [|a - b| <= c <= a + b] and
    [a + b - c] even. *)
Theorem SU2Symmetry_fusion_triangle_rule :
  forall name a b,
    0 <= a -> 0 <= b ->
    exists l,
      fusion_outcomes (SU2Symmetry name) (VInt a) (VInt b) = Ok (VList (map VInt l))
      /\ ascending l
      /\ forall c, In c l <-> (Z.abs (a - b) <= c <= a + b /\ (a + b - c) mod 2 = 0).
Proof.
  intros name a b Ha Hb.
  exists (range3 (Z.abs (a - b)) (a + b + 2) 2). split; [reflexivity | ]. split.
  - apply ascending_range3_pos. lia.
  - intros c. rewrite In_range3_pos by lia.
    destruct (Z.abs_spec (a - b)) as [[Hs ->] | [Hs ->]].
    + split.
      * intros [Hc Hm]. apply Z.mod_divide in Hm; [ | lia]. destruct Hm as [k Hk].
        split; [lia | ]. apply Z.mod_divide; [lia | ]. exists (b - k). lia.
      * intros [Hc Hm]. apply Z.mod_divide in Hm; [ | lia]. destruct Hm as [k Hk].
        split; [lia | ]. apply Z.mod_divide; [lia | ]. exists (b - k). lia.
    + split.
      * intros [Hc Hm]. apply Z.mod_divide in Hm; [ | lia]. destruct Hm as [k Hk].
        split; [lia | ]. apply Z.mod_divide; [lia | ]. exists (a - k). lia.
      * intros [Hc Hm]. apply Z.mod_divide in Hm; [ | lia]. destruct Hm as [k Hk].
        split; [lia | ]. apply Z.mod_divide; [lia | ]. exists (a - k). lia.
Qed.

Lemma SU2Symmetry_fusion_triangle_rule_witness :
  exists l,
    fusion_outcomes (SU2Symmetry None) (VInt 2) (VInt 2) = Ok (VList (map VInt l))
    /\ ascending l
    /\ forall c, In c l <-> (Z.abs (2 - 2) <= c <= 2 + 2 /\ (2 + 2 - c) mod 2 = 0).
Proof.
  apply (SU2Symmetry_fusion_triangle_rule None 2 2); lia.
Defined.

(** ** Fusion conserves the dimension *)

Lemma total_dim_app :
  forall s l1 l2 t1 t2,
    total_dim s l1 = Ok t1 -> total_dim s l2 = Ok t2 ->
    total_dim s (l1 ++ l2) = Ok (t1 + t2).
Proof.
  intros s l1. induction l1 as [ | c l1 IH]; intros l2 t1 t2 H1 H2; cbn in *.
  - injection H1 as <-. exact H2.
  - destruct (sector_dim s c) as [d | e]; [ | discriminate]. cbn in *.
    destruct (total_dim s l1) as [t | e]; [ | discriminate]. cbn in *.
    injection H1 as <-. rewrite (IH l2 t t2 eq_refl H2). cbn. f_equal. lia.
Qed.

Lemma total_dim_SU2_arithmetic :
  forall base lo n start,
    total_dim (SU2Symmetry_obj base)
      (map VInt (map (fun i => lo + Z.of_nat i * 2) (seq start n)))
    = Ok (Z.of_nat n * (lo + 1 + 2 * Z.of_nat start) + Z.of_nat n * (Z.of_nat n - 1)).
Proof.
  intros base lo n. induction n as [ | n IH]; intros start.
  - reflexivity.
  - cbn [seq map total_dim sector_dim SU2Symmetry_sector_dim]. cbn [bind].
    rewrite (IH (S start)). cbn [bind]. f_equal. nia.
Qed.

Lemma leaf_fusion_outcomes_total_dim :
  forall s a b,
    is_ProductSymmetry s = false -> fuses_to_lists s -> valid s a -> valid s b ->
    exists l,
      fusion_outcomes s a b = Ok (VList l)
      /\ exists da db,
          sector_dim s a = Ok da /\ sector_dim s b = Ok db
          /\ total_dim s l = Ok (da * db).
Proof.
  intros s a b Hs [_ Hp] Ha Hb. unfold valid in *.
  assert (Hq : forall qmod x y,
             QmodGroup_is_valid_sector qmod (VInt x) = Ok true ->
             exists r, QmodGroup_fusion_outcomes qmod (VInt x) (VInt y)
                       = Ok (VList [VInt r])).
  { intros qmod x y Hv. cbn in Hv. unfold QmodGroup_fusion_outcomes. cbn.
    destruct (Z.eqb_spec qmod 0) as [-> | H0]; [cbn in Hv; injection Hv; lia | ].
    eexists. reflexivity. }
  destruct s; try discriminate;
    cbn [fusion_outcomes sector_dim is_valid_sector is_FermionParity] in *.
  - eexists. split; [reflexivity | ]. exists 1, 1. repeat split.
  - destruct a as [ | x | | ], b as [ | y | | ]; try discriminate.
    destruct (Hq qmod x y Ha) as [r Hr].
    exists [VInt r]. split; [exact Hr | ]. exists 1, 1. repeat split.
  - destruct a as [ | x | | ], b as [ | y | | ]; try discriminate.
    destruct (Hq qmod x y Ha) as [r Hr].
    exists [VInt r]. split; [exact Hr | ]. exists 1, 1. repeat split.
  - destruct a as [ | x | | ], b as [ | y | | ]; try discriminate.
    cbn in Ha, Hb.
    unfold SU2Symmetry_fusion_outcomes. cbn.
    eexists. split; [reflexivity | ]. exists (x + 1), (y + 1).
    split; [reflexivity | ]. split; [reflexivity | ].
    assert (Hx : 0 <= x) by (injection Ha; lia).
    assert (Hy : 0 <= y) by (injection Hb; lia).
    unfold range3. rewrite total_dim_SU2_arithmetic.
    rewrite range3_pos_length by lia. f_equal.
    destruct (Z.abs_spec (x - y)) as [[Hs' ->] | [Hs' ->]].
    + replace ((x + y + 2 - (x - y) + 2 - 1) / 2) with (y + 1)
        by (apply Z.div_unique with (r := 1); lia).
      rewrite Z2Nat.id by lia. cbn. nia.
    + replace ((x + y + 2 - - (x - y) + 2 - 1) / 2) with (x + 1)
        by (apply Z.div_unique with (r := 1); lia).
      rewrite Z2Nat.id by lia. cbn. nia.
Qed.

Lemma total_dim_cons_combinations :
  forall base base' f factors x dx cs t,
    sector_dim f x = Ok dx ->
    total_dim (ProductSymmetry_obj base' factors) (map VList cs) = Ok t ->
    total_dim (ProductSymmetry_obj base (f :: factors))
      (map VList (map (cons x) cs)) = Ok (dx * t).
Proof.
  intros base base' f factors x dx cs. induction cs as [ | c cs IH]; intros t Hx Ht.
  - cbn in *. injection Ht as <-. f_equal. lia.
  - cbn in Ht. cbn [map total_dim sector_dim py_iter bind zipM2].
    rewrite Hx. cbn [bind].
    destruct (zipM2 sector_dim factors c) as [dims | e]; [ | discriminate].
    cbn [bind] in *.
    destruct (total_dim (ProductSymmetry_obj base' factors) (map VList cs))
      as [t' | e]; [ | discriminate].
    cbn [bind] in Ht. injection Ht as <-.
    rewrite (IH t' Hx eq_refl). cbn [bind]. rewrite math_prod_cons. f_equal. lia.
Qed.

Lemma total_dim_flat_map_combinations :
  forall base base' f factors pool rest tp tr,
    total_dim f pool = Ok tp ->
    total_dim (ProductSymmetry_obj base' factors) (map VList rest) = Ok tr ->
    total_dim (ProductSymmetry_obj base (f :: factors))
      (map VList (flat_map (fun x => map (cons x) rest) pool)) = Ok (tp * tr).
Proof.
  intros base base' f factors pool rest.
  induction pool as [ | x pool IH]; intros tp tr Hp Hr.
  - cbn in *. injection Hp as <-. reflexivity.
  - cbn in Hp.
    destruct (sector_dim f x) as [dx | e] eqn:Hx; [ | discriminate]. cbn in Hp.
    destruct (total_dim f pool) as [tp' | e]; [ | discriminate]. cbn in Hp.
    injection Hp as <-.
    cbn [flat_map]. rewrite map_app.
    rewrite (total_dim_app _ _ _ (dx * tr) (tp' * tr)).
    + f_equal. lia.
    + now apply total_dim_cons_combinations with (base' := base').
    + now apply IH.
Qed.

Lemma product_total_dim :
  forall base factors items_a items_b pools,
    pools_rel (fun f a b l =>
                 exists da db,
                   sector_dim f a = Ok da /\ sector_dim f b = Ok db
                   /\ total_dim f l = Ok (da * db))
      factors items_a items_b pools ->
    exists das dbs,
      zipM2 sector_dim factors items_a = Ok das
      /\ zipM2 sector_dim factors items_b = Ok dbs
      /\ total_dim (ProductSymmetry_obj base factors) (map VList (product pools))
         = Ok (math_prod das * math_prod dbs).
Proof.
  intros base factors items_a items_b pools R.
  induction R as [ | f a b pool factors items_a items_b pools
                     (da & db & Hda & Hdb & Ht) _ (das & dbs & Has & Hbs & IH)].
  - exists [], []. repeat split.
  - exists (da :: das), (db :: dbs). split; [cbn; rewrite Hda; cbn; now rewrite Has | ].
    split; [cbn; rewrite Hdb; cbn; now rewrite Hbs | ].
    pose proof (total_dim_flat_map_combinations base base f factors pool
                  (product pools) _ _ Ht IH) as E.
    cbn [product]. etransitivity; [exact E | ].
    rewrite !math_prod_cons. f_equal. lia.
Qed.

(** X8. Fusion conserves the dimension: for every symmetry whose fusion
    returns lists and all valid sectors [a], [b], the dimensions of the
    sectors of [fusion_outcomes(a, b)] add up to
    [sector_dim(a) * sector_dim(b)]. *)
Theorem fusion_outcomes_conserve_dimension :
  forall s a b,
    fuses_to_lists s -> valid s a -> valid s b ->
    exists l,
      fusion_outcomes s a b = Ok (VList l)
      /\ exists da db,
          sector_dim s a = Ok da /\ sector_dim s b = Ok db
          /\ total_dim s l = Ok (da * db).
Proof.
  apply (fusion_scheme fuses_to_lists
           (fun s a b l =>
              exists da db,
                sector_dim s a = Ok da /\ sector_dim s b = Ok db
                /\ total_dim s l = Ok (da * db))).
  - exact fuses_to_lists_factors.
  - exact leaf_fusion_outcomes_total_dim.
  - intros base factors a b items_a items_b pools _ Ia Ib _ _ R.
    destruct (product_total_dim base _ _ _ _ R) as (das & dbs & Ha & Hb & Ht).
    exists (math_prod das), (math_prod dbs).
    rewrite !sector_dim_product, Ia, Ib. cbn [bind]. rewrite Ha, Hb. cbn [bind].
    repeat split. exact Ht.
Qed.

Lemma fusion_outcomes_conserve_dimension_witness :
  exists l,
    fusion_outcomes
      (ProductSymmetry_obj
         (Symmetry_init multiple_unique bosonic (VList [VInt 0; VInt 0])
            "SU(2) ⨉ SU(2)" None) [su2_symmetry; su2_symmetry])
      (VList [VInt 1; VInt 2]) (VList [VInt 3; VInt 2]) = Ok (VList l)
    /\ exists da db,
        sector_dim
          (ProductSymmetry_obj
             (Symmetry_init multiple_unique bosonic (VList [VInt 0; VInt 0])
                "SU(2) ⨉ SU(2)" None) [su2_symmetry; su2_symmetry])
          (VList [VInt 1; VInt 2]) = Ok da
        /\ sector_dim
             (ProductSymmetry_obj
                (Symmetry_init multiple_unique bosonic (VList [VInt 0; VInt 0])
                   "SU(2) ⨉ SU(2)" None) [su2_symmetry; su2_symmetry])
             (VList [VInt 3; VInt 2]) = Ok db
        /\ total_dim
             (ProductSymmetry_obj
                (Symmetry_init multiple_unique bosonic (VList [VInt 0; VInt 0])
                   "SU(2) ⨉ SU(2)" None) [su2_symmetry; su2_symmetry]) l
           = Ok (da * db).
Proof.
  apply fusion_outcomes_conserve_dimension; [split | | ]; reflexivity.
Defined.

(** ** The trivial sector *)

Lemma Forall2_valid_trivial :
  forall factors,
    Forall (fun f => forall a, constructed f -> valid f a ->
                               valid f (trivial_sector f)) factors ->
    Forall constructed factors ->
    forall items,
      Forall2 valid factors items -> Forall2 valid factors (map trivial_sector factors).
Proof.
  induction 1 as [ | f factors Hf _ IH]; intros HC items Hv.
  - constructor.
  - inversion Hv as [ | ? x ? xs Hx Hxs]; subst.
    inversion HC as [ | ? ? Cf Cfs]; subst.
    cbn. constructor; [now apply (Hf x) | now apply (IH Cfs xs)].
Qed.

Lemma constructed_trivial_sector_valid :
  forall s a, constructed s -> valid s a -> valid s (trivial_sector s).
Proof.
  induction s as [s Hs | base factors IH] using Symmetry_induction; intros a HC Ha.
  - apply constructed_inv in HC. unfold valid, trivial_sector in *.
    destruct s; try discriminate; cbn in *.
    + destruct HC as [-> _]. reflexivity.
    + destruct HC as (-> & _). destruct a as [ | x | | ]; try discriminate.
      cbn in *. f_equal. injection Ha. lia.
    + destruct HC as (-> & _ & ->). reflexivity.
    + destruct HC as [-> _]. reflexivity.
    + destruct HC as [-> _]. reflexivity.
  - apply constructed_inv in HC. destruct HC as (HC & Ht & _).
    destruct (ProductSymmetry_valid_inv _ _ _ Ha) as (items & Ia & Fv).
    unfold trivial_sector at 1. cbn. rewrite Ht.
    apply ProductSymmetry_valid_of_items.
    now apply (Forall2_valid_trivial factors IH HC items).
Qed.

(** X9. The trivial sector of a constructed symmetry is a valid sector as
    soon as the symmetry has a valid sector at all. [ZNSymmetry(0)] has
    none: its predicate is [False] on every value, its trivial sector 0
    included. *)
Theorem trivial_sector_valid :
  (forall s a, constructed s -> valid s a -> valid s (trivial_sector s))
  /\ (forall name,
         exists s, ZNSymmetry 0 name = Ok s
                   /\ trivial_sector s = VInt 0
                   /\ forall a, is_valid_sector s a = Ok false).
Proof.
  split.
  - exact constructed_trivial_sector_valid.
  - intros name. eexists. split; [reflexivity | ]. split; [reflexivity | ].
    intros [ | x | l | l]; try reflexivity. cbn. f_equal. lia.
Qed.

Lemma trivial_sector_valid_witness :
  valid su2_symmetry (trivial_sector su2_symmetry).
Proof.
  apply (proj1 trivial_sector_valid su2_symmetry (VInt 3)).
  - apply constructed_SU2Symmetry.
  - reflexivity.
Defined.

(** ** Fusing with the dual *)

Lemma leaf_fusion_with_dual :
  forall s a b,
    is_ProductSymmetry s = false -> (fuses_to_lists s /\ constructed s) ->
    valid s a -> valid s b ->
    exists l,
      fusion_outcomes s a b = Ok (VList l)
      /\ (dual_sector s a = Ok b -> In (trivial_sector s) l).
Proof.
  intros s a b Hs [[_ Hp] HC] Ha Hb. apply constructed_inv in HC.
  unfold valid, trivial_sector in *.
  assert (Hq : forall qmod x y,
             QmodGroup_is_valid_sector qmod (VInt x) = Ok true ->
             exists l, QmodGroup_fusion_outcomes qmod (VInt x) (VInt y) = Ok (VList l)
                       /\ (QmodGroup_dual_sector qmod (VInt x) = Ok (VInt y) ->
                           In (VInt 0) l)).
  { intros qmod x y Hv. cbn in Hv.
    unfold QmodGroup_fusion_outcomes, QmodGroup_dual_sector. cbn.
    destruct (Z.eqb_spec qmod 0) as [-> | H0]; [cbn in Hv; injection Hv; lia | ].
    eexists. split; [reflexivity | ]. intros E. injection E as <-. left.
    f_equal. rewrite Zplus_mod_idemp_r. replace (x + - x) with 0 by lia.
    apply Z.mod_0_l. exact H0. }
  destruct s; try discriminate;
    cbn [fusion_outcomes dual_sector is_valid_sector base_attrs] in *.
  - eexists. split; [reflexivity | ]. intros _. destruct HC as [-> _]. now left.
  - destruct a as [ | x | | ], b as [ | y | | ]; try discriminate.
    destruct HC as (-> & _). now apply Hq.
  - destruct a as [ | x | | ], b as [ | y | | ]; try discriminate.
    destruct HC as (-> & _). now apply Hq.
  - destruct a as [ | x | | ], b as [ | y | | ]; try discriminate.
    destruct HC as [-> _]. cbn in Ha.
    unfold SU2Symmetry_fusion_outcomes, SU2Symmetry_dual_sector. cbn.
    eexists. split; [reflexivity | ]. intros E. injection E as <-.
    apply in_map. apply In_range3_pos; [lia | ].
    replace (x - x) with 0 by lia. cbn. split; [ | reflexivity].
    injection Ha. lia.
Qed.

Lemma pools_rel_trivial_in_product :
  forall factors items_a items_b pools,
    pools_rel (fun s a b l => dual_sector s a = Ok b -> In (trivial_sector s) l)
      factors items_a items_b pools ->
    zipM2 dual_sector factors items_a = Ok items_b ->
    In (map trivial_sector factors) (product pools).
Proof.
  intros factors items_a items_b pools R. induction R as [ | f a b pool factors
    items_a items_b pools Hf _ IH]; intros Hd.
  - now left.
  - cbn in Hd. destruct (dual_sector f a) as [d | e]; [ | discriminate]. cbn in Hd.
    destruct (zipM2 dual_sector factors items_a) as [ds | e]; [ | discriminate].
    cbn in Hd. injection Hd as -> ->.
    apply In_product. cbn. constructor; [now apply Hf | ].
    apply In_product. now apply IH.
Qed.

(** X10. For every constructed symmetry whose fusion returns lists and
    every valid sector [a], fusing [a] with [dual_sector(a)] returns a list
    that contains the trivial sector. *)
Theorem fusion_with_dual_contains_trivial_sector :
  forall s a,
    fuses_to_lists s -> constructed s -> valid s a ->
    exists d l,
      dual_sector s a = Ok d
      /\ fusion_outcomes s a d = Ok (VList l)
      /\ In (trivial_sector s) l.
Proof.
  intros s a Hf HC Ha.
  destruct (dual_sector_closed s a Ha) as (d & Hd & Vd).
  destruct (fusion_scheme (fun s => fuses_to_lists s /\ constructed s)
              (fun s a b l => dual_sector s a = Ok b -> In (trivial_sector s) l))
    with (s := s) (a := a) (b := d) as (l & Hl & Hin).
  - intros base factors [F C0]. apply constructed_inv in C0. destruct C0 as [C0 _].
    apply fuses_to_lists_factors in F.
    rewrite Forall_forall in *. intros f Hin. split; auto.
  - exact leaf_fusion_with_dual.
  - intros base factors a0 b0 items_a items_b pools [_ C0] Ia Ib _ _ R Hdual.
    apply constructed_inv in C0. destruct C0 as (_ & Ht & _).
    unfold trivial_sector at 1. cbn. rewrite Ht. apply in_map.
    apply (pools_rel_trivial_in_product _ _ _ _ R).
    rewrite dual_sector_product, Ia in Hdual. cbn [bind] in Hdual.
    destruct (zipM2 dual_sector factors items_a) as [duals | e]; [ | discriminate].
    cbn [bind] in Hdual. injection Hdual as <-. cbn in Ib. congruence.
  - now split.
  - exact Ha.
  - exact Vd.
  - exists d, l. auto.
Qed.

Lemma fusion_with_dual_contains_trivial_sector_witness :
  exists d l,
    dual_sector su2_symmetry (VInt 3) = Ok d
    /\ fusion_outcomes su2_symmetry (VInt 3) d = Ok (VList l)
    /\ In (trivial_sector su2_symmetry) l.
Proof.
  apply fusion_with_dual_contains_trivial_sector.
  - split; reflexivity.
  - apply constructed_SU2Symmetry.
  - reflexivity.
Defined.

(** ** The trivial sector is the unit of fusion *)

Lemma leaf_fusion_with_trivial :
  forall s a b,
    is_ProductSymmetry s = false ->
    (fuses_to_lists s /\ constructed s /\ no_qmod_1 s = true) ->
    valid s a -> valid s b ->
    exists l,
      fusion_outcomes s a b = Ok (VList l)
      /\ (b = trivial_sector s -> l = [as_lists a]).
Proof.
  intros s a b Hs ([_ Hp] & HC & Hq1) Ha Hb. apply constructed_inv in HC.
  unfold valid, trivial_sector in *.
  assert (Hq : forall qmod x y,
             negb (qmod =? 1) = true ->
             QmodGroup_is_valid_sector qmod (VInt x) = Ok true ->
             exists l, QmodGroup_fusion_outcomes qmod (VInt x) (VInt y) = Ok (VList l)
                       /\ (VInt y = VInt 0 -> l = [VInt x])).
  { intros qmod x y H1 Hv. cbn in Hv. apply negb_true_iff, Z.eqb_neq in H1.
    unfold QmodGroup_fusion_outcomes. cbn.
    destruct (Z.eqb_spec qmod 0) as [-> | H0]; [cbn in Hv; injection Hv; lia | ].
    eexists. split; [reflexivity | ]. intros E. injection E as ->.
    do 2 f_equal. rewrite Z.add_0_r. apply Z.mod_small.
    apply Z.eqb_neq in H1. rewrite H1 in Hv. cbn in Hv. injection Hv. lia. }
  destruct s; try discriminate;
    cbn [fusion_outcomes is_valid_sector base_attrs no_qmod_1] in *.
  - eexists. split; [reflexivity | ]. intros _.
    destruct a; try discriminate. reflexivity.
  - destruct a as [ | x | | ], b as [ | y | | ]; try discriminate.
    destruct HC as (-> & _). now apply Hq.
  - destruct a as [ | x | | ], b as [ | y | | ]; try discriminate.
    destruct HC as (-> & _). now apply Hq.
  - destruct a as [ | x | | ], b as [ | y | | ]; try discriminate.
    destruct HC as [-> _]. cbn in Ha.
    unfold SU2Symmetry_fusion_outcomes. cbn.
    eexists. split; [reflexivity | ]. intros E. injection E as ->.
    assert (Hx : 0 <= x) by (injection Ha; lia).
    unfold range3. rewrite range3_pos_length by lia.
    rewrite Z.sub_0_r, Z.add_0_r, (Z.abs_eq x) by lia.
    replace ((x + 2 - x + 2 - 1) / 2) with 1
      by (apply Z.div_unique with (r := 1); lia).
    change (Z.to_nat (Z.max 0 1)) with 1%nat.
    cbn [seq map]. do 2 f_equal. lia.
Qed.

Lemma pools_rel_unit_product :
  forall factors items_a items_b pools,
    pools_rel (fun s a b l => b = trivial_sector s -> l = [as_lists a])
      factors items_a items_b pools ->
    items_b = map trivial_sector factors ->
    product pools = [map as_lists items_a].
Proof.
  intros factors items_a items_b pools R. induction R as [ | f a b pool factors
    items_a items_b pools Hf _ IH]; intros E.
  - reflexivity.
  - cbn in E. injection E as -> E. cbn. rewrite (Hf eq_refl), (IH E). reflexivity.
Qed.

Lemma fusion_with_trivial_sector_as_lists :
  forall s a,
    fuses_to_lists s -> constructed s -> no_qmod_1 s = true -> valid s a ->
    fusion_outcomes s a (trivial_sector s) = Ok (VList [as_lists a]).
Proof.
  intros s a Hf HC Hq Ha.
  destruct (fusion_scheme
              (fun s => fuses_to_lists s /\ constructed s /\ no_qmod_1 s = true)
              (fun s a b l => b = trivial_sector s -> l = [as_lists a]))
    with (s := s) (a := a) (b := trivial_sector s) as (l & Hl & Hu).
  - intros base factors (F & C0 & Q). apply constructed_inv in C0.
    destruct C0 as [C0 _]. apply fuses_to_lists_factors in F. cbn in Q.
    rewrite forallb_forall in Q. rewrite Forall_forall in *.
    intros f Hin. repeat split; auto; now apply F.
  - exact leaf_fusion_with_trivial.
  - intros base factors a0 b0 items_a items_b pools (_ & C0 & _) Ia Ib _ _ R E.
    apply constructed_inv in C0. destruct C0 as (_ & Ht & _).
    unfold trivial_sector in E at 1. cbn in E. rewrite Ht in E. subst b0.
    cbn in Ib. injection Ib as Ib. symmetry in Ib.
    rewrite (pools_rel_unit_product _ _ _ _ R Ib).
    destruct (py_iter_cases a0 items_a Ia) as [-> | ->]; reflexivity.
  - repeat split; assumption || apply Hf.
  - exact Ha.
  - now apply (constructed_trivial_sector_valid s a).
  - rewrite Hl. now rewrite (Hu eq_refl).
Qed.

(** X11. For every constructed symmetry whose fusion returns lists and
    which contains no [QmodGroup] with [qmod = 1], fusing a valid sector
    [a] with the trivial sector returns a list with one outcome: [a] read
    as lists. A product builds each outcome with [list(...)], so a sector
    handed over as a tuple comes back as the list of the same items (which
    Python's [==] tells apart from the tuple); a sector without a tuple
    comes back as it is. *)
Theorem fusion_with_trivial_sector :
  forall s a,
    fuses_to_lists s -> constructed s -> no_qmod_1 s = true -> valid s a ->
    fusion_outcomes s a (trivial_sector s) = Ok (VList [as_lists a])
    /\ (tuple_free a = true ->
        fusion_outcomes s a (trivial_sector s) = Ok (VList [a]))
    /\ (tuple_free a = false -> py_eq (VList [as_lists a]) (VList [a]) = false).
Proof.
  intros s a Hf HC Hq Ha.
  pose proof (fusion_with_trivial_sector_as_lists s a Hf HC Hq Ha) as H.
  split; [exact H | ]. split.
  - intros Ht. now rewrite (as_lists_tuple_free a Ht) in H.
  - intros Ht. cbn. rewrite andb_true_r. now apply py_eq_as_lists_tuple.
Qed.

Lemma fusion_with_trivial_sector_witness :
  exists z3,
    z3_symmetry = Ok z3
    /\ fusion_outcomes
         (ProductSymmetry_obj
            (Symmetry_init multiple_unique bosonic (VList [VInt 0; VInt 0])
               "ℤ₃ ⨉ SU(2)" None) [z3; su2_symmetry])
         (VTuple [VInt 2; VInt 5]) (VList [VInt 0; VInt 0])
       = Ok (VList [VList [VInt 2; VInt 5]]).
Proof.
  eexists. split; [reflexivity | ].
  apply (fusion_with_trivial_sector
           (ProductSymmetry_obj
              (Symmetry_init multiple_unique bosonic (VList [VInt 0; VInt 0])
                 "ℤ₃ ⨉ SU(2)" None)
              [ZNSymmetry_obj (Symmetry_init single bosonic (VInt 0) "ℤ₃" None) 3 3;
               su2_symmetry])
           (VTuple [VInt 2; VInt 5])).
  - split; reflexivity.
  - apply (constructed_ProductSymmetry
             [ZNSymmetry_obj (Symmetry_init single bosonic (VInt 0) "ℤ₃" None) 3 3;
              su2_symmetry]).
    + constructor; [apply (constructed_ZNSymmetry 3 None); reflexivity | ].
      constructor; [apply constructed_SU2Symmetry | constructor].
    + reflexivity.
  - reflexivity.
  - reflexivity.
Defined.

(** ** Single fusion style *)

Lemma pools_rel_singletons :
  forall factors items_a items_b pools,
    pools_rel (fun _ _ _ l => exists c, l = [c]) factors items_a items_b pools ->
    exists cs, product pools = [cs].
Proof.
  intros factors items_a items_b pools R.
  induction R as [ | f a b pool factors items_a items_b pools [c ->] _ [cs IH]].
  - exists []. reflexivity.
  - exists (c :: cs). cbn. rewrite IH. reflexivity.
Qed.

(** X12. A constructed symmetry with [fusion_style == FusionStyle.single]
    whose fusion returns lists has exactly one fusion outcome for every
    pair of valid sectors; a product has this style only if all its factors
    have it. *)
Theorem single_fusion_style_single_outcome :
  forall s a b,
    fuses_to_lists s -> constructed s -> fusion_style s = single ->
    valid s a -> valid s b ->
    exists c, fusion_outcomes s a b = Ok (VList [c]).
Proof.
  intros s a b Hf HC Hs Ha Hb.
  destruct (fusion_scheme
              (fun s => fuses_to_lists s /\ constructed s /\ fusion_style s = single)
              (fun _ _ _ l => exists c, l = [c]))
    with (s := s) (a := a) (b := b) as (l & Hl & [c ->]).
  - intros base factors (F & C0 & S0). apply constructed_inv in C0.
    destruct C0 as (C0 & _ & [_ Hmax]). apply fuses_to_lists_factors in F.
    unfold fusion_style at 1 in S0. cbn in S0. rewrite S0 in Hmax.
    rewrite Forall_forall in *. intros f Hin. repeat split; auto; try now apply F.
    specialize (Hmax (fusion_style f) (in_map fusion_style _ _ Hin)).
    destruct (fusion_style f); cbn in Hmax; [reflexivity | lia | lia].
  - intros s0 a0 b0 Hleaf ([_ Hp] & C0 & S0) Va Vb. apply constructed_inv in C0.
    unfold valid, fusion_style in *.
    destruct s0; try discriminate; cbn [fusion_outcomes is_valid_sector base_attrs] in *.
    + eexists. split; [reflexivity | eauto].
    + destruct a0 as [ | x | | ], b0 as [ | y | | ]; try discriminate.
      unfold QmodGroup_fusion_outcomes. cbn.
      destruct (Z.eqb_spec qmod 0) as [-> | H0]; [cbn in Va; injection Va; lia | ].
      eexists. split; [reflexivity | eauto].
    + destruct a0 as [ | x | | ], b0 as [ | y | | ]; try discriminate.
      unfold QmodGroup_fusion_outcomes. cbn.
      destruct (Z.eqb_spec qmod 0) as [-> | H0]; [cbn in Va; injection Va; lia | ].
      eexists. split; [reflexivity | eauto].
    + destruct C0 as [_ C0]. congruence.
  - intros base factors a0 b0 items_a items_b pools _ _ _ _ _ R.
    destruct (pools_rel_singletons _ _ _ _ R) as [cs ->]. cbn. eauto.
  - repeat split; assumption || apply Hf.
  - exact Ha.
  - exact Hb.
  - eauto.
Qed.

Lemma single_fusion_style_single_outcome_witness :
  exists c,
    fusion_outcomes u1_symmetry (VInt 4) (VInt (-1)) = Ok (VList [c]).
Proof.
  apply single_fusion_style_single_outcome.
  - split; reflexivity.
  - apply constructed_U1Symmetry.
  - reflexivity.
  - reflexivity.
  - reflexivity.
Defined.

(** ** The dual as an involution *)

(** X13. In a symmetry that contains no [QmodGroup] with [qmod = 1], the
    dual of a valid sector [a] is a valid sector whose dual is [a] read as
    lists: [a] itself when it holds no tuple, and for a sector handed over
    as a tuple the list of the same items, because the dual of a product is
    built as a list. *)
Theorem dual_sector_involution_without_qmod_1 :
  forall s a,
    no_qmod_1 s = true -> valid s a ->
    exists d,
      dual_sector s a = Ok d /\ valid s d
      /\ dual_sector s d = Ok (as_lists a)
      /\ (tuple_free a = true -> dual_sector s d = Ok a)
      /\ (tuple_free a = false -> py_eq (as_lists a) a = false).
Proof.
  intros s a Hq Ha.
  destruct (dual_sector_closed s a Ha) as (d & Hd & Vd).
  exists d. split; [exact Hd | ]. split; [exact Vd | ].
  pose proof (dual_sector_involutive_without_qmod_1 s a Hq Ha) as H.
  unfold dual_twice in H. rewrite Hd in H. cbn [bind] in H.
  split; [exact H | ]. split.
  - intros Ht. now rewrite (as_lists_tuple_free a Ht) in H.
  - now apply py_eq_as_lists_tuple.
Qed.

Lemma dual_sector_involution_without_qmod_1_witness :
  exists z3 d,
    z3_symmetry = Ok z3
    /\ dual_sector
         (ProductSymmetry_obj
            (Symmetry_init multiple_unique bosonic (VList [VInt 0; VInt 0])
               "Z3 x SU(2)" None) [z3; su2_symmetry])
         (VTuple [VInt 2; VInt 5]) = Ok d
    /\ d = VList [VInt 1; VInt 5]
    /\ dual_sector
         (ProductSymmetry_obj
            (Symmetry_init multiple_unique bosonic (VList [VInt 0; VInt 0])
               "Z3 x SU(2)" None) [z3; su2_symmetry]) d
       = Ok (VList [VInt 2; VInt 5]).
Proof.
  eexists.
  destruct (dual_sector_involution_without_qmod_1
              (ProductSymmetry_obj
                 (Symmetry_init multiple_unique bosonic (VList [VInt 0; VInt 0])
                    "Z3 x SU(2)" None)
                 [ZNSymmetry_obj (Symmetry_init single bosonic (VInt 0) "ℤ₃" None) 3 3;
                  su2_symmetry])
              (VTuple [VInt 2; VInt 5]) eq_refl eq_refl) as (d & Hd & Vd & Hdd & _).
  exists d. split; [reflexivity | ]. split; [exact Hd | ].
  split; [cbn in Hd; now injection Hd as <- | exact Hdd].
Defined.

(** ** A product with a fermion-parity factor *)

Lemma zipM3_fusion_outcomes_shapes :
  forall factors,
    Forall (fun f => fuses_to_lists f \/ is_FermionParity f = true) factors ->
    forall items_a items_b,
      Forall2 valid factors items_a -> Forall2 valid factors items_b ->
      exists outs,
        zipM3 fusion_outcomes factors items_a items_b = Ok outs
        /\ Forall2 (fun f o => if is_FermionParity f then isinstance_int o = true
                               else is_list o = true) factors outs.
Proof.
  induction 1 as [ | f factors Hf _ IH]; intros items_a items_b Ha Hb.
  - inversion Ha; inversion Hb; subst. exists []. split; [reflexivity | constructor].
  - inversion Ha as [ | ? x ? xs Hx Hxs]; subst.
    inversion Hb as [ | ? y ? ys Hy Hys]; subst.
    destruct (IH xs ys Hxs Hys) as (outs & Houts & Fouts).
    destruct Hf as [Hl | Hp].
    + destruct (fusion_outcomes_returns_list f x y (proj1 Hl) (proj2 Hl) Hx Hy)
        as (l & El).
      exists (VList l :: outs). split; [cbn; rewrite El; cbn; now rewrite Houts | ].
      constructor; [ | exact Fouts]. destruct Hl as [_ ->]. reflexivity.
    + destruct f; try discriminate.
      eexists (_ :: outs). split; [cbn; now rewrite Houts | ].
      constructor; [reflexivity | exact Fouts].
Qed.

Lemma mapM_py_iter_raises_on_bare_value :
  forall factors outs,
    Forall2 (fun f o => if is_FermionParity f then isinstance_int o = true
                        else is_list o = true) factors outs ->
    Exists (fun f => is_FermionParity f = true) factors ->
    mapM py_iter outs = Raise TypeError.
Proof.
  induction 1 as [ | f o factors outs Hfo _ IH]; intros Hex.
  - inversion Hex.
  - destruct (is_FermionParity f) eqn:Hp.
    + destruct o as [ | z | l | l]; try discriminate; reflexivity.
    + inversion Hex as [? ? Hp' | ? ? Hex']; subst; [congruence | ].
      destruct o as [ | z | l | l]; try discriminate.
      cbn. now rewrite (IH Hex').
Qed.

(** X14. A [ProductSymmetry] that has a [FermionParity] among its factors
    cannot fuse: for valid sectors, once every factor has returned its
    outcomes, [itertools.product] meets the bare integer of the
    [FermionParity] factor and the call raises TypeError. (The other
    factors are symmetries whose fusion returns lists.) *)
Theorem ProductSymmetry_with_FermionParity_factor_raises :
  forall base factors a b,
    Forall (fun f => fuses_to_lists f \/ is_FermionParity f = true) factors ->
    Exists (fun f => is_FermionParity f = true) factors ->
    valid (ProductSymmetry_obj base factors) a ->
    valid (ProductSymmetry_obj base factors) b ->
    fusion_outcomes (ProductSymmetry_obj base factors) a b = Raise TypeError.
Proof.
  intros base factors a b Hall Hex Ha Hb.
  destruct (ProductSymmetry_valid_inv _ _ _ Ha) as (items_a & Ia & Fa).
  destruct (ProductSymmetry_valid_inv _ _ _ Hb) as (items_b & Ib & Fb).
  destruct (zipM3_fusion_outcomes_shapes factors Hall items_a items_b Fa Fb)
    as (outs & Houts & Fouts).
  rewrite fusion_outcomes_product, Ia, Ib. cbn [bind]. rewrite Houts. cbn [bind].
  now rewrite (mapM_py_iter_raises_on_bare_value factors outs Fouts Hex).
Qed.

Lemma ProductSymmetry_with_FermionParity_factor_raises_witness :
  fusion_outcomes
    (ProductSymmetry_obj
       (Symmetry_init multiple_unique fermionic (VList [VInt 0; VInt 0])
          "SU(2) x FermionParity" None) [su2_symmetry; fermion_parity])
    (VList [VInt 2; VInt 1]) (VList [VInt 1; VInt 1]) = Raise TypeError.
Proof.
  apply ProductSymmetry_with_FermionParity_factor_raises.
  - constructor; [left; split; reflexivity | ].
    constructor; [right; reflexivity | constructor].
  - right. left. reflexivity.
  - reflexivity.
  - reflexivity.
Defined.

(* ================================================================== *)
(** * Further properties of the matrix operations *)

(** ** Slices *)

Lemma py_slice_to {A : Type} :
  forall (l : list A) k, 0 <= k -> py_slice l None (Some k) = firstn (Z.to_nat k) l.
Proof.
  intros l k Hk. unfold py_slice, slice_bound.
  destruct (Z.ltb_spec k 0); [lia | ]. cbn [skipn Z.to_nat].
  rewrite Z.sub_0_r.
  destruct (Z.le_ge_cases k (Z.of_nat (List.length l))).
  - now rewrite Z.min_l.
  - rewrite Z.min_r, Nat2Z.id by lia. rewrite !firstn_all2; [reflexivity | lia | lia].
Qed.

Lemma py_slice_from {A : Type} :
  forall (l : list A) k, 0 <= k -> py_slice l (Some k) None = skipn (Z.to_nat k) l.
Proof.
  intros l k Hk. unfold py_slice, slice_bound.
  destruct (Z.ltb_spec k 0); [lia | ].
  destruct (Z.le_ge_cases k (Z.of_nat (List.length l))).
  - rewrite Z.min_l by lia. apply firstn_all2. rewrite length_skipn. lia.
  - rewrite Z.min_r, Nat2Z.id by lia.
    rewrite !skipn_all2; [ | lia | lia]. now destruct (Z.to_nat _).
Qed.

Lemma py_slice_last {A : Type} :
  forall (l : list A) k,
    0 < k <= Z.of_nat (List.length l) ->
    py_slice l (Some (- k)) None = skipn (List.length l - Z.to_nat k) l.
Proof.
  intros l k Hk. unfold py_slice, slice_bound.
  destruct (Z.ltb_spec (- k) 0); [ | lia].
  rewrite Z.max_l by lia.
  replace (Z.to_nat (- k + Z.of_nat (List.length l)))
    with (List.length l - Z.to_nat k)%nat by lia.
  apply firstn_all2. rewrite length_skipn. lia.
Qed.

(** ** What [leg_bipartition] returns and raises *)

Section LegBipartitionResult.
Variables Data Backend Leg : Type.
Variable get_leg_idcs : Tensor Data Backend Leg -> list LegSel -> result (list Z).

(** X15. Whatever [leg_bipartition] returns is a bipartition: the two index
    lists share no leg and together contain every leg of the tensor. An
    exception of [get_leg_idcs] is passed on unchanged, the first group
    being resolved first. *)
Theorem leg_bipartition_returns_a_bipartition :
  forall (a : Tensor Data Backend Leg) (legs1 legs2 : option (list LegSel)),
    (forall idcs1 idcs2,
        leg_bipartition get_leg_idcs a legs1 legs2 = Ok (idcs1, idcs2) ->
        ~ overlap idcs1 idcs2 /\ covers a idcs1 idcs2)
    /\ (forall sel1 e,
           legs1 = Some sel1 -> get_leg_idcs a sel1 = Raise e ->
           leg_bipartition get_leg_idcs a legs1 legs2 = Raise e)
    /\ (forall sel2 e,
           legs2 = Some sel2 -> get_leg_idcs a sel2 = Raise e ->
           (forall sel1, legs1 = Some sel1 -> exists idcs1, get_leg_idcs a sel1 = Ok idcs1) ->
           leg_bipartition get_leg_idcs a legs1 legs2 = Raise e).
Proof.
  intros a legs1 legs2. split; [ | split].
  - intros idcs1 idcs2 H. unfold leg_bipartition in H.
    destruct legs1 as [sel1 | ], legs2 as [sel2 | ].
    + destruct (get_leg_idcs a sel1) as [i1 | e]; [ | discriminate]. cbn [bind] in H.
      destruct (get_leg_idcs a sel2) as [i2 | e]; [ | discriminate]. cbn [bind] in H.
      destruct (filter (fun l => py_in l i2) i1) eqn:Eboth; [ | discriminate].
      destruct (filter (fun n => negb (py_in n i1) && negb (py_in n i2))
                       (range1 (num_legs a))) eqn:Emiss; [ | discriminate].
      injection H as <- <-. split.
      * intros (n & Hn1 & Hn2). rewrite filter_nil_iff in Eboth.
        specialize (Eboth n Hn1). apply py_in_false in Eboth. contradiction.
      * intros n Hn. rewrite filter_nil_iff in Emiss.
        specialize (Emiss n (proj2 (In_range1 _ _) Hn)).
        apply andb_false_iff in Emiss.
        destruct Emiss as [E | E]; apply negb_false_iff, py_in_true in E;
          [now left | now right].
    + destruct (get_leg_idcs a sel1) as [i1 | e]; [ | discriminate]. cbn [bind] in H.
      injection H as <- <-.
      destruct (remaining_legs_filter Data Backend Leg a i1) as [_ Hr]. split.
      * intros (n & Hn1 & Hn2). apply Hr in Hn2. now destruct Hn2.
      * intros n Hn. destruct (in_dec Z.eq_dec n i1) as [Hi | Hi]; [now left | right].
        apply Hr. now split.
    + destruct (get_leg_idcs a sel2) as [i2 | e]; [ | discriminate]. cbn [bind] in H.
      injection H as <- <-.
      destruct (remaining_legs_filter Data Backend Leg a i2) as [_ Hr]. split.
      * intros (n & Hn1 & Hn2). apply Hr in Hn1. now destruct Hn1.
      * intros n Hn. destruct (in_dec Z.eq_dec n i2) as [Hi | Hi]; [now right | left].
        apply Hr. now split.
    + destruct (negb (num_legs a =? 2)) eqn:E; [discriminate | ].
      injection H as <- <-. apply negb_false_iff, Z.eqb_eq in E. split.
      * intros (n & [<- | [ ]] & [H | [ ]]). discriminate.
      * intros n Hn. assert (n = 0 \/ n = 1) as [-> | ->] by lia;
          [left | right]; now left.
  - intros sel1 e -> He. unfold leg_bipartition. destruct legs2; now rewrite He.
  - intros sel2 e -> He H1. unfold leg_bipartition.
    destruct legs1 as [sel1 | ]; [ | now rewrite He].
    destruct (H1 sel1 eq_refl) as [i1 Hi1]. rewrite Hi1. cbn [bind]. now rewrite He.
Qed.

End LegBipartitionResult.

Lemma leg_bipartition_returns_a_bipartition_witness :
  (~ overlap [1; 3] [2; 0] /\ covers four_legs [1; 3] [2; 0])
  /\ leg_bipartition resolve_leg_idcs four_legs (Some [LegLabel "z"]) None
     = Raise ValueError.
Proof.
  destruct (leg_bipartition_returns_a_bipartition unit unit unit resolve_leg_idcs
              four_legs None (Some [LegLabel "c"; LegIdx 0])) as (Hok & _ & _).
  destruct (leg_bipartition_returns_a_bipartition unit unit unit resolve_leg_idcs
              four_legs (Some [LegLabel "z"]) None) as (_ & Herr & _).
  split.
  - apply Hok. reflexivity.
  - apply (Herr [LegLabel "z"] ValueError); reflexivity.
Defined.

(** ** Labels of the new legs *)

Lemma _svd_new_labels_raises :
  forall new_labels,
    (raises (_svd_new_labels new_labels)
     <-> exists ls, new_labels = Some ls
                    /\ List.length ls <> 2%nat /\ List.length ls <> 4%nat)
    /\ (raises (_svd_new_labels new_labels) ->
        _svd_new_labels new_labels = Raise ValueError).
Proof.
  intros [ls | ].
  - destruct ls as [ | a [ | b [ | c [ | d [ | e ls]]]]].
    + split; [split | ]; try reflexivity.
      * intros _. exists []. cbn. repeat split; lia.
      * intros _. now exists ValueError.
    + split; [split | ]; try reflexivity.
      * intros _. exists [a]. cbn. repeat split; lia.
      * intros _. now exists ValueError.
    + split; [split | ].
      * intros [e He]. discriminate.
      * intros (ls & E & H2 & _). injection E as <-. now elim H2.
      * intros [e He]. discriminate.
    + split; [split | ]; try reflexivity.
      * intros _. exists [a; b; c]. cbn. repeat split; lia.
      * intros _. now exists ValueError.
    + split; [split | ].
      * intros [e He]. discriminate.
      * intros (ls & E & _ & H4). injection E as <-. now elim H4.
      * intros [e He]. discriminate.
    + assert (E : _svd_new_labels (Some (a :: b :: c :: d :: e :: ls))
                  = Raise ValueError).
      { unfold _svd_new_labels.
        destruct (Z.eqb_spec (Z.of_nat (List.length (a :: b :: c :: d :: e :: ls))) 2)
          as [H2 | _]; [cbn [List.length] in H2; lia | ].
        destruct (Z.eqb_spec (Z.of_nat (List.length (a :: b :: c :: d :: e :: ls))) 4)
          as [H4 | _]; [cbn [List.length] in H4; lia | reflexivity]. }
      split; [split | ].
      * intros _. eexists. split; [reflexivity | ]. cbn [List.length]. split; lia.
      * intros _. now exists ValueError.
      * intros _. exact E.
  - split; [split | ].
    + intros [e He]. discriminate.
    + intros (ls & E & _). discriminate.
    + intros [e He]. discriminate.
Qed.

(** X16. [_svd_new_labels] raises exactly when [new_labels] is a sequence
    of a length other than 2 and 4, and the exception is ValueError. Two
    labels [(x, y)] are given out as [x] for the new leg of U and the
    second leg of S, and [y] for the first leg of S and the new leg of Vh;
    four labels are taken in the order U, first of S, second of S, Vh. *)
Theorem _svd_new_labels_arity :
  (forall new_labels,
      raises (_svd_new_labels new_labels)
      <-> exists ls, new_labels = Some ls
                     /\ List.length ls <> 2%nat /\ List.length ls <> 4%nat)
  /\ (forall new_labels, raises (_svd_new_labels new_labels) ->
                         _svd_new_labels new_labels = Raise ValueError)
  /\ _svd_new_labels None = Ok (None, None, None, None)
  /\ (forall x y,
         _svd_new_labels (Some [x; y]) = Ok (Some x, Some y, Some x, Some y))
  /\ (forall l_u l_su l_sv l_vh,
         _svd_new_labels (Some [l_u; l_su; l_sv; l_vh])
         = Ok (Some l_u, Some l_su, Some l_sv, Some l_vh)).
Proof.
  split; [intros nl; apply _svd_new_labels_raises | ].
  split; [intros nl; apply _svd_new_labels_raises | ].
  repeat split.
Qed.

Lemma _svd_new_labels_arity_witness :
  _svd_new_labels (Some ["a"; "b"; "c"]%string) = Raise ValueError.
Proof.
  destruct _svd_new_labels_arity as (Hiff & Herr & _).
  apply Herr. apply Hiff. eexists. split; [reflexivity | ]. cbn. split; lia.
Defined.

(** ** [svd] without merging of legs *)

Section SvdResult.
Variables Data Backend Leg Scalar : Type.
Variable get_leg_idcs : Tensor Data Backend Leg -> list LegSel -> result (list Z).
Variable combine_legs :
  Tensor Data Backend Leg -> list Z -> GlobalRef -> list Z
  -> result (Tensor Data Backend Leg).
Variable transpose :
  Tensor Data Backend Leg -> list Z -> result (Tensor Data Backend Leg).
Variable split_leg :
  Tensor Data Backend Leg -> Z -> result (Tensor Data Backend Leg).
Variable leg_dual : Leg -> Leg.
Variable backend_svd :
  Backend -> Tensor Data Backend Leg -> bool -> result (Data * Data * Data * Leg).

(** X17. When the leg groups resolve and [new_labels] has a length other
    than 2 and 4, [svd] raises ValueError, before any call of the backend
    and whatever the number of legs. *)
Theorem svd_raises_ValueError_on_label_arity :
  forall (a : Tensor Data Backend Leg) (u_legs vh_legs : option (list LegSel))
         (ls : list string) (new_vh_leg_dual : bool) (u_idcs vh_idcs : list Z),
    leg_bipartition get_leg_idcs a u_legs vh_legs = Ok (u_idcs, vh_idcs) ->
    List.length ls <> 2%nat -> List.length ls <> 4%nat ->
    svd (Scalar := Scalar) get_leg_idcs combine_legs transpose split_leg leg_dual
        backend_svd (IsTensor a) u_legs vh_legs (Some ls) new_vh_leg_dual
    = Raise ValueError.
Proof.
  intros a u_legs vh_legs ls d u_idcs vh_idcs Hb H2 H4.
  unfold svd, call_leg_bipartition. cbn [bind_positional List.length Nat.eqb bind].
  rewrite Hb. cbn [bind].
  destruct (_svd_new_labels_raises (Some ls)) as (Hiff & Herr).
  rewrite Herr; [reflexivity | ]. apply Hiff. exists ls. now repeat split.
Qed.

(** X18. When each leg group resolves to a single leg, [u] for U and [v]
    for Vh, [svd] neither merges nor splits legs. With [t] the tensor
    itself, or the transposed tensor when [u == 1], of legs [[L0, L1]], and
    with the backend's new leg [n]: U has the legs [[L0, n.dual]], S the
    legs [[n, n.dual]], Vh the legs [[n, L1]]; the old leg of U carries the
    label of [t] at index [u] and the old leg of Vh the one at index [v]. *)
Theorem svd_of_two_single_leg_groups :
  forall (a t : Tensor Data Backend Leg) (u_legs vh_legs : option (list LegSel))
         (new_labels : option (list string)) (new_vh_leg_dual : bool)
         (u v : Z) (l_u l_su l_sv l_vh label_u label_v : option string)
         (L0 L1 n : Leg) (u_data s_data vh_data : Data),
    leg_bipartition get_leg_idcs a u_legs vh_legs = Ok ([u], [v]) ->
    _svd_new_labels new_labels = Ok (l_u, l_su, l_sv, l_vh) ->
    (if u =? 1 then transpose a [1; 0] else Ok a) = Ok t ->
    legs t = [L0; L1] ->
    py_index (labels t) u = Ok label_u ->
    py_index (labels t) v = Ok label_v ->
    backend_svd (backend t) t new_vh_leg_dual = Ok (u_data, s_data, vh_data, n) ->
    svd (Scalar := Scalar) get_leg_idcs combine_legs transpose split_leg leg_dual
        backend_svd (IsTensor a) u_legs vh_legs new_labels new_vh_leg_dual
    = Ok (Tensor_init u_data (backend t) [L0; leg_dual n] [label_u; l_u],
          DiagonalTensor_init s_data (backend t) [n; leg_dual n] [l_su; l_sv],
          Tensor_init vh_data (backend t) [n; L1] [l_vh; label_v]).
Proof.
  intros a t u_legs vh_legs new_labels d u v l_u l_su l_sv l_vh label_u label_v
         L0 L1 n u_data s_data vh_data Hb Hl Ht Hlegs Hu Hv Hsvd.
  unfold svd, call_leg_bipartition. cbn [bind_positional List.length Nat.eqb bind].
  rewrite Hb. cbn [bind]. rewrite Hl. cbn [bind List.length].
  change (negb (Z.of_nat 1 =? 1) || negb (Z.of_nat 1 =? 1)) with false. cbn iota.
  assert (E0 : py_index [u] 0 = Ok u) by reflexivity.
  rewrite E0. cbn [bind]. rewrite Ht. cbn [bind]. rewrite Hsvd. cbn [bind].
  rewrite Hlegs.
  assert (E1 : py_index [L0; L1] 0 = Ok L0) by reflexivity.
  assert (E2 : py_index [L0; L1] 1 = Ok L1) by reflexivity.
  rewrite E1, E2. cbn [bind mapM]. rewrite Hu, Hv. reflexivity.
Qed.

End SvdResult.

Lemma svd_raises_ValueError_on_label_arity_witness :
  svd (Scalar := unit) resolve_leg_idcs
      (fun a _ _ _ => Ok a) (fun a _ => Ok a) (fun a _ => Ok a) (fun l => l)
      (fun _ _ _ => Ok (tt, tt, tt, tt))
      (IsTensor two_legs) None None (Some ["a"; "b"; "c"]%string) false
  = Raise ValueError.
Proof.
  apply (svd_raises_ValueError_on_label_arity unit unit unit unit resolve_leg_idcs
           (fun a _ _ _ => Ok a) (fun a _ => Ok a) (fun a _ => Ok a) (fun l => l)
           (fun _ _ _ => Ok (tt, tt, tt, tt))
           two_legs None None ["a"; "b"; "c"]%string false [0] [1]).
  - reflexivity.
  - discriminate.
  - discriminate.
Defined.

Lemma svd_of_two_single_leg_groups_witness :
  svd (Scalar := unit) resolve_leg_idcs
      (fun a _ _ _ => Ok a) swap_two_legs (fun a _ => Ok a)
      (fun l => (l ++ "*")%string) (fun _ _ _ => Ok (tt, tt, tt, "bond"%string))
      (IsTensor named_two_legs) (Some [LegIdx 1]) (Some [LegIdx 0]) None false
  = Ok (Tensor_init tt tt ["col"; "bond*"]%string [Some "p"%string; None],
        DiagonalTensor_init tt tt ["bond"; "bond*"]%string [None; None],
        Tensor_init tt tt ["bond"; "row"]%string [None; Some "q"%string]).
Proof.
  apply (svd_of_two_single_leg_groups unit unit string unit resolve_leg_idcs
           (fun a _ _ _ => Ok a) swap_two_legs (fun a _ => Ok a)
           (fun l => (l ++ "*")%string) (fun _ _ _ => Ok (tt, tt, tt, "bond"%string))
           named_two_legs
           (Tensor_init tt tt ["col"; "row"]%string [Some "q"; Some "p"]%string)
           (Some [LegIdx 1]) (Some [LegIdx 0]) None false 1 0
           None None None None (Some "p"%string) (Some "q"%string)
           "col"%string "row"%string "bond"%string tt tt tt);
    reflexivity.
Defined.

(** ** [truncate_svd] *)

Lemma py_slice_but_last {A : Type} :
  forall l : list A, py_slice l None (Some (-1)) = removelast l.
Proof.
  intros l. unfold py_slice, slice_bound. cbn [Z.ltb Z.compare skipn Z.to_nat].
  rewrite Z.sub_0_r, removelast_firstn_len. f_equal. lia.
Qed.

Lemma py_slice_but_first {A : Type} :
  forall l : list A, py_slice l (Some 1) None = tl l.
Proof.
  intros l. rewrite py_slice_from by lia. now destruct l.
Qed.

Section TruncateSvd.
Variables Data Backend Leg Scalar Options : Type.
Variable leg_dual : Leg -> Leg.
Variable get_same_backend :
  Tensor Data Backend Leg -> DiagonalTensor Data Backend Leg
  -> Tensor Data Backend Leg -> result Backend.
Variable backend_truncate_svd :
  Backend -> Tensor Data Backend Leg -> DiagonalTensor Data Backend Leg
  -> Tensor Data Backend Leg -> Options
  -> result (Data * Data * Data * Leg * Scalar).

(** X19. When the backend returns a truncation with the new leg [n],
    [truncate_svd] returns U with its last leg replaced by [n], S with the
    legs [[n.dual, n]] and Vh with its first leg replaced by [n.dual]; all
    labels, and the number of legs of a U and a Vh that have a leg, are
    those of the arguments. A U or Vh that is no [Tensor] raises
    NotImplementedError. *)
Theorem truncate_svd_replaces_the_bond_leg :
  forall (U Vh : Tensor Data Backend Leg) (S : DiagonalTensor Data Backend Leg)
         (options : Options) (b : Backend) (u_data s_data vh_data : Data)
         (n : Leg) (trunc_err : Scalar),
    get_same_backend U S Vh = Ok b ->
    backend_truncate_svd b U S Vh options
    = Ok (u_data, s_data, vh_data, n, trunc_err) ->
    truncate_svd leg_dual get_same_backend backend_truncate_svd
      (IsTensor U) S (IsTensor Vh) options
    = Ok (Tensor_init u_data b (removelast (legs U) ++ [n]) (labels U),
          DiagonalTensor_init s_data b [leg_dual n; n] (diag_labels S),
          Tensor_init vh_data b (leg_dual n :: tl (legs Vh)) (labels Vh),
          trunc_err)
    /\ (legs U <> [] ->
        List.length (removelast (legs U) ++ [n]) = List.length (legs U))
    /\ (legs Vh <> [] ->
        List.length (leg_dual n :: tl (legs Vh)) = List.length (legs Vh))
    /\ (forall d,
           truncate_svd leg_dual get_same_backend backend_truncate_svd
             (IsDiagonalTensor d) S (IsTensor Vh) options
           = Raise NotImplementedError
           /\ truncate_svd leg_dual get_same_backend backend_truncate_svd
                (IsTensor U) S (IsDiagonalTensor d) options
              = Raise NotImplementedError).
Proof.
  intros U Vh S options b u_data s_data vh_data n trunc_err Hb Ht.
  split; [ | split; [ | split]].
  - unfold truncate_svd. rewrite Hb. cbn [bind]. rewrite Ht. cbn [bind].
    now rewrite py_slice_but_last, py_slice_but_first.
  - intros HU. rewrite length_app. cbn [List.length]. 
    destruct (legs U) as [ | x l] using rev_ind; [contradiction | ].
    rewrite removelast_last, length_app. reflexivity.
  - intros HV. destruct (legs Vh); [contradiction | reflexivity].
  - intros d. split; reflexivity.
Qed.

End TruncateSvd.

Lemma truncate_svd_replaces_the_bond_leg_witness :
  truncate_svd (Scalar := Z) (Options := unit) (fun l => (l ++ "*")%string)
    (fun U _ _ => Ok (backend U))
    (fun _ U _ _ _ => Ok (data U, data U, data U, "cut"%string, 7))
    (IsTensor (Tensor_init tt tt ["row"; "bond*"]%string [Some "p"%string; None]))
    (DiagonalTensor_init tt tt ["bond"; "bond*"]%string [None; None])
    (IsTensor (Tensor_init tt tt ["bond"; "col"]%string [None; Some "q"%string])) tt
  = Ok (Tensor_init tt tt ["row"; "cut"]%string [Some "p"%string; None],
        DiagonalTensor_init tt tt ["cut*"; "cut"]%string [None; None],
        Tensor_init tt tt ["cut*"; "col"]%string [None; Some "q"%string], 7).
Proof.
  apply (truncate_svd_replaces_the_bond_leg unit unit string Z unit
           (fun l => (l ++ "*")%string) (fun U _ _ => Ok (backend U))
           (fun _ U _ _ _ => Ok (data U, data U, data U, "cut"%string, 7))
           (Tensor_init tt tt ["row"; "bond*"]%string [Some "p"%string; None])
           (Tensor_init tt tt ["bond"; "col"]%string [None; Some "q"%string])
           (DiagonalTensor_init tt tt ["bond"; "bond*"]%string [None; None])
           tt tt tt tt tt "cut"%string 7); reflexivity.
Defined.

(* ================================================================== *)
(** * Properties of the torch backend *)

(** ** [_block_repr_lines] *)

Section ReprLines.
Variable Block : Type.
Variable repr_lines : Z -> Block -> list string.

(** X20. [_block_repr_lines] returns all indented lines when they are at
    most [max_lines]. When they are more and [max_lines >= 2], it returns
    exactly [max_lines] lines: the first [(max_lines - 1) // 2] lines, an
    ellipsis line, and the last lines. With [max_lines == 1] the slice
    [lines[-0:]] is the whole list: the result is the ellipsis line
    followed by every line, one line more than the input. *)
Theorem _block_repr_lines_length :
  forall (a : Block) (indent : string) (max_width max_lines : Z),
    let lines := indented_lines repr_lines a indent max_width in
    let n := List.length lines in
    let first := Z.to_nat ((max_lines - 1) / 2) in
    let last := (Z.to_nat max_lines - 1 - first)%nat in
    (Z.of_nat n <= max_lines ->
     _block_repr_lines repr_lines a indent max_width max_lines = lines)
    /\ (2 <= max_lines < Z.of_nat n ->
        _block_repr_lines repr_lines a indent max_width max_lines
        = firstn first lines ++ [(indent ++ "...")%string] ++ skipn (n - last) lines
        /\ List.length (_block_repr_lines repr_lines a indent max_width max_lines)
           = Z.to_nat max_lines)
    /\ (max_lines = 1 -> (1 < n)%nat ->
        _block_repr_lines repr_lines a indent max_width max_lines
        = (indent ++ "...")%string :: lines).
Proof.
  intros a indent max_width max_lines lines n first last.
  unfold _block_repr_lines. fold (indented_lines repr_lines a indent max_width).
  fold lines.
  fold n. repeat split.
  - intros H. destruct (Z.ltb_spec max_lines (Z.of_nat n)); [lia | reflexivity].
  - destruct H as [H2 Hn].
    destruct (Z.ltb_spec max_lines (Z.of_nat n)); [ | lia].
    assert (Hf : 0 <= (max_lines - 1) / 2) by (apply Z.div_pos; lia).
    assert (Hf2 : 2 * ((max_lines - 1) / 2) <= max_lines - 1)
      by (apply Z.mul_div_le; lia).
    rewrite py_slice_to by exact Hf.
    rewrite py_slice_last by (fold n; lia).
    fold n. subst first last. do 3 f_equal. lia.
  - destruct H as [H2 Hn].
    destruct (Z.ltb_spec max_lines (Z.of_nat n)); [ | lia].
    assert (Hf : 0 <= (max_lines - 1) / 2) by (apply Z.div_pos; lia).
    assert (Hf2 : 2 * ((max_lines - 1) / 2) <= max_lines - 1)
      by (apply Z.mul_div_le; lia).
    rewrite py_slice_to by exact Hf.
    rewrite py_slice_last by (fold n; lia).
    rewrite !length_app, length_firstn, length_skipn. fold n. cbn [List.length]. lia.
  - intros -> Hn.
    destruct (Z.ltb_spec 1 (Z.of_nat n)); [ | lia].
    cbn. rewrite py_slice_from, py_slice_to by lia. reflexivity.
Qed.

End ReprLines.

Lemma _block_repr_lines_length_witness :
  List.length
    (_block_repr_lines (fun _ (_ : unit) => ["a"; "b"; "c"; "d"; "e"; "f"]%string)
       tt "  "%string 80 4) = 4%nat
  /\ _block_repr_lines (fun _ (_ : unit) => ["a"; "b"; "c"]%string) tt ""%string 80 1
     = ["..."; "a"; "b"; "c"]%string.
Proof.
  split.
  - apply (_block_repr_lines_length unit
             (fun _ (_ : unit) => ["a"; "b"; "c"; "d"; "e"; "f"]%string)
             tt "  "%string 80 4). cbn. lia.
  - apply (_block_repr_lines_length unit
             (fun _ (_ : unit) => ["a"; "b"; "c"]%string) tt ""%string 80 1);
      [reflexivity | cbn; lia].
Defined.

(** ** The axes handed to [torch.permute] *)

Lemma In_range3_step_1 :
  forall start stop k, In k (range3 start stop 1) <-> start <= k < stop.
Proof.
  intros start stop k. rewrite In_range3_pos by lia. rewrite Z.mod_1_r. tauto.
Qed.

Lemma NoDup_range3_step_1 : forall start stop, NoDup (range3 start stop 1).
Proof.
  intros start stop. apply ascending_NoDup, ascending_range3_pos. lia.
Qed.

Lemma py_index_in_range {A : Type} :
  forall (l : list A) i,
    0 <= i < Z.of_nat (List.length l) -> exists x, py_index l i = Ok x.
Proof.
  intros l i Hi. unfold py_index.
  destruct (Z.ltb_spec i 0); [lia | ].
  destruct (Z.leb_spec 0 i); [ | lia].
  destruct (Z.ltb_spec i (Z.of_nat (List.length l))); [ | lia]. cbn [andb].
  destruct (nth_error l (Z.to_nat i)) as [x | ] eqn:E; [eauto | ].
  apply nth_error_None in E. lia.
Qed.

Lemma mapM_py_index_in_range :
  forall (shape idcs : list Z),
    in_range (Z.of_nat (List.length shape)) idcs ->
    exists dims,
      mapM (py_index shape) idcs = Ok dims /\ List.length dims = List.length idcs.
Proof.
  intros shape idcs H. induction H as [ | i idcs Hi _ (dims & Hd & Hl)].
  - exists []. split; reflexivity.
  - destruct (py_index_in_range shape i Hi) as [d Ed].
    exists (d :: dims). cbn [mapM]. rewrite Ed, Hd. cbn.
    split; [reflexivity | now rewrite Hl].
Qed.

Section CombineLegs.
Variable Block : Type.
Variable block_shape_of : Block -> list Z.
Variable torch_permute : Block -> list Z -> result Block.
Variable torch_reshape : Block -> list Z -> result Block.
Variable numpy_prod : list Z -> Z.

(** X21. For a non-empty list [legs] of distinct axes of [a],
    [block_combine_legs] permutes [a] with a permutation of all its axes in
    which [legs] stand together, in their given order, and reshapes the
    result to a shape of [ndim - len(legs) + 1] dimensions. The empty list
    raises IndexError. *)
Theorem block_combine_legs_permutes_all_axes :
  forall (a : Block) (legs : list Z),
    let ndim := Z.of_nat (List.length (block_shape_of a)) in
    (legs = [] ->
     block_combine_legs block_shape_of torch_permute torch_reshape numpy_prod a legs
     = Raise IndexError)
    /\ (legs <> [] -> NoDup legs -> in_range ndim legs ->
        exists before after new_shape,
          axes_permutation ndim (before ++ legs ++ after)
          /\ Z.of_nat (List.length new_shape) = ndim - Z.of_nat (List.length legs) + 1
          /\ block_combine_legs block_shape_of torch_permute torch_reshape numpy_prod
               a legs
             = (b <- torch_permute a (before ++ legs ++ after) ;;
                torch_reshape b new_shape)).
Proof.
  intros a legs ndim. split; [intros ->; reflexivity | ].
  intros Hne Hnd Hin. destruct legs as [ | l0 rest]; [contradiction | ].
  assert (E0 : py_index (l0 :: rest) 0 = Ok l0).
  { unfold py_index. cbn [List.length].
    destruct (Z.ltb_spec 0 (Z.of_nat (S (List.length rest)))); [reflexivity | lia]. }
  assert (Hl0 : In l0 (l0 :: rest)) by now left.
  remember (l0 :: rest) as legs eqn:Elegs. clear Elegs Hne rest.
  assert (H0 : 0 <= l0 < ndim).
  { unfold in_range in Hin. rewrite Forall_forall in Hin. now apply Hin. }
  set (before := filter (fun n => negb (py_in n legs)) (range1 l0)).
  set (after := filter (fun n => negb (py_in n legs)) (range3 (l0 + 1) ndim 1)).
  assert (Hb : forall x, In x before <-> (0 <= x < l0 /\ ~ In x legs)).
  { intros x. unfold before.
    now rewrite filter_In, In_range1, negb_true_iff, py_in_false. }
  assert (Ha : forall x, In x after <-> (l0 + 1 <= x < ndim /\ ~ In x legs)).
  { intros x. unfold after.
    now rewrite filter_In, In_range3_step_1, negb_true_iff, py_in_false. }
  assert (Hperm : axes_permutation ndim (before ++ legs ++ after)).
  { apply NoDup_Permutation.
    - apply NoDup_app.
      + apply NoDup_filter. apply ascending_NoDup, ascending_range1.
      + apply NoDup_app; [exact Hnd | | ].
        * apply NoDup_filter, NoDup_range3_step_1.
        * intros x Hx Hx'. apply Ha in Hx'. tauto.
      + intros x Hx Hx'. apply Hb in Hx. apply in_app_or in Hx'.
        destruct Hx' as [Hx' | Hx']; [tauto | ]. apply Ha in Hx'. lia.
    - apply ascending_NoDup, ascending_range1.
    - intros x. rewrite !in_app_iff, Hb, Ha, In_range1. split.
      + intros [[H _] | [H | [H _]]]; try lia.
        unfold in_range in Hin. rewrite Forall_forall in Hin. now apply Hin.
      + intros Hx. destruct (in_dec Z.eq_dec x legs) as [Hl | Hl]; [tauto | ].
        assert (x <> l0) by (intros ->; now apply Hl).
        destruct (Z_lt_le_dec x l0); [left | right; right]; split; try lia; exact Hl. }
  assert (Hbr : in_range ndim before).
  { apply Forall_forall. intros x Hx. apply Hb in Hx. lia. }
  assert (Har : in_range ndim after).
  { apply Forall_forall. intros x Hx. apply Ha in Hx. lia. }
  destruct (mapM_py_index_in_range (block_shape_of a) before Hbr) as (db & Edb & Ldb).
  destruct (mapM_py_index_in_range (block_shape_of a) legs Hin) as (dl & Edl & Ldl).
  destruct (mapM_py_index_in_range (block_shape_of a) after Har) as (da & Eda & Lda).
  exists before, after, (db ++ [numpy_prod dl] ++ da). split; [exact Hperm | ]. split.
  - apply Permutation_length in Hperm. rewrite range1_eq, length_map, length_seq in Hperm.
    rewrite !length_app in *. cbn [List.length]. fold ndim in Hperm. lia.
  - unfold block_combine_legs, block_shape. rewrite E0. cbn [bind].
    fold ndim. fold before. fold after.
    rewrite Edb, Edl, Eda. reflexivity.
Qed.

End CombineLegs.

Section Trace.
Variable Block : Type.
Variable block_shape_of : Block -> list Z.
Variable torch_permute : Block -> list Z -> result Block.
Variable torch_reshape : Block -> list Z -> result Block.
Variable torch_diagonal_sum : Block -> result Block.
Variable numpy_prod : list Z -> Z.

(** X22. For two index lists that are, taken together, distinct axes of
    [a], [block_trace] permutes [a] with a permutation of all its axes: the
    untouched axes in ascending order, then [idcs1], then [idcs2]. *)
Theorem block_trace_permutes_all_axes :
  forall (a : Block) (idcs1 idcs2 : list Z),
    let ndim := Z.of_nat (List.length (block_shape_of a)) in
    NoDup (idcs1 ++ idcs2) -> in_range ndim (idcs1 ++ idcs2) ->
    exists other,
      ascending other
      /\ (forall n, In n other <-> (0 <= n < ndim /\ ~ In n idcs1 /\ ~ In n idcs2))
      /\ axes_permutation ndim (other ++ idcs1 ++ idcs2)
      /\ block_trace block_shape_of torch_permute torch_reshape torch_diagonal_sum
           numpy_prod a idcs1 idcs2
         = (b <- torch_permute a (other ++ idcs1 ++ idcs2) ;;
            let num_other := Z.of_nat (List.length other) in
            let num_trace := Z.of_nat (List.length idcs1) in
            let trace_dim :=
              numpy_prod (py_slice (block_shape_of b) (Some num_other)
                            (Some (num_other + num_trace))) in
            c <- torch_reshape b (py_slice (block_shape_of b) None (Some num_other)
                                    ++ [trace_dim; trace_dim]) ;;
            torch_diagonal_sum c).
Proof.
  intros a idcs1 idcs2 ndim Hnd Hin.
  set (other := filter (fun n => negb (py_in n idcs1) && negb (py_in n idcs2))
                       (range1 ndim)).
  assert (Ho : forall n, In n other <-> (0 <= n < ndim /\ ~ In n idcs1 /\ ~ In n idcs2)).
  { intros n. unfold other.
    rewrite filter_In, In_range1, andb_true_iff, !negb_true_iff, !py_in_false.
    reflexivity. }
  exists other. split; [apply ascending_filter, ascending_range1 | ].
  split; [exact Ho | ]. split; [ | reflexivity].
  apply NoDup_Permutation.
  - apply NoDup_app; [apply NoDup_filter, ascending_NoDup, ascending_range1 | exact Hnd | ].
    intros x Hx Hx'. apply Ho in Hx. apply in_app_or in Hx'. tauto.
  - apply ascending_NoDup, ascending_range1.
  - intros x. rewrite in_app_iff, Ho, In_range1. split.
    + intros [[H _] | H]; [exact H | ].
      unfold in_range in Hin. rewrite Forall_forall in Hin. now apply Hin.
    + intros Hx. destruct (in_dec Z.eq_dec x (idcs1 ++ idcs2)) as [Hl | Hl];
        [now right | left].
      rewrite in_app_iff in Hl. tauto.
Qed.

End Trace.

Lemma block_combine_legs_permutes_all_axes_witness :
  exists before after new_shape : list Z,
    axes_permutation 4 (before ++ [2; 0] ++ after)
    /\ Z.of_nat (List.length new_shape) = 4 - 2 + 1
    /\ block_combine_legs (fun _ : unit => [3; 4; 5; 6]) (fun a _ => Ok a)
         (fun a _ => Ok a) (fun dims => fold_left Z.mul dims 1) tt [2; 0]
       = (b <- Ok tt ;; Ok b).
Proof.
  destruct (block_combine_legs_permutes_all_axes unit (fun _ : unit => [3; 4; 5; 6])
              (fun a _ => Ok a) (fun a _ => Ok a) (fun dims => fold_left Z.mul dims 1)
              tt [2; 0]) as [_ H].
  destruct H as (before & after & new_shape & Hp & Hl & He).
  - discriminate.
  - repeat constructor; cbn; intuition lia.
  - repeat constructor; cbn; lia.
  - exists before, after, new_shape. repeat split; assumption.
Defined.

Lemma block_trace_permutes_all_axes_witness :
  exists other,
    ascending other
    /\ axes_permutation 4 (other ++ [3] ++ [1]).
Proof.
  destruct (block_trace_permutes_all_axes unit (fun _ : unit => [2; 5; 7; 5])
              (fun a _ => Ok a) (fun a _ => Ok a) (fun a => Ok a)
              (fun dims => fold_left Z.mul dims 1) tt [3] [1])
    as (other & Ha & _ & Hp & _).
  - repeat constructor; cbn; intuition lia.
  - repeat constructor; cbn; lia.
  - exists other. split; assumption.
Defined.

(** ** Singular value decomposition *)

Section TorchSvd.
Variables Block Backend Leg : Type.
Variable block_shape_of : Block -> list Z.
Variable torch_permute : Block -> list Z -> result Block.
Variable torch_reshape : Block -> list Z -> result Block.
Variable torch_linalg_svd : Block -> string -> result (Block * Block * Block).
Variable block_len : Block -> Z.
Variable numpy_prod : list Z -> Z.
Variable non_symmetric : Z -> bool -> bool -> Leg.

(** X23. [matrix_svd] hands to [torch.linalg.svd] only a driver of
    [svd_algorithms]: [gesvd] when no algorithm is given, the given one when
    it is [gesvdj] or [gesvd]; any other name raises AssertionError without
    a call of torch. *)
Theorem matrix_svd_validates_the_algorithm :
  forall (a : Block),
    matrix_svd torch_linalg_svd a None = torch_linalg_svd a "gesvd"%string
    /\ (forall name,
           In name svd_algorithms ->
           matrix_svd torch_linalg_svd a (Some name) = torch_linalg_svd a name)
    /\ (forall name,
           ~ In name svd_algorithms ->
           matrix_svd torch_linalg_svd a (Some name) = Raise AssertionError).
Proof.
  intros a. repeat split.
  - intros name Hin. unfold matrix_svd.
    replace (existsb (String.eqb name) svd_algorithms) with true; [reflexivity | ].
    symmetry. apply existsb_exists. exists name. split; [exact Hin | apply String.eqb_refl].
  - intros name Hin. unfold matrix_svd.
    replace (existsb (String.eqb name) svd_algorithms) with false; [reflexivity | ].
    symmetry. apply not_true_is_false. intros H. apply existsb_exists in H.
    destruct H as (x & Hx & E). apply String.eqb_eq in E. now subst.
Qed.

(** X24. [NoSymmetryTorchBackend.svd] never returns: it calls
    [self.matrix_svd(a)] without the required [algorithm], so the call
    raises TypeError as soon as the permutation and the reshape before it
    have gone through. *)
Theorem NoSymmetryTorchBackend_svd_never_returns :
  forall (a : Tensor Block Backend Leg) (axs1 axs2 : list Z) (new_leg : option Leg),
    raises (NoSymmetryTorchBackend_svd block_shape_of torch_permute torch_reshape
              torch_linalg_svd block_len numpy_prod non_symmetric a axs1 axs2 new_leg)
    /\ (forall b c,
           torch_permute (data a) (axs1 ++ axs2) = Ok b ->
           torch_reshape b
             [numpy_prod (py_slice (block_shape_of b) None
                            (Some (Z.of_nat (List.length axs1))));
              numpy_prod (py_slice (block_shape_of b)
                            (Some (Z.of_nat (List.length axs1))) None)] = Ok c ->
           NoSymmetryTorchBackend_svd block_shape_of torch_permute torch_reshape
             torch_linalg_svd block_len numpy_prod non_symmetric a axs1 axs2 new_leg
           = Raise TypeError).
Proof.
  intros a axs1 axs2 new_leg. unfold NoSymmetryTorchBackend_svd. split.
  - destruct (torch_permute (data a) (axs1 ++ axs2)) as [b | e];
      [ | now exists e].
    cbn [bind]. unfold block_shape.
    match goal with |- raises (bind ?r _) => destruct r as [c | e] end;
      [ | now exists e].
    now exists TypeError.
  - intros b c Hb Hc. rewrite Hb. cbn [bind]. unfold block_shape. rewrite Hc.
    reflexivity.
Qed.

Variables Scalar : Type.
Variable get_leg_idcs : Tensor Block Backend Leg -> list LegSel -> result (list Z).
Variable combine_legs :
  Tensor Block Backend Leg -> list Z -> GlobalRef -> list Z
  -> result (Tensor Block Backend Leg).
Variable transpose :
  Tensor Block Backend Leg -> list Z -> result (Tensor Block Backend Leg).
Variable split_leg :
  Tensor Block Backend Leg -> Z -> result (Tensor Block Backend Leg).
Variable leg_dual : Leg -> Leg.

(** X25. Over a [NoSymmetryTorchBackend], [svd] of [matrix_operations]
    never returns a decomposition: it passes two arguments to a backend
    method of four parameters, so also a two-leg tensor, which needs no
    merging of legs, ends in TypeError. *)
Theorem svd_over_torch_backend_never_returns :
  forall (a : TensorLike Block Backend Leg Scalar)
         (u_legs vh_legs : option (list LegSel))
         (new_labels : option (list string)) (new_vh_leg_dual : bool),
    raises (svd get_leg_idcs combine_legs transpose split_leg leg_dual
              (torch_backend_svd block_shape_of torch_permute torch_reshape
                 torch_linalg_svd block_len numpy_prod non_symmetric)
              a u_legs vh_legs new_labels new_vh_leg_dual)
    /\ (forall t u v ls,
           a = IsTensor t ->
           leg_bipartition get_leg_idcs t u_legs vh_legs = Ok ([u], [v]) ->
           u <> 1 ->
           _svd_new_labels new_labels = Ok ls ->
           svd get_leg_idcs combine_legs transpose split_leg leg_dual
             (torch_backend_svd block_shape_of torch_permute torch_reshape
                torch_linalg_svd block_len numpy_prod non_symmetric)
             a u_legs vh_legs new_labels new_vh_leg_dual
           = Raise TypeError).
Proof.
  intros a u_legs vh_legs new_labels new_vh_leg_dual. split.
  - destruct a as [x | t | d]; try (now exists NotImplementedError).
    unfold svd, call_leg_bipartition. cbn [bind_positional List.length Nat.eqb bind].
    destruct (leg_bipartition get_leg_idcs t u_legs vh_legs) as [[u_idcs vh_idcs] | e];
      [ | now exists e].
    cbn [bind].
    destruct (_svd_new_labels new_labels) as [[[[l_u l_su] l_sv] l_vh] | e];
      [ | now exists e].
    cbn [bind].
    destruct (negb (Z.of_nat (List.length u_idcs) =? 1)
              || negb (Z.of_nat (List.length vh_idcs) =? 1)).
    + now exists NameError.
    + destruct (py_index u_idcs 0) as [u0 | e]; [ | now exists e]. cbn [bind].
      destruct (if u0 =? 1 then transpose t [1; 0] else Ok t) as [t' | e];
        [ | now exists e].
      now exists TypeError.
  - intros t u v ls -> Hb Hu Hl.
    unfold svd, call_leg_bipartition. cbn [bind_positional List.length Nat.eqb bind].
    rewrite Hb. cbn [bind]. rewrite Hl.
    destruct ls as [[[l_u l_su] l_sv] l_vh]. cbn.
    destruct (Z.eqb_spec u 1); [contradiction | reflexivity].
Qed.

End TorchSvd.

Lemma matrix_svd_validates_the_algorithm_witness :
  matrix_svd (fun (a : unit) (_ : string) => Ok (a, a, a)) tt (Some "gesvdj"%string)
  = Ok (tt, tt, tt)
  /\ matrix_svd (fun (a : unit) (_ : string) => Ok (a, a, a)) tt (Some "gesdd"%string)
     = Raise AssertionError.
Proof.
  destruct (matrix_svd_validates_the_algorithm unit
              (fun (a : unit) (_ : string) => Ok (a, a, a)) tt) as (_ & Hin & Hout).
  split.
  - apply (Hin "gesvdj"%string). cbn. tauto.
  - apply (Hout "gesdd"%string). cbn. intros [H | [H | [ ]]]; discriminate.
Defined.

Lemma NoSymmetryTorchBackend_svd_never_returns_witness :
  NoSymmetryTorchBackend_svd (Backend := unit) (fun _ : unit => [2; 3])
    (fun a _ => Ok a) (fun a _ => Ok a) (fun a _ => Ok (a, a, a)) (fun _ => 2)
    (fun dims => fold_left Z.mul dims 1) (fun _ _ _ => tt)
    (Tensor_init tt tt [tt; tt] [None; None]) [0] [1] None
  = Raise TypeError.
Proof.
  apply (proj2 (NoSymmetryTorchBackend_svd_never_returns unit unit unit
                  (fun _ : unit => [2; 3])
                  (fun a _ => Ok a) (fun a _ => Ok a) (fun a _ => Ok (a, a, a))
                  (fun _ => 2) (fun dims => fold_left Z.mul dims 1) (fun _ _ _ => tt)
                  (Tensor_init tt tt [tt; tt] [None; None]) [0] [1] None) tt tt);
    reflexivity.
Defined.

Lemma svd_over_torch_backend_never_returns_witness :
  svd (Scalar := unit) resolve_leg_idcs
    (fun a _ _ _ => Ok a) (fun a _ => Ok a) (fun a _ => Ok a) (fun l => l)
    (torch_backend_svd (fun _ : unit => [2; 3]) (fun a _ => Ok a) (fun a _ => Ok a)
       (fun a _ => Ok (a, a, a)) (fun _ => 2) (fun dims => fold_left Z.mul dims 1)
       (fun _ _ _ => tt))
    (IsTensor two_legs) None None None false
  = Raise TypeError.
Proof.
  apply (proj2 (svd_over_torch_backend_never_returns unit unit unit
                  (fun _ : unit => [2; 3]) (fun a _ => Ok a) (fun a _ => Ok a)
                  (fun a _ => Ok (a, a, a)) (fun _ => 2)
                  (fun dims => fold_left Z.mul dims 1) (fun _ _ _ => tt)
                  unit resolve_leg_idcs
                  (fun a _ _ _ => Ok a) (fun a _ => Ok a) (fun a _ => Ok a) (fun l => l)
                  (IsTensor two_legs) None None None false)
           two_legs 0 1 (None, None, None, None)); try reflexivity.
  discriminate.
Defined.
